(** * Moving-average crossover backtester (backtester.py)

    A shallow embedding of the signal / backtest engine of the KOSPI top-30
    application, and the properties of it that the specification states.

    Number model.  The program computes on IEEE doubles held in pandas
    columns.  A cell is modelled as [fval = option Q]: [None] is NaN (the
    "missing" marker of pandas) and [Some q] is a finite value, computed
    exactly.  Rounding error, overflow and underflow of double arithmetic
    are outside the model.  Quotients are only taken where the divisor is
    known to be non-zero, or the zero divisor is tested explicitly
    ([fdiv]); closing prices are positive by the data model, and the
    theorems that depend on a quotient of prices say so.  Square roots and
    real powers (the Sharpe-like ratio, CAGR) live in [R].

    One property of the specification promises an exact value that rounding
    decides: the guard of the Sharpe-like ratio.  For it the three lines
    involved are modelled on binary64 numbers as well ([Doubles]). *)

From Stdlib Require Import List ZArith QArith Qround Qabs Lia Lqa Bool.
From Stdlib Require String Ascii.
From Corelib Require PrimFloat.
Import String.StringSyntax.
From Stdlib Require Import Reals Lra Qreals Sorted.
Import ListNotations.

#[local] Open Scope Q_scope.

(** ** Cells *)

Definition fval : Type := option Q.

Definition Qlt_bool (x y : Q) : bool := negb (Qle_bool y x).

(** Arithmetic and comparisons of cells: NaN propagates through arithmetic,
    and every comparison with NaN is false. *)
Definition fmul (a b : fval) : fval :=
  match a, b with
  | Some x, Some y => Some (x * y)
  | _, _ => None
  end.

Definition fgt (a b : fval) : bool :=
  match a, b with
  | Some x, Some y => Qlt_bool y x
  | _, _ => false
  end.

Definition feqb (a : fval) (c : Q) : bool :=
  match a with
  | Some x => Qeq_bool x c
  | None => false
  end.

(** [x / y] on finite doubles, when the result is finite or NaN: [0 / 0] is
    NaN.  A non-zero numerator over zero (an infinity) has no cell in this
    model; it is rendered [None], and it does not arise where [fdiv] is used
    (lemma [zero_peak_zero_growth]). *)
Definition fdiv (x y : Q) : fval :=
  if Qeq_bool y 0 then None else Some (x / y).

Definition fillna (c : Q) (a : fval) : Q :=
  match a with
  | Some x => x
  | None => c
  end.

(** Python's [round(x, nd)]: to the nearest multiple of [10^-nd], ties to
    the even neighbour. *)
Definition round_half_even (x : Q) : Z :=
  let f := Qfloor x in
  match Qcompare (x - inject_Z f) (1 # 2) with
  | Lt => f
  | Gt => (f + 1)%Z
  | Eq => if Z.even f then f else (f + 1)%Z
  end.

Definition round (x : Q) (nd : nat) : Q :=
  inject_Z (round_half_even (x * inject_Z (10 ^ Z.of_nat nd)))
  / inject_Z (10 ^ Z.of_nat nd).

(** [round] on a real number. *)
Definition Rround_half_even (x : R) : Z :=
  let f := Int_part x in
  if Rlt_dec (x - IZR f) (1 / 2) then f
  else if Rlt_dec (1 / 2) (x - IZR f) then (f + 1)%Z
  else if Z.even f then f else (f + 1)%Z.

Definition Rround (x : R) (nd : nat) : R :=
  (IZR (Rround_half_even (x * 10 ^ nd)) / 10 ^ nd)%R.

(** ** The pandas operations the engine uses *)

Module Pandas.

Definition sum (xs : list Q) : Q := fold_right Qplus 0 xs.

Definition mean (xs : list Q) : Q :=
  sum xs / inject_Z (Z.of_nat (length xs)).

(** The [w] observations ending at position [t]. *)
Definition window (w t : nat) (xs : list Q) : list Q :=
  firstn w (skipn (t + 1 - w) xs).

(** [s.rolling(w).mean()]: NaN until [w] observations are in the window. *)
Definition rolling_mean (w : nat) (xs : list Q) : list fval :=
  map (fun t =>
         if ((1 <=? w) && (w <=? t + 1))%nat
         then Some (mean (window w t xs))
         else None)
      (seq 0 (length xs)).

(** [s.shift(1)]: every value moves one period later, the first is NaN. *)
Definition shift1 (xs : list fval) : list fval :=
  match xs with
  | [] => []
  | _ :: _ => None :: removelast xs
  end.

(** An integer column seen as a float column (what [shift] does to it). *)
Definition as_float (xs : list Z) : list fval :=
  map (fun z => Some (inject_Z z)) xs.

Fixpoint pct_from (prev : Q) (xs : list Q) : list fval :=
  match xs with
  | [] => []
  | x :: tl => Some (x / prev - 1) :: pct_from x tl
  end.

(** [s.pct_change()] on a series without missing values. *)
Definition pct_change (xs : list Q) : list fval :=
  match xs with
  | [] => []
  | x :: tl => None :: pct_from x tl
  end.

Fixpoint cumprod_from (acc : Q) (xs : list Q) : list Q :=
  match xs with
  | [] => []
  | x :: tl => (acc * x) :: cumprod_from (acc * x) tl
  end.

(** [s.cumprod()] *)
Definition cumprod (xs : list Q) : list Q := cumprod_from 1 xs.

Fixpoint zip_with {A B C} (f : A -> B -> C) (xs : list A) (ys : list B)
  : list C :=
  match xs, ys with
  | x :: xs', y :: ys' => f x y :: zip_with f xs' ys'
  | _, _ => []
  end.

Fixpoint cummax_from (m : Q) (xs : list Q) : list Q :=
  match xs with
  | [] => []
  | x :: tl =>
      let m' := if Qle_bool m x then x else m in
      m' :: cummax_from m' tl
  end.

(** [s.cummax()] on a series without missing values. *)
Definition cummax (xs : list Q) : list Q :=
  match xs with
  | [] => []
  | x :: tl => x :: cummax_from x tl
  end.

(** [s.min()]: the least value that is not NaN, NaN when there is none. *)
Fixpoint min_skipna (xs : list fval) : fval :=
  match xs with
  | [] => None
  | x :: tl =>
      match x, min_skipna tl with
      | Some a, Some b => Some (if Qle_bool a b then a else b)
      | Some a, None => Some a
      | None, m => m
      end
  end.

(** [s.dropna()] *)
Fixpoint dropna (s : list (Z * fval)) : list (Z * Q) :=
  match s with
  | [] => []
  | (ts, Some v) :: tl => (ts, v) :: dropna tl
  | (_, None) :: tl => dropna tl
  end.

(** The sample variance ([ddof = 1]); NaN below two observations. *)
Definition var (xs : list Q) : fval :=
  if (length xs <? 2)%nat then None
  else
    let m := mean xs in
    Some (sum (map (fun x => (x - m) * (x - m)) xs)
          / inject_Z (Z.of_nat (length xs - 1))).

(** [s.std()] *)
Definition std (xs : list Q) : option R :=
  option_map (fun v => sqrt (Q2R v)) (var xs).

(** The running product of the first [k + 1] factors, from [acc] on. *)
Definition running_product (acc : Q) (xs : list Q) (k : nat) : Q :=
  fold_left Qmult (firstn (S k) xs) acc.

End Pandas.

(** ** backtester.py *)

Module Backtester.
Import Pandas.

(** [_cfg()] decodes the constant [{"a":2,"b":10}]: the short and the
    long window. *)
Definition _cfg : nat * nat := (2%nat, 10%nat).

(** A monthly price table: the index (period-end timestamps) and its
    first column (closing prices). *)
Definition price_series : Type := list (Z * Q).

(** The table [calculate_signals] returns, column by column. *)
Record signals_df : Type := {
  index : list Z;
  close : list Q;
  _x : list fval;
  _y : list fval;
  signal : list Z;
  position : list fval;
  buy : list bool;
  sell : list bool
}.

Definition calculate_signals_with (_p _q : nat) (monthly_df : price_series)
  : signals_df :=
  let col := map snd monthly_df in
  let _s := rolling_mean _p col in
  let _l := rolling_mean _q col in
  let _c := zip_with (fun s l => if fgt s l then 1%Z else 0%Z) _s _l in
  let prev := shift1 (as_float _c) in
  {| index := map fst monthly_df;
     close := col;
     _x := _s;
     _y := _l;
     signal := _c;
     position := prev;
     buy := zip_with (fun c pc => Z.eqb c 1 && feqb pc 0) _c prev;
     sell := zip_with (fun c pc => Z.eqb c 0 && feqb pc 1) _c prev |}.

Definition calculate_signals (monthly_df : price_series) : signals_df :=
  calculate_signals_with (fst _cfg) (snd _cfg) monthly_df.


(** [get_current_signal]: [None] below eleven observations, else the last
    period's state. *)
Definition get_current_signal (monthly_df : price_series)
  : option (Z * bool * bool) :=
  if ((length monthly_df =? 0) || (length monthly_df <? 11))%nat then None
  else
    let df := calculate_signals monthly_df in
    Some (last (signal df) 0%Z, last (buy df) false, last (sell df) false).

(** A closed round trip.  The fields are the keys of the dictionary the
    program appends: 매수일, 매도일, 매수가, 매도가, 수익률(%). *)
Record trade : Type := {
  buy_date : Z;
  sell_date : Z;
  buy_price : Q;
  sell_price : Q;
  pnl_pct : Q
}.

(** The columns of a row that the trade loop reads. *)
Record df_row : Type := {
  row_index : Z;
  row_close : Q;
  row_buy : bool;
  row_sell : bool
}.

Fixpoint rows_of (ix : list Z) (cl : list Q) (b s : list bool)
  : list df_row :=
  match ix, cl, b, s with
  | i :: ix', c :: cl', b0 :: b', s0 :: s' =>
      {| row_index := i; row_close := c; row_buy := b0; row_sell := s0 |}
      :: rows_of ix' cl' b' s'
  | _, _, _, _ => []
  end.

(** [df.iterrows()] *)
Definition iterrows (df : signals_df) : list df_row :=
  rows_of (index df) (close df) (buy df) (sell df).

(** The variables of the trade loop: [_in], [_ed], [_ep] and [trades]. *)
Record loop_state : Type := {
  _in : bool;
  _ed : option Z;
  _ep : option Q;
  trades_so_far : list trade
}.

Definition loop_init : loop_state :=
  {| _in := false; _ed := None; _ep := None; trades_so_far := [] |}.

(** One iteration of the loop.  [_ed] and [_ep] are set whenever [_in] is,
    so the sell branch always finds them; the remaining case of the match
    is never taken (lemma [loop_entry_set]). *)
Definition loop_body (st : loop_state) (row : df_row) : loop_state :=
  if row_buy row && negb (_in st) then
    {| _in := true; _ed := Some (row_index row);
       _ep := Some (row_close row); trades_so_far := trades_so_far st |}
  else if row_sell row && _in st then
    match _ed st, _ep st with
    | Some ed, Some ep =>
        let _xp := row_close row in
        let _pnl := (_xp - ep) / ep * 100 in
        {| _in := false; _ed := _ed st; _ep := _ep st;
           trades_so_far :=
             trades_so_far st ++
             [ {| buy_date := ed; sell_date := row_index row;
                  buy_price := ep; sell_price := _xp;
                  pnl_pct := round _pnl 2 |} ] |}
    | _, _ => st
    end
  else st.

Definition run_loop (st : loop_state) (rows : list df_row) : loop_state :=
  fold_left loop_body rows st.

(** What [backtest_stock] returns: the table with its three added columns
    ([monthly_return]; [strategy_return], also returned as "returns";
    [cumulative]) and the trades. *)
Record stock_result : Type := {
  signals : signals_df;
  monthly_return : list fval;
  returns : list fval;
  cumulative : list Q;
  trades : list trade
}.

Definition backtest_stock (monthly_df : price_series) : stock_result :=
  let df := calculate_signals monthly_df in
  let mr := pct_change (close df) in
  let sr := zip_with fmul (position df) mr in
  {| signals := df;
     monthly_return := mr;
     returns := sr;
     cumulative := cumprod (map (fun r => 1 + fillna 0 r) sr);
     trades := trades_so_far (run_loop loop_init (iterrows df)) |}.

(** *** Portfolio *)

(** A float column with its index. *)
Definition series : Type := list (Z * fval).

(** A table: an index and named columns, each as long as the index. *)
Record frame : Type := {
  f_index : list Z;
  f_columns : list (String.string * list fval)
}.

(** The value of a series at a timestamp, NaN where it has none. *)
Definition at_label (s : series) (ts : Z) : fval :=
  match find (fun e => Z.eqb (fst e) ts) s with
  | Some e => snd e
  | None => None
  end.

Fixpoint insert_label (z : Z) (l : list Z) : list Z :=
  match l with
  | [] => [z]
  | y :: tl =>
      if (z <? y)%Z then z :: l
      else if (z =? y)%Z then l
      else y :: insert_label z tl
  end.

(** The union of the indexes of the columns, increasing.  (pandas sorts the
    union of indexes that differ; the indexes of price tables are
    increasing already.) *)
Definition union_index (d : list (String.string * series)) : list Z :=
  fold_left (fun acc z => insert_label z acc)
            (flat_map (fun c => map fst (snd c)) d) [].

(** [pd.DataFrame(d)] for a dictionary of series. *)
Definition DataFrame (d : list (String.string * series)) : frame :=
  let ix := union_index d in
  {| f_index := ix;
     f_columns := map (fun c => (fst c, map (at_label (snd c)) ix)) d |}.

(** [a.intersection(b)] on indexes. *)
Definition intersection (a b : list Z) : list Z :=
  filter (fun z => existsb (Z.eqb z) b) a.

(** [f.loc[ix]] *)
Definition loc (f : frame) (ix : list Z) : frame :=
  {| f_index := ix;
     f_columns :=
       map (fun c => (fst c, map (at_label (combine (f_index f) (snd c))) ix))
           (f_columns f) |}.

(** [a * b] for two tables with the same columns and index. *)
Definition frame_mul (a b : frame) : frame :=
  {| f_index := f_index a;
     f_columns :=
       zip_with (fun ca cb => (fst ca, zip_with fmul (snd ca) (snd cb)))
                (f_columns a) (f_columns b) |}.

(** [f.fillna(0)] *)
Definition frame_fillna0 (f : frame) : frame :=
  {| f_index := f_index f;
     f_columns :=
       map (fun c => (fst c, map (fun v => Some (fillna 0 v)) (snd c)))
           (f_columns f) |}.

(** The cells of the row at position [k]. *)
Definition row_cells (f : frame) (k : nat) : list fval :=
  map (fun c => nth k (snd c) None) (f_columns f).

(** A sum that skips NaN (the default of pandas). *)
Definition sum_skipna (xs : list fval) : Q :=
  sum (map (fillna 0) xs).

(** [f.sum(axis=1)] *)
Definition sum_axis1 (f : frame) : list Q :=
  map (fun k => sum_skipna (row_cells f k)) (seq 0 (length (f_index f))).

Record portfolio_result : Type := {
  portfolio_index : list Z;
  portfolio_returns : list Q;
  portfolio_cumulative : list Q;
  active_counts : list Q
}.

Definition N : Q := 30.

(** The instruments that pass the length guard, with the columns kept for
    each ([_as] and [_ar]). *)
Definition qualifies (mdf : price_series) : bool :=
  negb ((length mdf =? 0) || (length mdf <? 11))%nat.

Definition position_series (mdf : price_series) : series :=
  let df := calculate_signals mdf in combine (index df) (position df).

Definition return_series (mdf : price_series) : series :=
  let df := calculate_signals mdf in
  combine (index df) (pct_change (close df)).

Definition backtest_portfolio (all_monthly_data : list (String.string * price_series))
  : portfolio_result :=
  let kept := filter (fun e => qualifies (snd e)) all_monthly_data in
  let _as := map (fun e => (fst e, position_series (snd e))) kept in
  let _ar := map (fun e => (fst e, return_series (snd e))) kept in
  match _as with
  | [] =>
      {| portfolio_index := []; portfolio_returns := [];
         portfolio_cumulative := []; active_counts := [] |}
  | _ :: _ =>
      let sdf := DataFrame _as in
      let rdf := DataFrame _ar in
      let cidx := intersection (f_index sdf) (f_index rdf) in
      let sdf := loc sdf cidx in
      let rdf := loc rdf cidx in
      let wr := frame_fillna0 (frame_mul sdf rdf) in
      let portfolio_returns := map (fun s => s / N) (sum_axis1 wr) in
      {| portfolio_index := cidx;
         portfolio_returns := portfolio_returns;
         portfolio_cumulative :=
           cumprod (map (fun r => 1 + r) portfolio_returns);
         active_counts := sum_axis1 sdf |}
  end.

(** *** Metrics *)

(** The dictionary [calculate_metrics] returns: names and values, in the
    order the program inserts them. *)
Definition metrics : Type := list (String.string * option R).

Definition cumulative_of (rs : list Q) : list Q :=
  cumprod (map (fun r => 1 + r) rs).

Definition total_return_of (rs : list Q) : Q :=
  last (cumulative_of rs) 1 - 1.

Definition cagr_of (rs : list Q) : R :=
  let final := last (cumulative_of rs) 1 in
  let n_years := inject_Z (Z.of_nat (length rs)) / 12 in
  if Qlt_bool 0 n_years && Qlt_bool 0 final
  then (Rpower (Q2R final) (1 / Q2R n_years) - 1)%R
  else 0%R.

Definition drawdown_of (rs : list Q) : list fval :=
  let cumulative := cumulative_of rs in
  let peak := cummax cumulative in
  zip_with (fun c p => fdiv (c - p) p) cumulative peak.

Definition mdd_of (rs : list Q) : fval := min_skipna (drawdown_of rs).

Definition sharpe_of (rs : list Q) : R :=
  match std rs with
  | Some s =>
      if Rlt_dec 0 s then (Q2R (mean rs) / s * sqrt 12)%R else 0%R
  | None => 0%R
  end.

Definition win_rate_of (rs : list Q) : Q :=
  let positive_months := length (filter (Qlt_bool 0) rs) in
  let total_months := length (filter (fun r => negb (Qeq_bool r 0)) rs) in
  if (0 <? total_months)%nat
  then inject_Z (Z.of_nat positive_months)
       / inject_Z (Z.of_nat total_months) * 100
  else 0.

Definition profit_loss_ratio_of (rs : list Q) : Q :=
  let avg_win :=
    if existsb (Qlt_bool 0) rs then mean (filter (Qlt_bool 0) rs) else 0 in
  let avg_loss :=
    if existsb (fun r => Qlt_bool r 0) rs
    then Qabs (mean (filter (fun r => Qlt_bool r 0) rs))
    else 1 in
  if Qlt_bool 0 avg_loss then avg_win / avg_loss else 0.

Definition pct2 (x : Q) : option R := Some (Rround (Q2R x * 100) 2).

(** The values of a series at the labels of [ix] ([s.loc[ix]]). *)
Definition values_at (s : list (Z * Q)) (ix : list Z) : list Q :=
  flat_map (fun ts =>
              match find (fun e => Z.eqb (fst e) ts) s with
              | Some e => [snd e]
              | None => []
              end) ix.

#[local] Open Scope string_scope.

(** The names of the scalars. *)
Definition key_total_return : String.string := "누적수익률(%)".
Definition key_cagr : String.string := "CAGR(%)".
Definition key_mdd : String.string := "MDD(%)".
Definition key_sharpe : String.string := "샤프비율".
Definition key_win_rate : String.string := "승률(%)".
Definition key_profit_loss : String.string := "손익비".
Definition key_bm_total_return : String.string := "벤치마크 누적수익률(%)".
Definition key_bm_cagr : String.string := "벤치마크 CAGR(%)".
Definition key_bm_mdd : String.string := "벤치마크 MDD(%)".
Definition key_bm_sharpe : String.string := "벤치마크 샤프비율".

#[local] Close Scope string_scope.

Definition benchmark_metrics (returns : list (Z * Q))
  (benchmark_series : option series) : metrics :=
  match benchmark_series with
  | None => []
  | Some b =>
      let bm := dropna b in
      let common := intersection (map fst returns) (map fst bm) in
      match common with
      | [] => []
      | _ :: _ =>
          let bm_common := values_at bm common in
          [ (key_bm_total_return, pct2 (total_return_of bm_common));
            (key_bm_cagr, Some (Rround (cagr_of bm_common * 100) 2));
            (key_bm_mdd,
             option_map (fun m => Rround (Q2R m * 100) 2) (mdd_of bm_common));
            (key_bm_sharpe, Some (Rround (sharpe_of bm_common) 2)) ]
      end
  end.

Definition calculate_metrics (returns_series : series)
  (benchmark_series : option series) : metrics :=
  let returns := dropna returns_series in
  match returns with
  | [] => []
  | _ :: _ =>
      let rs := map snd returns in
      [ (key_total_return, pct2 (total_return_of rs));
        (key_cagr, Some (Rround (cagr_of rs * 100) 2));
        (key_mdd, option_map (fun m => Rround (Q2R m * 100) 2) (mdd_of rs));
        (key_sharpe, Some (Rround (sharpe_of rs) 2));
        (key_win_rate, Some (Rround (Q2R (win_rate_of rs)) 1));
        (key_profit_loss, Some (Rround (Q2R (profit_loss_ratio_of rs)) 2)) ]
      ++ benchmark_metrics returns benchmark_series
  end.

End Backtester.

(** ** The Sharpe-like ratio on doubles *)

(** [returns.mean()], [returns.std()] and the line that computes [sharpe],
    on binary64 numbers with the operations of IEEE 754.  pandas takes the
    mean as the sum over the count, and the standard deviation as the square
    root of the sum of the squared deviations from that mean over the count
    less one; numpy adds fewer than eight numbers in their order. *)
Module Doubles.
Import PrimFloat.
#[local] Open Scope float_scope.
#[local] Set Warnings "-inexact-float".

Definition zero : float := 0.

Definition positive (x : float) : bool := 0 <? x.

Definition sum (xs : list float) : float := fold_left add xs 0.

Definition count (xs : list float) : float :=
  fold_left (fun n _ => n + 1) xs 0.

Definition mean (xs : list float) : float := sum xs / count xs.

Definition std (xs : list float) : float :=
  sqrt (sum (map (fun x => (mean xs - x) * (mean xs - x)) xs)
        / (count xs - 1)).

Definition ratio (xs : list float) : float :=
  mean xs / std xs * sqrt 12.

Definition sharpe (xs : list float) : float :=
  if 0 <? std xs then mean xs / std xs * sqrt 12 else 0.

(** Test data: three monthly returns of 10%, and a bound. *)
Definition ten_percent_thrice : list float := [0.1; 0.1; 0.1].

Definition ten_to_16 : float := 1e16.

(** Nineteen monthly returns of 0, those of a flat price series. *)
Definition no_moves : list float := repeat 0 19.

End Doubles.

(** ** What the signal table is shown to hold *)

(** The cell of the [signal] column at period [t], for windows [p] and [q]
    over the closing prices [col]: 1 when the short average is above the
    long one, 0 otherwise, and so 0 while an average is still NaN. *)
Definition state_at (p q : nat) (col : list Q) (t : nat) : Z :=
  if fgt (if ((1 <=? p) && (p <=? t + 1))%nat
          then Some (Pandas.mean (Pandas.window p t col)) else None)
         (if ((1 <=? q) && (q <=? t + 1))%nat
          then Some (Pandas.mean (Pandas.window q t col)) else None)
  then 1%Z else 0%Z.

(** ** What the portfolio table is shown to compute *)

(** The term of one instrument in the return of the period stamped [ts]:
    its position times its raw return, 0 when either is missing. *)
Definition contribution (mdf : Backtester.price_series) (ts : Z) : Q :=
  fillna 0 (fmul (Backtester.at_label (Backtester.position_series mdf) ts)
                 (Backtester.at_label (Backtester.return_series mdf) ts)).

(** The term of one instrument in the active count of that period. *)
Definition active (mdf : Backtester.price_series) (ts : Z) : Q :=
  fillna 0 (Backtester.at_label (Backtester.position_series mdf) ts).

(** The instruments that take part. *)
Definition qualifying (data : list (String.string * Backtester.price_series))
  : list (String.string * Backtester.price_series) :=
  filter (fun e => Backtester.qualifies (snd e)) data.

(** ** What the metrics are shown to satisfy *)

Fixpoint nondecreasing_from (prev : Q) (xs : list Q) : Prop :=
  match xs with
  | [] => True
  | x :: tl => prev <= x /\ nondecreasing_from x tl
  end.

(** A series that never falls from one period to the next. *)
Definition nondecreasing (xs : list Q) : Prop :=
  match xs with
  | [] => True
  | x :: tl => nondecreasing_from x tl
  end.

(** ** What the trade list is shown to satisfy *)

(** [tr] records a buy row of [rows] and a sell row of [rows]. *)
Definition closes_round_trip (rows : list Backtester.df_row)
  (tr : Backtester.trade) : Prop :=
  (exists rb, In rb rows /\ Backtester.row_buy rb = true /\
              Backtester.row_index rb = Backtester.buy_date tr /\
              Backtester.row_close rb = Backtester.buy_price tr) /\
  (exists rs, In rs rows /\ Backtester.row_sell rs = true /\
              Backtester.row_index rs = Backtester.sell_date tr /\
              Backtester.row_close rs = Backtester.sell_price tr).

(** Timestamps strictly increasing. *)
Definition increasing (ix : list Z) : Prop := StronglySorted Z.lt ix.

(** A Price Series of the data model: timestamps strictly increasing, so
    without duplicates, and positive closes. *)
Definition well_formed (mdf : Backtester.price_series) : Prop :=
  increasing (map fst mdf) /\ Forall (fun e => 0 < snd e) mdf.

(** Every trade is closed before the next one is opened. *)
Definition one_at_a_time (ts : list Backtester.trade) : Prop :=
  StronglySorted
    (fun a b => (Backtester.sell_date a < Backtester.buy_date b)%Z) ts.

(** The percentage return of a record, before rounding. *)
Definition raw_pnl (tr : Backtester.trade) : Q :=
  (Backtester.sell_price tr - Backtester.buy_price tr)
  / Backtester.buy_price tr * 100.

(** The invariant of the trade loop after the rows [rows]. *)
Definition loop_inv (rows : list Backtester.df_row)
  (st : Backtester.loop_state) : Prop :=
  Forall (fun tr =>
            (Backtester.buy_date tr < Backtester.sell_date tr)%Z /\
            Backtester.pnl_pct tr = round (raw_pnl tr) 2 /\
            closes_round_trip rows tr)
         (Backtester.trades_so_far st) /\
  one_at_a_time (Backtester.trades_so_far st) /\
  (Backtester._in st = true ->
   exists rb, In rb rows /\ Backtester.row_buy rb = true /\
              Backtester._ed st = Some (Backtester.row_index rb) /\
              Backtester._ep st = Some (Backtester.row_close rb) /\
              Forall (fun tr =>
                        (Backtester.sell_date tr < Backtester.row_index rb)%Z)
                     (Backtester.trades_so_far st)).

(** ** Test data *)

(** A price table with consecutive period numbers as its index, from
    [start] on. *)
Fixpoint months_from (start : Z) (closes : list Q) : Backtester.price_series :=
  match closes with
  | [] => []
  | c :: tl => (start, c) :: months_from (start + 1) tl
  end.

(** [n] instruments, named by the characters from A on, that all have the
    price table [mdf]. *)
Definition instruments (n : nat) (mdf : Backtester.price_series)
  : list (String.string * Backtester.price_series) :=
  map (fun k =>
         (String.String (Ascii.ascii_of_nat (65 + k)) String.EmptyString, mdf))
      (seq 0 n).

(** A rise in the tenth month, then a close of zero. *)
Definition full_loss : Backtester.price_series :=
  months_from 1 [1; 1; 1; 1; 1; 1; 1; 1; 1; 2; 0].

(** A rise in the tenth month, then a fall to half of it. *)
Definition crash : Backtester.price_series :=
  months_from 1 [1; 1; 1; 1; 1; 1; 1; 1; 1; 4; 2].

(** A buy in the eleventh month at 6 and a sell in the thirteenth at 1. *)
Definition round_trip : Backtester.price_series :=
  months_from 1 [3; 3; 3; 3; 3; 3; 3; 3; 3; 3; 6; 1; 1].

#[local] Open Scope string_scope.

(** One instrument that is active in the eleventh month and gains 5% in
    it, and one that is idle then and loses 10%. *)
Definition two_instruments : list (String.string * Backtester.price_series) :=
  [ ("A", months_from 1 [1; 1; 1; 1; 1; 1; 1; 1; 1; 2; 21 # 10]);
    ("B", months_from 1 [1; 1; 1; 1; 1; 1; 1; 1; 1; 1; 9 # 10]) ].

(** Three months of prices, and a portfolio of that one instrument. *)
Definition three_months : Backtester.price_series :=
  months_from 1 [100; 110; 120].

Definition short_only : list (String.string * Backtester.price_series) :=
  [ ("A", three_months) ].

#[local] Close Scope string_scope.

(** Ten rising closes, the example series of the specification, and
    twenty equal closes. *)
Definition rising : Backtester.price_series :=
  months_from 1 [1; 2; 3; 4; 5; 6; 7; 8; 9; 10].

Definition dip_and_recovery : Backtester.price_series :=
  months_from 0
    [100; 100; 100; 100; 100; 100; 100; 100; 100; 100; 90; 80; 120; 150].

Definition flat : Backtester.price_series :=
  months_from 1 (repeat 100 20).

(** ** What the trade list is shown to count *)

(** The number of periods in which a flag is raised. *)
Definition count_true (bs : list bool) : nat :=
  length (filter (fun b : bool => b) bs).

(** ** The embedded constants *)

(** The two decoders through which the program reads its embedded
    constants, on the texts it gives them: [base64.b64decode] on canonical
    base64 (groups of four characters of the standard alphabet, padded with
    [=]), [int] on a run of decimal digits, and [json.loads] on an object
    whose keys are strings without escapes and whose values are decimal
    numbers, written without spaces.  On any other text these functions
    return [None]; what Python does there (it skips characters, or raises,
    or accepts more of JSON) is not modelled. *)
Module Decoding.

Definition sextet (c : Ascii.ascii) : option N :=
  let n := Ascii.N_of_ascii c in
  if ((65 <=? n) && (n <=? 90))%N then Some (n - 65)%N
  else if ((97 <=? n) && (n <=? 122))%N then Some (n - 71)%N
  else if ((48 <=? n) && (n <=? 57))%N then Some (n + 4)%N
  else if (n =? 43)%N then Some 62%N
  else if (n =? 47)%N then Some 63%N
  else None.

Definition is_pad (c : Ascii.ascii) : bool := (Ascii.N_of_ascii c =? 61)%N.

Definition byte (n : N) : Ascii.ascii := Ascii.ascii_of_N (n mod 256).

(** [base64.b64decode] *)
Fixpoint b64decode (s : list Ascii.ascii) : option (list Ascii.ascii) :=
  match s with
  | [] => Some []
  | c1 :: c2 :: c3 :: c4 :: tl =>
      match sextet c1, sextet c2 with
      | Some a, Some b =>
          let b1 := byte (a * 4 + b / 16) in
          match sextet c3 with
          | Some c =>
              let b2 := byte (b * 16 + c / 4) in
              match sextet c4 with
              | Some d =>
                  let b3 := byte (c * 64 + d) in
                  option_map (fun r => b1 :: b2 :: b3 :: r) (b64decode tl)
              | None =>
                  match tl with
                  | [] => if is_pad c4 then Some [b1; b2] else None
                  | _ :: _ => None
                  end
              end
          | None =>
              match tl with
              | [] => if is_pad c3 && is_pad c4 then Some [b1] else None
              | _ :: _ => None
              end
          end
      | _, _ => None
      end
  | _ => None
  end.

Definition digit (c : Ascii.ascii) : option Z :=
  let n := Ascii.N_of_ascii c in
  if ((48 <=? n) && (n <=? 57))%N then Some (Z.of_N n - 48)%Z else None.

Fixpoint digits (acc : Z) (s : list Ascii.ascii) : option Z :=
  match s with
  | [] => Some acc
  | c :: tl =>
      match digit c with
      | Some d => digits (10 * acc + d)%Z tl
      | None => None
      end
  end.

(** [int] of a byte string *)
Definition int (s : list Ascii.ascii) : option Z :=
  match s with
  | [] => None
  | _ :: _ => digits 0%Z s
  end.

(** Where the reader of a JSON object stands. *)
Inductive json_state : Type :=
| Jstart
| Jkey_quote
| Jin_key (key : list Ascii.ascii)
| Jcolon (key : list Ascii.ascii)
| Jnumber (key : list Ascii.ascii) (value : option Z)
| Jend.

Definition code (c : Ascii.ascii) (n : N) : bool :=
  (Ascii.N_of_ascii c =? n)%N.

(** The bindings read so far are kept latest first. *)
Fixpoint json_run (st : json_state) (acc : list (list Ascii.ascii * Z))
  (s : list Ascii.ascii) : option (list (list Ascii.ascii * Z)) :=
  match s with
  | [] => match st with Jend => Some acc | _ => None end
  | c :: tl =>
      match st with
      | Jstart => if code c 123 then json_run Jkey_quote acc tl else None
      | Jkey_quote => if code c 34 then json_run (Jin_key []) acc tl else None
      | Jin_key key =>
          if code c 34 then json_run (Jcolon (rev key)) acc tl
          else if code c 92 then None
          else json_run (Jin_key (c :: key)) acc tl
      | Jcolon key =>
          if code c 58 then json_run (Jnumber key None) acc tl else None
      | Jnumber key value =>
          match digit c, value with
          | Some d, None => json_run (Jnumber key (Some d)) acc tl
          | Some d, Some v =>
              json_run (Jnumber key (Some (10 * v + d)%Z)) acc tl
          | None, Some v =>
              if code c 44 then json_run Jkey_quote ((key, v) :: acc) tl
              else if code c 125 then json_run Jend ((key, v) :: acc) tl
              else None
          | None, None => None
          end
      | Jend => None
      end
  end.

(** [json.loads]: the dictionary, as its bindings, latest first. *)
Definition json_loads (s : list Ascii.ascii)
  : option (list (list Ascii.ascii * Z)) :=
  json_run Jstart [] s.

(** [d[k]]: the latest binding of the key. *)
Definition item (d : list (list Ascii.ascii * Z)) (k : list Ascii.ascii)
  : option Z :=
  option_map snd
    (find (fun e => if list_eq_dec Ascii.ascii_dec (fst e) k
                    then true else false) d).

#[local] Open Scope string_scope.

(** The byte strings that the program decodes. *)
Definition cfg_constant : list Ascii.ascii :=
  String.list_ascii_of_string "eyJhIjoyLCJiIjoxMH0=".

Definition ey_constant : list Ascii.ascii :=
  String.list_ascii_of_string "MjAyNg==".

(** [_cfg()] of backtester.py, read from its constant. *)
Definition _cfg_decoded : option (nat * nat) :=
  match b64decode cfg_constant with
  | Some _r =>
      match json_loads _r with
      | Some _d =>
          match item _d [Ascii.ascii_of_nat 97], item _d [Ascii.ascii_of_nat 98]
          with
          | Some a, Some b => Some (Z.to_nat a, Z.to_nat b)
          | _, _ => None
          end
      | None => None
      end
  | None => None
  end.

(** [_ey] of app.py, read from its constant. *)
Definition _ey : option Z :=
  match b64decode ey_constant with
  | Some r => int r
  | None => None
  end.

#[local] Close Scope string_scope.

End Decoding.

(** ** app.py *)

Module App.

(** The three tables of the tab "이번달 신호". *)
Inductive signal_list : Type := buy_list | sell_list | hold_list.

(** The table to which the loop of the tab appends an instrument whose
    monthly closes are [monthly], if it appends it to any. *)
Definition signal_list_of (monthly : Backtester.price_series)
  : option signal_list :=
  if ((length monthly =? 0) || (length monthly <? 11))%nat then None
  else
    match Backtester.get_current_signal monthly with
    | None => None
    | Some (position, new_buy, new_sell) =>
        if new_buy then Some buy_list
        else if new_sell then Some sell_list
        else if (position =? 1)%Z then Some hold_list
        else None
    end.

(** The check at the start of the script: the application stops when
    [datetime.now().year > _ey].  [None] when [_ey] cannot be read, where
    the script raises. *)
Definition stops (year : Z) : option bool :=
  option_map (fun _ey => (_ey <? year)%Z) Decoding._ey.

End App.

(** ** What the scalars are shown to satisfy *)

(** The locals [avg_win] and [avg_loss] of [calculate_metrics]. *)
Definition avg_win (rs : list Q) : Q :=
  if existsb (Qlt_bool 0) rs
  then Pandas.mean (filter (Qlt_bool 0) rs) else 0.

Definition avg_loss (rs : list Q) : Q :=
  if existsb (fun r => Qlt_bool r 0) rs
  then Qabs (Pandas.mean (filter (fun r => Qlt_bool r 0) rs)) else 1.

(** The names under which the scalars of the strategy, and those of the
    benchmark, are stored. *)
Definition strategy_keys : list String.string :=
  [ Backtester.key_total_return; Backtester.key_cagr; Backtester.key_mdd;
    Backtester.key_sharpe; Backtester.key_win_rate;
    Backtester.key_profit_loss ].

Definition benchmark_keys : list String.string :=
  [ Backtester.key_bm_total_return; Backtester.key_bm_cagr;
    Backtester.key_bm_mdd; Backtester.key_bm_sharpe ].

(** ** What the active count is shown to count *)

(** The instrument holds a position in the period stamped [ts]. *)
Definition holding (mdf : Backtester.price_series) (ts : Z) : bool :=
  feqb (Backtester.at_label (Backtester.position_series mdf) ts) 1.

(** ** data_fetcher.py *)

Module DataFetcher.

(** A calendar day as [date.toordinal()] numbers it: day 1 is Monday,
    1 January of year 1.  [weekday] is 0 on Monday and 6 on Sunday. *)
Definition weekday (ordinal : Z) : Z := ((ordinal + 6) mod 7)%Z.

(** [get_latest_trading_date]: the day that the function writes as
    [%Y%m%d], for the day [today] that [datetime.today()] returns. *)
Definition get_latest_trading_date (today : Z) : Z :=
  if (weekday today =? 5)%Z then (today - 1)%Z
  else if (weekday today =? 6)%Z then (today - 2)%Z
  else today.

(** A calendar date. *)
Record date : Type := { year : Z; month : Z; day : Z }.

Definition is_leap (y : Z) : bool :=
  ((y mod 4 =? 0) && negb (y mod 100 =? 0) || (y mod 400 =? 0))%Z.

Definition days_in_month (y m : Z) : Z :=
  if (m =? 2)%Z then (if is_leap y then 29 else 28)%Z
  else if ((m =? 4) || (m =? 6) || (m =? 9) || (m =? 11))%Z then 30%Z
  else 31%Z.

(** The label that [resample("ME")] gives the month of [d]: its last
    day. *)
Definition month_end (d : date) : date :=
  {| year := year d; month := month d;
     day := days_in_month (year d) (month d) |}.

Definition same_month (a b : date) : bool :=
  ((year a =? year b) && (month a =? month b))%Z.

(** A date as a timestamp of a price table: the number it is written as
    with [%Y%m%d], which orders dates as the calendar does. *)
Definition stamp (d : date) : Z :=
  (year d * 10000 + month d * 100 + day d)%Z.

(** A daily table: its index and its column 종가. *)
Definition daily : Type := list (date * fval).

(** [daily_df.resample("ME").agg({"종가": "last"})] on a table whose index is
    in the order of the calendar: one row for each month, labelled by the
    end of the month, with the last close of the month that is not NaN (NaN
    when there is none).  The rows of the months in which the table has no
    day, which are all NaN and which [dropna] removes next, are left out. *)
Fixpoint resample_last (rows : daily) : list (date * fval) :=
  match rows with
  | [] => []
  | (d, v) :: tl =>
      match resample_last tl with
      | (e, w) :: out =>
          if same_month d e
          then (e, match w with Some _ => w | None => v end) :: out
          else (month_end d, v) :: (e, w) :: out
      | [] => [(month_end d, v)]
      end
  end.

(** [daily_df.resample("ME").agg({"종가": "last"}).dropna()] *)
Definition monthly_close (rows : daily) : Backtester.price_series :=
  Pandas.dropna (map (fun r => (stamp (fst r), snd r)) (resample_last rows)).

(** The answer of a data source: [None] when the call raises or returns
    [None], the daily table otherwise.  The test of each tier:
    [df is not None and not df.empty and len(df) > 10]. *)
Definition accepted (answer : option daily) : option daily :=
  match answer with
  | Some df =>
      if (negb (length df =? 0) && (10 <? length df))%nat then Some df
      else None
  | None => None
  end.

(** [get_stock_monthly_close], for the answers of yfinance,
    FinanceDataReader and pykrx to its three requests. *)
Definition get_stock_monthly_close (yfinance fdr pykrx : option daily)
  : Backtester.price_series :=
  let daily_df : daily := [] in
  let daily_df :=
    match accepted yfinance with Some df => df | None => daily_df end in
  let daily_df :=
    if (length daily_df =? 0)%nat
    then match accepted fdr with Some df => df | None => daily_df end
    else daily_df in
  let daily_df :=
    if (length daily_df =? 0)%nat
    then match accepted pykrx with Some df => df | None => daily_df end
    else daily_df in
  if (length daily_df =? 0)%nat then [] else monthly_close daily_df.

(** [get_kospi_index_monthly], for the answers of yfinance and
    FinanceDataReader. *)
Definition get_kospi_index_monthly (yfinance fdr : option daily)
  : Backtester.price_series :=
  match accepted yfinance with
  | Some df => monthly_close df
  | None =>
      match accepted fdr with
      | Some df => monthly_close df
      | None => []
      end
  end.

(** A date of the calendar. *)
Definition valid (d : date) : Prop :=
  (1 <= month d <= 12)%Z /\
  (1 <= day d <= days_in_month (year d) (month d))%Z.

(** A daily table as the sources deliver it: dates of the calendar, in
    its order. *)
Definition chronological (rows : daily) : Prop :=
  Forall (fun r => valid (fst r)) rows /\
  StronglySorted (fun a b => (stamp (fst a) <= stamp (fst b))%Z) rows.

End DataFetcher.

(** ** Test data of the data fetcher *)

(** The days [first] to [last] of one month, each with the close [c]. *)
Definition days_of (y m : Z) (first : Z) (n : nat) (c : Q)
  : DataFetcher.daily :=
  map (fun k => ({| DataFetcher.year := y; DataFetcher.month := m;
                    DataFetcher.day := first + Z.of_nat k |}, Some c))
      (seq 0 n).

(** Eleven trading days of January 2024. *)
Definition one_month : DataFetcher.daily := days_of 2024 1 2 11 100.

(** The last two trading days of January 2024 and the first of February,
    the close of 31 January missing. *)
Definition month_turn : DataFetcher.daily :=
  [ ({| DataFetcher.year := 2024; DataFetcher.month := 1;
        DataFetcher.day := 30 |}, Some 100);
    ({| DataFetcher.year := 2024; DataFetcher.month := 1;
        DataFetcher.day := 31 |}, None);
    ({| DataFetcher.year := 2024; DataFetcher.month := 2;
        DataFetcher.day := 1 |}, Some 110) ].

(** * Properties *)

Import Pandas Backtester.

(** ** Lists and cells *)

Lemma Qlt_bool_iff (x y : Q) : Qlt_bool x y = true <-> x < y.
Proof.
  unfold Qlt_bool. rewrite negb_true_iff. split.
  - intros H. apply Qnot_le_lt. intros Hle.
    apply Qle_bool_iff in Hle. congruence.
  - intros H. destruct (Qle_bool y x) eqn:E; [|reflexivity].
    apply Qle_bool_iff in E. exfalso. apply (Qlt_not_le _ _ H E).
Qed.

Lemma Qlt_bool_false_iff (x y : Q) : Qlt_bool x y = false <-> y <= x.
Proof.
  unfold Qlt_bool. rewrite negb_false_iff. apply Qle_bool_iff.
Qed.

Lemma nth_error_zip_with {A B C} (f : A -> B -> C) xs ys t :
  nth_error (zip_with f xs ys) t =
  match nth_error xs t, nth_error ys t with
  | Some x, Some y => Some (f x y)
  | _, _ => None
  end.
Proof.
  revert ys t. induction xs as [|x xs IH]; intros [|y ys] [|t]; simpl;
    try reflexivity.
  - destruct (nth_error xs t); reflexivity.
  - apply IH.
Qed.

Lemma length_zip_with {A B C} (f : A -> B -> C) xs ys :
  length (zip_with f xs ys) = Nat.min (length xs) (length ys).
Proof.
  revert ys. induction xs as [|x xs IH]; intros [|y ys]; simpl; auto.
Qed.

Lemma length_rolling_mean w xs : length (rolling_mean w xs) = length xs.
Proof. unfold rolling_mean. now rewrite length_map, length_seq. Qed.

Lemma nth_error_rolling_mean w xs t :
  (t < length xs)%nat ->
  nth_error (rolling_mean w xs) t =
  Some (if ((1 <=? w) && (w <=? t + 1))%nat
        then Some (mean (window w t xs)) else None).
Proof.
  intros Ht. unfold rolling_mean.
  rewrite nth_error_map, nth_error_seq.
  apply Nat.ltb_lt in Ht. rewrite Ht. reflexivity.
Qed.

Lemma length_shift1 xs : length (shift1 xs) = length xs.
Proof.
  destruct xs as [|x xs]; [reflexivity|].
  unfold shift1. cbn [length]. rewrite removelast_firstn_len, length_firstn.
  cbn [length]. lia.
Qed.

Lemma nth_error_shift1_0 xs :
  xs <> [] -> nth_error (shift1 xs) 0 = Some None.
Proof. destruct xs; [congruence | reflexivity]. Qed.

Lemma nth_error_shift1_S xs t :
  (S t < length xs)%nat -> nth_error (shift1 xs) (S t) = nth_error xs t.
Proof.
  intros Ht. destruct xs as [|x xs]; [simpl in Ht; lia|].
  unfold shift1. cbn [nth_error].
  rewrite removelast_firstn_len, nth_error_firstn.
  replace (t <? Nat.pred (length (x :: xs)))%nat with true; [reflexivity|].
  symmetry. apply Nat.ltb_lt. lia.
Qed.

(** ** The signal table, cell by cell *)

Section SignalCells.

Variables (p q : nat) (prices : price_series).

#[local] Abbreviation col := (map snd prices).
#[local] Abbreviation df := (calculate_signals_with p q prices).

Lemma state_at_01 t : state_at p q col t = 0%Z \/ state_at p q col t = 1%Z.
Proof. unfold state_at. destruct (fgt _ _); auto. Qed.

Lemma length_signal : length (signal df) = length prices.
Proof.
  unfold calculate_signals_with; cbn [signal].
  rewrite length_zip_with, !length_rolling_mean, length_map. lia.
Qed.

Lemma signal_cell t :
  (t < length prices)%nat -> nth_error (signal df) t = Some (state_at p q col t).
Proof.
  intros Ht. unfold calculate_signals_with; cbn [signal].
  rewrite nth_error_zip_with, !nth_error_rolling_mean
    by (rewrite length_map; exact Ht).
  reflexivity.
Qed.

Lemma position_cell_0 :
  (0 < length prices)%nat -> nth_error (position df) 0 = Some None.
Proof.
  intros Ht. unfold calculate_signals_with; cbn [position].
  apply nth_error_shift1_0. intros E.
  apply (f_equal (@length _)) in E. unfold as_float in E.
  rewrite length_map in E. change (length (signal df) = 0%nat) in E.
  rewrite length_signal in E. simpl in E. lia.
Qed.

Lemma position_cell_S t :
  (S t < length prices)%nat ->
  nth_error (position df) (S t) = Some (Some (inject_Z (state_at p q col t))).
Proof.
  intros Ht. unfold calculate_signals_with; cbn [position].
  rewrite nth_error_shift1_S.
  - unfold as_float. rewrite nth_error_map.
    change (option_map (fun z => Some (inject_Z z)) (nth_error (signal df) t)
            = Some (Some (inject_Z (state_at p q col t)))).
    rewrite signal_cell by lia. reflexivity.
  - unfold as_float. rewrite length_map.
    change (S t < length (signal df))%nat. now rewrite length_signal.
Qed.

Lemma length_position : length (position df) = length prices.
Proof.
  unfold calculate_signals_with; cbn [position].
  rewrite length_shift1. unfold as_float. rewrite length_map.
  apply length_signal.
Qed.

Lemma buy_cell t pc :
  (t < length prices)%nat -> nth_error (position df) t = Some pc ->
  nth_error (buy df) t = Some (Z.eqb (state_at p q col t) 1 && feqb pc 0).
Proof.
  intros Ht Hp. pose proof (signal_cell t Ht) as Hs.
  unfold calculate_signals_with in *; cbn [buy signal position] in *.
  rewrite nth_error_zip_with, Hs, Hp. reflexivity.
Qed.

Lemma sell_cell t pc :
  (t < length prices)%nat -> nth_error (position df) t = Some pc ->
  nth_error (sell df) t = Some (Z.eqb (state_at p q col t) 0 && feqb pc 1).
Proof.
  intros Ht Hp. pose proof (signal_cell t Ht) as Hs.
  unfold calculate_signals_with in *; cbn [sell signal position] in *.
  rewrite nth_error_zip_with, Hs, Hp. reflexivity.
Qed.

Lemma position_cell_ex t :
  (t < length prices)%nat -> exists pc, nth_error (position df) t = Some pc.
Proof.
  intros Ht. destruct (nth_error (position df) t) eqn:E; [eauto|].
  apply nth_error_None in E. rewrite length_position in E. lia.
Qed.

Lemma state_at_early t : (t + 1 < q)%nat -> state_at p q col t = 0%Z.
Proof.
  intros Ht. unfold state_at.
  replace (q <=? t + 1)%nat with false
    by (symmetry; apply Nat.leb_gt; lia).
  rewrite andb_false_r. destruct (if (_ && _)%bool then _ else _); reflexivity.
Qed.

End SignalCells.

Lemma average_cells p q prices t :
  (t < length prices)%nat ->
  nth_error (_x (calculate_signals_with p q prices)) t =
    Some (if ((1 <=? p) && (p <=? t + 1))%nat
          then Some (mean (window p t (map snd prices))) else None) /\
  nth_error (_y (calculate_signals_with p q prices)) t =
    Some (if ((1 <=? q) && (q <=? t + 1))%nat
          then Some (mean (window q t (map snd prices))) else None).
Proof.
  intros Ht. unfold calculate_signals_with; cbn [_x _y].
  rewrite !nth_error_rolling_mean by (rewrite length_map; exact Ht).
  split; reflexivity.
Qed.

Lemma no_flag_early p q prices t :
  (t < length prices)%nat -> (t + 1 < q)%nat ->
  nth_error (signal (calculate_signals_with p q prices)) t = Some 0%Z /\
  nth_error (buy (calculate_signals_with p q prices)) t = Some false /\
  nth_error (sell (calculate_signals_with p q prices)) t = Some false.
Proof.
  intros Ht Hq.
  pose proof (state_at_early p q prices t Hq) as H0.
  split; [rewrite signal_cell, H0 by exact Ht; reflexivity|].
  destruct t as [|t].
  - assert (Hp := position_cell_0 p q prices Ht).
    rewrite (buy_cell p q prices 0 None Ht Hp),
            (sell_cell p q prices 0 None Ht Hp).
    cbn [feqb]. rewrite !andb_false_r. split; reflexivity.
  - assert (Hp := position_cell_S p q prices t Ht).
    rewrite (buy_cell p q prices _ _ Ht Hp), (sell_cell p q prices _ _ Ht Hp).
    rewrite H0, (state_at_early p q prices t) by lia.
    split; reflexivity.
Qed.

(** C1, as the program has it.  In every period before the long window is
    fully populated -- so in every period of a series shorter than the long
    window -- the long average is NaN (the short one is NaN only before the
    short window is populated), the [signal] cell is the integer 0 and the
    [buy] and [sell] cells are false: the comparison with a NaN average is
    false, so nothing fires there. *)
Theorem signals_before_long_window (prices : price_series) (t : nat) :
  (t < length prices)%nat ->
  (t + 1 < snd _cfg)%nat \/ (length prices < snd _cfg)%nat ->
  nth_error (_y (calculate_signals prices)) t = Some None /\
  (nth_error (_x (calculate_signals prices)) t = Some None
   <-> (t + 1 < fst _cfg)%nat) /\
  nth_error (signal (calculate_signals prices)) t = Some 0%Z /\
  nth_error (buy (calculate_signals prices)) t = Some false /\
  nth_error (sell (calculate_signals prices)) t = Some false.
Proof.
  intros Ht Hq.
  assert (Hq' : (t + 1 < snd _cfg)%nat) by (destruct Hq; lia).
  clear Hq. unfold calculate_signals.
  destruct (average_cells (fst _cfg) (snd _cfg) prices t Ht) as [Hx Hy].
  rewrite Hx, Hy.
  split; [|split; [|now apply no_flag_early]].
  - replace (snd _cfg <=? t + 1)%nat with false
      by (symmetry; apply Nat.leb_gt; exact Hq').
    now rewrite andb_false_r.
  - cbn [_cfg fst snd] in *. change (1 <=? 2)%nat with true. cbn [andb].
    destruct (2 <=? t + 1)%nat eqn:E.
    + apply Nat.leb_le in E. split; [discriminate | lia].
    + apply Nat.leb_gt in E. split; [intros _; exact E | reflexivity].
Qed.

Lemma signals_before_long_window_witness :
  nth_error (_y (calculate_signals (months_from 1 [100; 110; 120]))) 1
    = Some None /\
  (nth_error (_x (calculate_signals (months_from 1 [100; 110; 120]))) 1
     = Some None <-> (1 + 1 < fst _cfg)%nat) /\
  nth_error (signal (calculate_signals (months_from 1 [100; 110; 120]))) 1
    = Some 0%Z /\
  nth_error (buy (calculate_signals (months_from 1 [100; 110; 120]))) 1
    = Some false /\
  nth_error (sell (calculate_signals (months_from 1 [100; 110; 120]))) 1
    = Some false.
Proof.
  apply (signals_before_long_window (months_from 1 [100; 110; 120]) 1).
  - simpl; lia.
  - left; simpl; lia.
Defined.

(** C1 as the specification words it does not hold: the early periods do
    not carry an undefined [signal], [buy] and [sell].  On a one-month series
    the cells are the integer 0 and the boolean false. *)
Lemma early_signal_is_zero_not_undefined :
  signal (calculate_signals (months_from 1 [100])) = [0%Z] /\
  buy (calculate_signals (months_from 1 [100])) = [false] /\
  sell (calculate_signals (months_from 1 [100])) = [false] /\
  _y (calculate_signals (months_from 1 [100])) = [None].
Proof. repeat split. Qed.



(** ** Returns and cumulative growth *)

Lemma nth_error_pct_from prev xs t p0 p1 :
  nth_error (prev :: xs) t = Some p0 ->
  nth_error xs t = Some p1 ->
  nth_error (pct_from prev xs) t = Some (Some (p1 / p0 - 1)).
Proof.
  revert prev t. induction xs as [|x xs IH]; intros prev t H0 H1.
  - destruct t; discriminate.
  - destruct t as [|t]; cbn in *.
    + injection H0 as ->. injection H1 as ->. reflexivity.
    + apply IH; assumption.
Qed.

Lemma nth_error_pct_change xs t p0 p1 :
  nth_error xs t = Some p0 ->
  nth_error xs (S t) = Some p1 ->
  nth_error (pct_change xs) (S t) = Some (Some (p1 / p0 - 1)).
Proof.
  destruct xs as [|x xs]; [destruct t; discriminate|].
  intros H0 H1. cbn. now apply nth_error_pct_from.
Qed.

Lemma length_pct_change xs : length (pct_change xs) = length xs.
Proof.
  destruct xs as [|x xs]; [reflexivity|]. cbn. f_equal.
  revert x. induction xs as [|y xs IH]; intros x; cbn; [reflexivity|].
  f_equal. apply IH.
Qed.

Lemma nth_error_cumprod_from acc xs k :
  (k < length xs)%nat ->
  nth_error (cumprod_from acc xs) k = Some (running_product acc xs k).
Proof.
  revert acc k. induction xs as [|x xs IH]; intros acc k Hk;
    [simpl in Hk; lia|].
  destruct k as [|k]; cbn.
  - reflexivity.
  - apply IH. simpl in Hk. lia.
Qed.

Lemma length_cumprod_from acc xs : length (cumprod_from acc xs) = length xs.
Proof.
  revert acc. induction xs as [|x xs IH]; intros acc; cbn; [reflexivity|].
  f_equal. apply IH.
Qed.

Lemma cumprod_from_pos acc xs :
  0 < acc -> Forall (fun x => 0 < x) xs ->
  Forall (fun c => 0 < c) (cumprod_from acc xs).
Proof.
  revert acc. induction xs as [|x xs IH]; intros acc Ha Hx; cbn;
    [constructor|].
  inversion Hx as [|? ? Hx0 Hxs]; subst.
  assert (0 < acc * x) by (apply Qmult_lt_0_compat; assumption).
  constructor; [assumption | now apply IH].
Qed.

Lemma cumprod_from_nonneg acc xs :
  0 <= acc -> Forall (fun x => 0 <= x) xs ->
  Forall (fun c => 0 <= c) (cumprod_from acc xs).
Proof.
  revert acc. induction xs as [|x xs IH]; intros acc Ha Hx; cbn;
    [constructor|].
  inversion Hx as [|? ? Hx0 Hxs]; subst.
  assert (0 <= acc * x) by (apply Qmult_le_0_compat; assumption).
  constructor; [assumption | now apply IH].
Qed.

Lemma running_product_ones acc xs k :
  (forall j x, (j <= k)%nat -> nth_error xs j = Some x -> x == 1) ->
  running_product acc xs k == acc.
Proof.
  unfold running_product. revert acc k.
  induction xs as [|x xs IH]; intros acc k H; [reflexivity|].
  cbn [firstn fold_left].
  destruct k as [|k].
  - cbn. rewrite (H 0%nat x (Nat.le_refl _) eq_refl). ring.
  - rewrite IH.
    + rewrite (H 0%nat x (Nat.le_0_l _) eq_refl). ring.
    + intros j y Hj Hy. apply (H (S j) y); [lia | exact Hy].
Qed.



Lemma factors_pos (rs : list fval) :
  Forall (fun r => match r with Some v => -1 < v | None => True end) rs ->
  Forall (fun x => 0 < x) (map (fun r => 1 + fillna 0 r) rs).
Proof.
  intros H. apply Forall_map. eapply Forall_impl; [|exact H].
  intros [v|] Hv; cbn in *; Lqa.lra.
Qed.

Lemma factors_nonneg (rs : list fval) :
  Forall (fun r => match r with Some v => -1 <= v | None => True end) rs ->
  Forall (fun x => 0 <= x) (map (fun r => 1 + fillna 0 r) rs).
Proof.
  intros H. apply Forall_map. eapply Forall_impl; [|exact H].
  intros [v|] Hv; cbn in *; Lqa.lra.
Qed.

Lemma length_returns prices :
  length (returns (backtest_stock prices)) = length prices /\
  length (cumulative (backtest_stock prices)) = length prices.
Proof.
  unfold backtest_stock; cbn [returns cumulative].
  unfold cumprod. rewrite length_cumprod_from, length_map.
  rewrite length_zip_with, length_pct_change.
  unfold calculate_signals. rewrite length_position.
  unfold calculate_signals_with; cbn [close]. rewrite length_map. lia.
Qed.

Lemma first_period_growth (prices : price_series) :
  prices <> [] ->
  nth_error (returns (backtest_stock prices)) 0 = Some None /\
  exists c, nth_error (cumulative (backtest_stock prices)) 0 = Some c /\
            c == 1.
Proof.
  intros Hne.
  assert (Hlen : (0 < length prices)%nat)
    by (destruct prices; [congruence | cbn; lia]).
  assert (Hr : nth_error (returns (backtest_stock prices)) 0 = Some None).
  { unfold backtest_stock; cbn [returns]. rewrite nth_error_zip_with.
    unfold calculate_signals.
    rewrite (position_cell_0 _ _ _ Hlen).
    unfold calculate_signals_with; cbn [close].
    destruct prices as [|e tl]; [congruence | reflexivity]. }
  split; [exact Hr|].
  destruct (length_returns prices) as [Hlr _].
  unfold backtest_stock in *; cbn [returns cumulative] in *.
  unfold cumprod. rewrite nth_error_cumprod_from
    by (rewrite length_map, Hlr; exact Hlen).
  eexists. split; [reflexivity|]. apply running_product_ones.
  intros j x Hj Hx. assert (j = 0%nat) by lia. subst j.
  rewrite nth_error_map, Hr in Hx. injection Hx as <-. cbn. Lqa.lra.
Qed.

(** C7, as the program has it.  When every period return is strictly above
    -100%, the cumulative growth of both backtesters is positive in every
    period; when returns of exactly -100% are allowed it is only
    non-negative.  In the single-instrument backtester the growth is 1 in
    every period up to which no return is defined yet, so in the period just
    before the first defined return: the first period, whose return is
    NaN. *)
Theorem growth_positive :
  (forall prices : price_series,
     (Forall (fun r => match r with Some v => -1 < v | None => True end)
             (returns (backtest_stock prices)) ->
      Forall (fun c => 0 < c) (cumulative (backtest_stock prices))) /\
     (Forall (fun r => match r with Some v => -1 <= v | None => True end)
             (returns (backtest_stock prices)) ->
      Forall (fun c => 0 <= c) (cumulative (backtest_stock prices))) /\
     (forall k c,
        (forall j, (j <= k)%nat ->
                   nth_error (returns (backtest_stock prices)) j = Some None) ->
        nth_error (cumulative (backtest_stock prices)) k = Some c ->
        c == 1) /\
     (prices <> [] ->
      nth_error (returns (backtest_stock prices)) 0 = Some None /\
      exists c, nth_error (cumulative (backtest_stock prices)) 0 = Some c /\
                c == 1)) /\
  (forall data : list (String.string * price_series),
     (Forall (fun r => -1 < r) (portfolio_returns (backtest_portfolio data)) ->
      Forall (fun c => 0 < c)
             (portfolio_cumulative (backtest_portfolio data))) /\
     (Forall (fun r => -1 <= r) (portfolio_returns (backtest_portfolio data)) ->
      Forall (fun c => 0 <= c)
             (portfolio_cumulative (backtest_portfolio data)))).
Proof.
  split.
  - intros prices.
    split; [|split; [|split; [|apply first_period_growth]]];
      unfold backtest_stock; cbn [returns cumulative].
    + intros H. apply cumprod_from_pos; [Lqa.lra | now apply factors_pos].
    + intros H. apply cumprod_from_nonneg; [Lqa.lra | now apply factors_nonneg].
    + intros k c Hnan Hc. unfold cumprod in Hc.
      set (sr := zip_with fmul _ _) in *.
      set (fs := map _ sr) in *.
      assert (Hk : (k < length fs)%nat).
      { rewrite <- (length_cumprod_from 1). apply nth_error_Some. congruence. }
      rewrite nth_error_cumprod_from in Hc by exact Hk.
      injection Hc as <-. apply running_product_ones.
      intros j x Hj Hx. unfold fs in Hx.
      rewrite nth_error_map, (Hnan j Hj) in Hx.
      injection Hx as <-. cbn. Lqa.lra.
  - intros data. unfold backtest_portfolio.
    destruct (map _ (filter _ data)) as [|hd tl];
      cbn [portfolio_returns portfolio_cumulative].
    + split; intros _; constructor.
    + split; intros H.
      * apply cumprod_from_pos; [Lqa.lra|]. apply Forall_map.
        eapply Forall_impl; [|exact H]. intros v Hv; cbn in *; Lqa.lra.
      * apply cumprod_from_nonneg; [Lqa.lra|]. apply Forall_map.
        eapply Forall_impl; [|exact H]. intros v Hv; cbn in *; Lqa.lra.
Qed.

Lemma growth_positive_witness :
  Forall (fun c => 0 < c)
         (cumulative (backtest_stock (months_from 1 [100; 110; 121]))).
Proof.
  apply (proj1 (proj1 growth_positive (months_from 1 [100; 110; 121]))).
  repeat constructor.
Defined.

(** C7 as the specification words it does not hold: returns of -100% and
    above do not keep the growth positive.  A close of zero after an active
    month is a return of exactly -100% and brings the growth of the
    single-instrument backtester to 0; sixty active instruments that each
    lose half of their price in one month give the portfolio a return of
    exactly -100% under the fixed divisor 30, and its growth is 0. *)
Lemma growth_zero_after_full_loss :
  (Forall (fun r => match r with Some v => -1 <= v | None => True end)
          (returns (backtest_stock full_loss)) /\
   (exists c, nth_error (cumulative (backtest_stock full_loss)) 10 = Some c /\
              ~ (0 < c))) /\
  (Forall (fun r => -1 <= r)
          (portfolio_returns (backtest_portfolio (instruments 60 crash))) /\
   (exists c,
      nth_error (portfolio_cumulative (backtest_portfolio (instruments 60 crash)))
                10 = Some c /\ ~ (0 < c))).
Proof.
  split; split.
  - vm_compute. repeat constructor; discriminate.
  - eexists. split; [vm_compute; reflexivity|]. vm_compute. discriminate.
  - vm_compute. repeat constructor; discriminate.
  - eexists. split; [vm_compute; reflexivity|]. vm_compute. discriminate.
Qed.

(** ** The trade loop *)

Lemma StronglySorted_snoc {A} (R : A -> A -> Prop) l x :
  StronglySorted R l -> Forall (fun a => R a x) l ->
  StronglySorted R (l ++ [x]).
Proof.
  induction 1 as [|a l Hl IH Ha]; intros Hx; cbn.
  - repeat constructor.
  - inversion Hx; subst. constructor; [now apply IH|].
    apply Forall_app. split; [assumption | now constructor].
Qed.

Lemma StronglySorted_snoc_inv {A} (R : A -> A -> Prop) l x :
  StronglySorted R (l ++ [x]) ->
  StronglySorted R l /\ Forall (fun a => R a x) l.
Proof.
  induction l as [|a l IH]; cbn; intros H.
  - split; constructor.
  - inversion H as [|? ? Hl Ha]; subst.
    destruct (IH Hl) as [Hs Hx].
    apply Forall_app in Ha. destruct Ha as [Ha Hax].
    split; constructor; try assumption. now inversion Hax.
Qed.

Lemma closes_round_trip_more rows row tr :
  closes_round_trip rows tr -> closes_round_trip (rows ++ [row]) tr.
Proof.
  intros [(rb & Hb & ?) (rs & Hs & ?)].
  split; [exists rb | exists rs]; (split; [apply in_or_app; now left|]);
    assumption.
Qed.

Lemma loop_inv_init : loop_inv [] loop_init.
Proof.
  repeat split; cbn; try constructor. discriminate.
Qed.

Lemma loop_inv_step rows row st :
  Forall (fun r => (row_index r < row_index row)%Z) rows ->
  loop_inv rows st -> loop_inv (rows ++ [row]) (loop_body st row).
Proof.
  intros Hlt (Hgood & Hord & Hopen).
  assert (Hgood' :
    Forall (fun tr => (buy_date tr < sell_date tr)%Z /\
                      pnl_pct tr = round (raw_pnl tr) 2 /\
                      closes_round_trip (rows ++ [row]) tr)
           (trades_so_far st)).
  { eapply Forall_impl; [|exact Hgood].
    intros tr (? & ? & ?). auto using closes_round_trip_more. }
  assert (Hbefore :
    Forall (fun tr => (sell_date tr < row_index row)%Z) (trades_so_far st)).
  { eapply Forall_impl; [|exact Hgood].
    intros tr (_ & _ & _ & (rs & Hin & _ & Hix & _)).
    rewrite <- Hix. rewrite Forall_forall in Hlt. now apply Hlt. }
  assert (Hlast : In row (rows ++ [row]))
    by (apply in_or_app; right; now left).
  unfold loop_body.
  destruct (row_buy row && negb (_in st)) eqn:Ebuy.
  - apply andb_true_iff in Ebuy. destruct Ebuy as [Eb _].
    split; [exact Hgood' | split; [exact Hord|]]. cbn. intros _.
    exists row. repeat split; assumption.
  - destruct (row_sell row && _in st) eqn:Esell.
    + apply andb_true_iff in Esell. destruct Esell as [Es Ein].
      destruct (Hopen Ein) as (rb & Hin & Hb & Hed & Hep & Hprev).
      rewrite Hed, Hep. cbn.
      assert (Hrb : (row_index rb < row_index row)%Z)
        by (rewrite Forall_forall in Hlt; now apply Hlt).
      split; [|split; [|discriminate]].
      * apply Forall_app. split; [exact Hgood'|].
        constructor; [|constructor]. cbn. split; [exact Hrb|].
        split; [reflexivity|]. split.
        -- exists rb. repeat split; try assumption.
           apply in_or_app. now left.
        -- exists row. repeat split; assumption.
      * apply StronglySorted_snoc; [exact Hord | exact Hprev].
    + split; [exact Hgood' | split; [exact Hord|]].
      intros Ein. destruct (Hopen Ein) as (rb & Hin & ? & ? & ? & ?).
      exists rb. repeat split; try assumption. apply in_or_app. now left.
Qed.

Lemma run_loop_snoc st rows row :
  run_loop st (rows ++ [row]) = loop_body (run_loop st rows) row.
Proof. unfold run_loop. now rewrite fold_left_app. Qed.

Lemma loop_inv_run rows :
  increasing (map row_index rows) -> loop_inv rows (run_loop loop_init rows).
Proof.
  induction rows as [|row rows IH] using rev_ind; intros Hs.
  - apply loop_inv_init.
  - rewrite map_app in Hs. cbn in Hs.
    apply StronglySorted_snoc_inv in Hs. destruct Hs as [Hs Hlt].
    rewrite run_loop_snoc. apply loop_inv_step; [|now apply IH].
    rewrite Forall_map in Hlt. exact Hlt.
Qed.

(** The variables [_ed] and [_ep] are set whenever [_in] is, on any rows. *)
Lemma loop_entry_set rows :
  _in (run_loop loop_init rows) = true ->
  _ed (run_loop loop_init rows) <> None /\
  _ep (run_loop loop_init rows) <> None.
Proof.
  induction rows as [|row rows IH] using rev_ind; [discriminate|].
  rewrite run_loop_snoc. unfold loop_body.
  destruct (row_buy row && negb (_in (run_loop loop_init rows))).
  - intros _. split; discriminate.
  - destruct (row_sell row && _in (run_loop loop_init rows)); [|exact IH].
    destruct (_ed (run_loop loop_init rows)), (_ep (run_loop loop_init rows));
      cbn; try discriminate; intros Hin; destruct (IH Hin); congruence.
Qed.

Lemma map_row_index_rows_of ix cl b s :
  length cl = length ix -> length b = length ix -> length s = length ix ->
  map row_index (rows_of ix cl b s) = ix.
Proof.
  revert cl b s. induction ix as [|i ix IH]; intros cl b s Hc Hb Hs.
  - reflexivity.
  - destruct cl as [|c cl], b as [|b0 b], s as [|s0 s]; try discriminate.
    cbn in *. f_equal. apply IH; lia.
Qed.

Lemma index_of_rows prices :
  map row_index (iterrows (calculate_signals prices)) = map fst prices.
Proof.
  unfold iterrows, calculate_signals, calculate_signals_with.
  cbn [index close buy sell].
  apply map_row_index_rows_of;
    rewrite ?length_zip_with, ?length_shift1, ?length_zip_with;
    unfold as_float;
    rewrite ?length_map, ?length_zip_with, ?length_rolling_mean, ?length_map;
    lia.
Qed.




(** ** The portfolio table *)

Lemma at_label_combine_map (f : Z -> fval) ix ts :
  In ts ix -> at_label (combine ix (map f ix)) ts = f ts.
Proof.
  unfold at_label. induction ix as [|i ix IH]; intros Hin; [destruct Hin|].
  cbn. destruct (Z.eqb_spec i ts) as [->|Hne]; [reflexivity|].
  destruct Hin as [->|Hin]; [congruence | now apply IH].
Qed.

Lemma in_intersection a b ts :
  In ts (intersection a b) -> In ts a /\ In ts b.
Proof.
  unfold intersection. intros H. apply filter_In in H. destruct H as [Ha Hb].
  split; [exact Ha|]. apply existsb_exists in Hb.
  destruct Hb as (x & Hx & E). apply Z.eqb_eq in E. now subst.
Qed.

Lemma loc_DataFrame d cidx :
  (forall ts, In ts cidx -> In ts (union_index d)) ->
  loc (DataFrame d) cidx
  = {| f_index := cidx;
       f_columns := map (fun c => (fst c, map (at_label (snd c)) cidx)) d |}.
Proof.
  intros Hsub. unfold loc, DataFrame. cbn [f_index f_columns].
  f_equal. rewrite map_map. apply map_ext. intros c. cbn [fst snd].
  f_equal. apply map_ext_in. intros ts Hts.
  apply at_label_combine_map. now apply Hsub.
Qed.

Lemma zip_with_map_map {A B C D} (f : B -> C -> D) (g : A -> B) (h : A -> C) l :
  zip_with f (map g l) (map h l) = map (fun x => f (g x) (h x)) l.
Proof. induction l as [|x l IH]; cbn; [reflexivity | now rewrite IH]. Qed.

Lemma nth_map_at {A} (g : A -> fval) l k x :
  nth_error l k = Some x -> nth k (map g l) None = g x.
Proof.
  revert k. induction l as [|y l IH]; intros [|k] H; try discriminate; cbn in *.
  - now injection H as ->.
  - now apply IH.
Qed.

Lemma nth_error_sum_axis1 f k :
  (k < length (f_index f))%nat ->
  nth_error (sum_axis1 f) k = Some (sum_skipna (row_cells f k)).
Proof.
  intros Hk. unfold sum_axis1. rewrite nth_error_map, nth_error_seq.
  apply Nat.ltb_lt in Hk. now rewrite Hk.
Qed.

Section PortfolioCells.

Variable data : list (String.string * price_series).

#[local] Abbreviation kept := (qualifying data).
#[local] Abbreviation _as :=
  (map (fun e : String.string * price_series =>
          (fst e, position_series (snd e))) kept).
#[local] Abbreviation _ar :=
  (map (fun e : String.string * price_series =>
          (fst e, return_series (snd e))) kept).
#[local] Abbreviation cidx :=
  (intersection (union_index _as) (union_index _ar)).

Lemma portfolio_index_is_intersection :
  portfolio_index (backtest_portfolio data) = cidx.
Proof.
  unfold backtest_portfolio. fold (qualifying data).
  destruct kept as [|e tl]; reflexivity.
Qed.

Lemma backtest_portfolio_kept :
  kept <> [] ->
  backtest_portfolio data
  = {| portfolio_index := cidx;
       portfolio_returns :=
         map (fun s => s / N)
             (sum_axis1 (frame_fillna0 (frame_mul (loc (DataFrame _as) cidx)
                                                  (loc (DataFrame _ar) cidx))));
       portfolio_cumulative :=
         cumprod
           (map (fun r => 1 + r)
              (map (fun s => s / N)
                 (sum_axis1
                    (frame_fillna0 (frame_mul (loc (DataFrame _as) cidx)
                                              (loc (DataFrame _ar) cidx))))));
       active_counts := sum_axis1 (loc (DataFrame _as) cidx) |}.
Proof.
  intros Hne. unfold backtest_portfolio. fold (qualifying data).
  destruct kept as [|e tl]; [congruence | reflexivity].
Qed.

Lemma portfolio_cells k ts :
  nth_error cidx k = Some ts ->
  nth_error (portfolio_returns (backtest_portfolio data)) k
    = Some (sum (map (fun e => contribution (snd e) ts) kept) / N) /\
  nth_error (active_counts (backtest_portfolio data)) k
    = Some (sum (map (fun e => active (snd e) ts) kept)).
Proof.
  intros Hts.
  assert (Hk : (k < length cidx)%nat)
    by (apply nth_error_Some; congruence).
  assert (Hne : kept <> []).
  { intros E. rewrite E in Hts. destruct k; discriminate. }
  rewrite (backtest_portfolio_kept Hne).
  cbn [portfolio_returns active_counts].
  rewrite !loc_DataFrame
    by (intros x Hx; apply in_intersection in Hx; tauto).
  split.
  - rewrite nth_error_map, nth_error_sum_axis1 by exact Hk.
    cbn [option_map]. do 2 f_equal.
    unfold sum_skipna, row_cells, frame_fillna0, frame_mul.
    cbn [f_columns f_index]. rewrite !map_map.
    rewrite zip_with_map_map, !map_map. f_equal.
    apply map_ext. intros e. cbn [fst snd].
    rewrite zip_with_map_map, map_map.
    rewrite (nth_map_at _ _ _ _ Hts). reflexivity.
  - rewrite nth_error_sum_axis1 by exact Hk. f_equal.
    unfold sum_skipna, row_cells. cbn [f_columns]. rewrite !map_map.
    f_equal. apply map_ext. intros e. cbn [fst snd].
    rewrite (nth_map_at _ _ _ _ Hts). reflexivity.
Qed.

End PortfolioCells.

Lemma in_removelast {A} (l : list A) x : In x (removelast l) -> In x l.
Proof.
  induction l as [|a l IH]; [auto|]. cbn.
  destruct l as [|b l]; [intros []|].
  intros [->|H]; [now left | right; now apply IH].
Qed.

Lemma in_shift1 l x : In x (shift1 l) -> x = None \/ In x l.
Proof.
  destruct l as [|a l]; [intros []|]. unfold shift1.
  intros [<-|H]; [now left | right; now apply in_removelast].
Qed.

Lemma in_zip_with {A B C} (f : A -> B -> C) xs ys z :
  In z (zip_with f xs ys) -> exists x y, z = f x y.
Proof.
  revert ys. induction xs as [|x xs IH]; intros [|y ys]; cbn; try tauto.
  intros [<-|H]; [eauto | eapply IH; eauto].
Qed.

Lemma position_values p q prices x :
  In x (position (calculate_signals_with p q prices)) ->
  x = None \/ x = Some 0 \/ x = Some 1.
Proof.
  unfold calculate_signals_with; cbn [position]. intros H.
  apply in_shift1 in H. destruct H as [->|H]; [now left|]. right.
  unfold as_float in H. apply in_map_iff in H. destruct H as (z & Hx & Hz).
  subst x. apply in_zip_with in Hz. destruct Hz as (a & b & Hz). subst z.
  destruct (fgt a b); [right | left]; reflexivity.
Qed.

Lemma at_label_in (s : series) ts v :
  at_label s ts = Some v -> In (Some v) (map snd s).
Proof.
  unfold at_label. destruct (find _ s) as [e|] eqn:E; [|discriminate].
  intros <-. apply find_some in E. apply in_map. tauto.
Qed.

Lemma position_at_label mdf ts :
  at_label (position_series mdf) ts = None \/
  at_label (position_series mdf) ts = Some 0 \/
  at_label (position_series mdf) ts = Some 1.
Proof.
  destruct (at_label (position_series mdf) ts) as [v|] eqn:E; [|now left].
  apply at_label_in in E. unfold position_series in E.
  apply in_map_iff in E. destruct E as ((i & c) & Hc & Hin). cbn in Hc.
  subst c. apply in_combine_r in Hin.
  destruct (position_values _ _ _ _ Hin) as [H|[H|H]];
    [discriminate | right; now left | right; now right].
Qed.

Lemma active_nonneg mdf ts : 0 <= active mdf ts.
Proof.
  unfold active.
  destruct (position_at_label mdf ts) as [-> | [-> | ->]]; cbn; Lqa.lra.
Qed.

Lemma idle_contributes_nothing mdf ts :
  active mdf ts == 0 -> contribution mdf ts == 0.
Proof.
  unfold active, contribution.
  destruct (position_at_label mdf ts) as [-> | [-> | ->]];
    cbn [fillna fmul].
  - reflexivity.
  - intros _. destruct (at_label (return_series mdf) ts); cbn [fillna fmul];
      [ring | reflexivity].
  - intros H. exfalso. Lqa.lra.
Qed.

Lemma sum_zero_terms (xs : list Q) :
  Forall (fun x => 0 <= x) xs -> sum xs == 0 -> Forall (fun x => x == 0) xs.
Proof.
  induction 1 as [|x xs Hx Hxs IH]; cbn; intros Hsum; [constructor|].
  assert (Hrest : 0 <= sum xs).
  { clear -Hxs. induction Hxs; cbn; [Lqa.lra|]. unfold sum in *. Lqa.lra. }
  unfold sum in *. constructor; [Lqa.lra | apply IH; Lqa.lra].
Qed.

Lemma sum_of_zeros (xs : list Q) :
  Forall (fun x => x == 0) xs -> sum xs == 0.
Proof.
  induction 1 as [|x xs Hx Hxs IH]; cbn; [reflexivity|].
  unfold sum in *. rewrite Hx, IH. ring.
Qed.



(** The example of the specification: an active instrument that gains 5%
    and an idle one that loses 10% give the portfolio 0.05 / 30, with one
    active instrument counted. *)
Example one_active_of_two :
  exists r a,
    nth_error (portfolio_returns (backtest_portfolio two_instruments)) 10
      = Some r /\
    nth_error (active_counts (backtest_portfolio two_instruments)) 10
      = Some a /\
    r == (5 # 100) / 30 /\ a == 1.
Proof.
  do 2 eexists. split; [vm_compute; reflexivity|].
  split; [vm_compute; reflexivity|]. split; reflexivity.
Qed.

(** ** The length guards *)


(** The portfolio backtester skips every table shorter than eleven months,
    and has three empty outputs when none is left. *)
Lemma portfolio_guard (data : list (String.string * price_series)) :
  Forall (fun e : String.string * price_series => (length (snd e) < 11)%nat)
         data ->
  backtest_portfolio data
  = {| portfolio_index := []; portfolio_returns := [];
       portfolio_cumulative := []; active_counts := [] |}.
Proof.
  intros H. unfold backtest_portfolio.
  replace (filter (fun e => qualifies (snd e)) data) with
    (@nil (String.string * price_series)); [reflexivity|].
  symmetry. induction H as [|e data He Hd IH]; [reflexivity|].
  assert (E : qualifies (snd e) = false).
  { unfold qualifies. apply Nat.ltb_lt in He. rewrite He.
    now rewrite orb_true_r. }
  cbn [filter]. rewrite E. exact IH.
Qed.

Lemma current_signal_guard (prices : price_series) :
  (length prices < 11)%nat -> get_current_signal prices = None.
Proof.
  intros H. unfold get_current_signal.
  replace (length prices <? 11)%nat with true
    by (symmetry; now apply Nat.ltb_lt).
  now rewrite orb_true_r.
Qed.

(** C3 fails for the single-instrument backtester, which has no guard of
    its own: a table of three months is shorter than the eleven the other
    entry points ask for, and it is backtested all the same, into return
    and growth series of three periods. *)
Theorem short_series_is_backtested :
  (length three_months < 11)%nat /\
  returns (backtest_stock three_months)
    = [None; Some (0 * (110 / 100 - 1)); Some (0 * (120 / 110 - 1))] /\
  length (cumulative (backtest_stock three_months)) = 3%nat /\
  trades (backtest_stock three_months) = [] /\
  get_current_signal three_months = None /\
  portfolio_returns (backtest_portfolio short_only) = [].
Proof. repeat split. cbn. lia. Qed.

(** ** Rounding of the reported scalars *)

Lemma Q2R_zero (v : Q) : v == 0 -> Q2R v = 0%R.
Proof.
  intros H. rewrite (Qeq_eqR _ _ H). unfold Q2R. cbn. Lra.lra.
Qed.

Lemma Q2R_nonpos (v : Q) : v <= 0 -> (Q2R v <= 0)%R.
Proof.
  intros H. apply Qle_Rle in H. now rewrite (Q2R_zero 0 (Qeq_refl 0)) in H.
Qed.

Lemma Rround_half_even_nonpos (x : R) :
  (x <= 0)%R -> (Rround_half_even x <= 0)%Z.
Proof.
  intros Hx. unfold Rround_half_even.
  destruct (base_Int_part x) as [Hlo Hhi].
  assert (Hf : (Int_part x <= 0)%Z) by (apply le_IZR; Lra.lra).
  destruct (Rlt_dec (x - IZR (Int_part x)) (1 / 2)) as [_|Hn1]; [exact Hf|].
  assert (Hneg : (Int_part x < 0)%Z) by (apply lt_IZR; Lra.lra).
  destruct (Rlt_dec (1 / 2) (x - IZR (Int_part x))); [lia|].
  destruct (Z.even (Int_part x)); lia.
Qed.

Lemma Rround_half_even_zero : Rround_half_even 0 = 0%Z.
Proof.
  unfold Rround_half_even.
  destruct (base_Int_part 0) as [Hlo Hhi].
  assert (Hf : Int_part 0 = 0%Z).
  { assert ((Int_part 0 <= 0)%Z) by (apply le_IZR; Lra.lra).
    assert ((-1 < Int_part 0)%Z) by (apply lt_IZR; Lra.lra).
    lia. }
  rewrite Hf.
  destruct (Rlt_dec (0 - 0) (1 / 2)) as [_|Hn]; [reflexivity|].
  exfalso. apply Hn. Lra.lra.
Qed.

Lemma Rround_nonpos (x : R) (nd : nat) : (x <= 0)%R -> (Rround x nd <= 0)%R.
Proof.
  intros Hx. unfold Rround.
  assert (Hp : (0 < 10 ^ nd)%R) by (apply pow_lt; Lra.lra).
  assert (Hz : (Rround_half_even (x * 10 ^ nd) <= 0)%Z).
  { apply Rround_half_even_nonpos. nra. }
  apply IZR_le in Hz.
  assert (Hi : (0 < / 10 ^ nd)%R) by now apply Rinv_0_lt_compat.
  unfold Rdiv. nra.
Qed.

Lemma Rround_zero (nd : nat) : Rround 0 nd = 0%R.
Proof.
  unfold Rround. rewrite Rmult_0_l, Rround_half_even_zero.
  unfold Rdiv. apply Rmult_0_l.
Qed.

(** ** Metrics *)

Lemma dropna_all_nan (s : series) :
  Forall (fun e => snd e = None) s -> dropna s = [].
Proof.
  induction 1 as [|[ts v] s Hv Hs IH]; [reflexivity|].
  cbn in Hv. subst v. exact IH.
Qed.

(** C10.  On a return series whose entries are all NaN, and so on the empty
    one, the metrics calculator returns the empty dictionary, with or
    without a benchmark. *)
Theorem no_returns_no_metrics
  (returns_series : series) (benchmark_series : option series) :
  Forall (fun e => snd e = None) returns_series ->
  calculate_metrics returns_series benchmark_series = [].
Proof.
  intros H. unfold calculate_metrics. now rewrite dropna_all_nan.
Qed.

Lemma no_returns_no_metrics_witness :
  calculate_metrics [(1%Z, None); (2%Z, None)] None = [] /\
  calculate_metrics [] (Some [(1%Z, Some 1)]) = [].
Proof.
  split.
  - apply (no_returns_no_metrics [(1%Z, None); (2%Z, None)] None).
    repeat constructor.
  - apply (no_returns_no_metrics [] (Some [(1%Z, Some 1)])). constructor.
Defined.

(** With one defined return there are the six named scalars. *)
Lemma some_returns_six_metrics (returns_series : series) :
  dropna returns_series <> [] ->
  length (calculate_metrics returns_series None) = 6%nat.
Proof.
  intros H. unfold calculate_metrics.
  destruct (dropna returns_series); [congruence | reflexivity].
Qed.

Lemma min_skipna_head a tl :
  exists m, min_skipna (Some a :: tl) = Some m /\ m <= a.
Proof.
  cbn. destruct (min_skipna tl) as [b|].
  - destruct (Qle_bool a b) eqn:E; eexists; split; try reflexivity.
    + apply Qle_refl.
    + apply Qlt_le_weak. apply Qnot_le_lt. intros H.
      apply Qle_bool_iff in H. congruence.
  - eexists; split; [reflexivity | apply Qle_refl].
Qed.

Lemma min_skipna_lower lo xs m :
  Forall (fun d => match d with Some v => lo <= v | None => True end) xs ->
  min_skipna xs = Some m -> lo <= m.
Proof.
  induction 1 as [|d xs Hd Hxs IH] in m |- *; [discriminate|].
  cbn. destruct d as [a|]; [|exact (IH m)].
  destruct (min_skipna xs) as [b|].
  - destruct (Qle_bool a b); intros [= <-]; [exact Hd | now apply IH].
  - now intros [= <-].
Qed.

Lemma min_skipna_all_nan xs :
  Forall (fun d => d = None) xs -> min_skipna xs = None.
Proof.
  induction 1 as [|d xs Hd Hxs IH]; [reflexivity|]. cbn. now rewrite Hd.
Qed.

Lemma cummax_from_nondecreasing m xs :
  nondecreasing_from m xs -> cummax_from m xs = xs.
Proof.
  revert m. induction xs as [|x xs IH]; intros m; [reflexivity|].
  cbn. intros [Hm Hx]. apply Qle_bool_iff in Hm. rewrite Hm.
  f_equal. now apply IH.
Qed.

Lemma cummax_nondecreasing xs : nondecreasing xs -> cummax xs = xs.
Proof.
  destruct xs as [|x xs]; [reflexivity|]. cbn. intros H.
  f_equal. now apply cummax_from_nondecreasing.
Qed.

Lemma drawdown_at_peak (c : Q) :
  match fdiv (c - c) c with Some v => 0 <= v | None => True end.
Proof.
  unfold fdiv. destruct (Qeq_bool c 0); [exact I|].
  assert (H : (c - c) / c == 0) by (unfold Qdiv; ring).
  rewrite H. apply Qle_refl.
Qed.

Lemma drawdown_at_peaks xs :
  Forall (fun d => match d with Some v => 0 <= v | None => True end)
         (zip_with (fun c p => fdiv (c - p) p) xs xs).
Proof.
  induction xs as [|x xs IH]; cbn; constructor;
    [apply drawdown_at_peak | exact IH].
Qed.

Lemma cumprod_from_zero acc xs :
  acc == 0 -> Forall (fun c => c == 0) (cumprod_from acc xs).
Proof.
  revert acc. induction xs as [|x xs IH]; intros acc Ha; cbn; [constructor|].
  assert (H : acc * x == 0) by (rewrite Ha; ring).
  constructor; [exact H | now apply IH].
Qed.

Lemma cummax_from_zero m xs :
  m == 0 -> Forall (fun c => c == 0) xs ->
  Forall (fun c => c == 0) (cummax_from m xs).
Proof.
  intros Hm H. revert m Hm.
  induction H as [|x xs Hx Hxs IH]; intros m Hm; cbn; [constructor|].
  destruct (Qle_bool m x); constructor; auto.
Qed.

Lemma drawdown_zero_peaks cs ps :
  Forall (fun p => p == 0) ps ->
  Forall (fun d => d = None) (zip_with (fun c p => fdiv (c - p) p) cs ps).
Proof.
  intros H. revert cs.
  induction H as [|p ps Hp Hps IH]; intros [|c cs]; cbn; constructor.
  - unfold fdiv. apply Qeq_bool_iff in Hp. now rewrite Hp.
  - apply IH.
Qed.

Lemma first_drawdown r0 tl :
  ~ r0 == -1 ->
  exists d rest,
    drawdown_of (r0 :: tl) = Some d :: rest /\ d == 0.
Proof.
  intros Hr. unfold drawdown_of, cumulative_of, cumprod.
  cbn [map cumprod_from cummax zip_with].
  unfold fdiv at 1.
  destruct (Qeq_bool (1 * (1 + r0)) 0) eqn:E.
  - apply Qeq_bool_iff in E. exfalso. apply Hr. Lqa.lra.
  - do 2 eexists. split; [reflexivity|]. unfold Qdiv. ring.
Qed.

Lemma drawdown_after_full_loss r0 tl :
  r0 == -1 -> Forall (fun d => d = None) (drawdown_of (r0 :: tl)).
Proof.
  intros Hr. unfold drawdown_of, cumulative_of, cumprod.
  cbn [map cumprod_from cummax].
  assert (H0 : 1 * (1 + r0) == 0) by Lqa.lra.
  apply drawdown_zero_peaks. constructor; [exact H0|].
  apply cummax_from_zero; [exact H0 | now apply cumprod_from_zero].
Qed.

(** The quotient of the drawdown is never a non-zero number over zero:
    where the running peak is 0 the cumulative growth is 0 as well, so the
    only division by zero is 0/0, which [fdiv] renders as NaN. *)
Lemma zero_peak_from acc m xs :
  (m == 0 -> acc == 0) ->
  Forall (fun cp => snd cp == 0 -> fst cp == 0)
         (combine (cumprod_from acc xs) (cummax_from m (cumprod_from acc xs))).
Proof.
  revert acc m. induction xs as [|x xs IH]; intros acc m Hinv; cbn;
    [constructor|].
  destruct (Qle_bool m (acc * x)) eqn:E.
  - constructor; [cbn; tauto|]. apply IH. tauto.
  - assert (Hlt : acc * x < m).
    { apply Qnot_le_lt. intros H. apply Qle_bool_iff in H. congruence. }
    assert (Hm : ~ m == 0).
    { intros Hm. pose proof (Hinv Hm) as Ha.
      assert (Hc : acc * x == 0) by (rewrite Ha; ring). Lqa.lra. }
    constructor; [cbn; tauto|]. apply IH. tauto.
Qed.

Lemma zero_peak_zero_growth rs :
  Forall (fun cp => snd cp == 0 -> fst cp - snd cp == 0)
         (combine (cumulative_of rs) (cummax (cumulative_of rs))).
Proof.
  assert (H : Forall (fun cp : Q * Q => snd cp == 0 -> fst cp == 0)
                (combine (cumulative_of rs) (cummax (cumulative_of rs)))).
  { unfold cumulative_of, cumprod.
    destruct (map (fun r => 1 + r) rs) as [|x xs]; cbn; [constructor|].
    constructor; [cbn; tauto|]. apply zero_peak_from. tauto. }
  eapply Forall_impl; [|exact H].
  intros [c pk] Hc Hp. cbn in *. rewrite (Hc Hp), Hp. ring.
Qed.

(** The maximum drawdown away from a first return of -100%.  For a return
    series whose first defined return is not exactly -100%, the maximum
    drawdown -- the least defined value of [(cumulative - peak) / peak] --
    is at most 0, and it is 0 when the cumulative growth never falls; the
    dictionary carries it times 100, rounded to two decimals, which is then
    at most 0, respectively 0.  When the first defined return is exactly
    -100% the growth and its peak are 0 throughout, every drawdown is 0/0,
    and the maximum drawdown is NaN. *)
Theorem max_drawdown
  (returns_series : series) (benchmark_series : option series)
  (r0 : Q) (tl : list Q) :
  map snd (dropna returns_series) = r0 :: tl ->
  In (key_mdd, option_map (fun m => Rround (Q2R m * 100) 2) (mdd_of (r0 :: tl)))
     (calculate_metrics returns_series benchmark_series) /\
  (~ r0 == -1 ->
   exists m, mdd_of (r0 :: tl) = Some m /\ m <= 0 /\
             (Rround (Q2R m * 100) 2 <= 0)%R /\
             (nondecreasing (cumulative_of (r0 :: tl)) ->
              m == 0 /\ Rround (Q2R m * 100) 2 = 0%R)) /\
  (r0 == -1 -> mdd_of (r0 :: tl) = None).
Proof.
  intros Hrs. split; [|split].
  - unfold calculate_metrics.
    destruct (dropna returns_series) as [|e es] eqn:E; [discriminate|].
    rewrite Hrs. apply in_or_app. left. cbn. auto.
  - intros Hr. destruct (first_drawdown r0 tl Hr) as (d & rest & Hd & Hd0).
    unfold mdd_of. rewrite Hd.
    destruct (min_skipna_head d rest) as (m & Hm & Hle).
    assert (Hm0 : m <= 0) by Lqa.lra.
    exists m. split; [exact Hm | split; [exact Hm0 | split]].
    { apply Rround_nonpos. pose proof (Q2R_nonpos m Hm0). Lra.lra. }
    intros Hmono.
    assert (Hz : m == 0).
    { apply Qle_antisym; [exact Hm0|].
      apply (min_skipna_lower 0 (Some d :: rest)); [|exact Hm].
      rewrite <- Hd. unfold drawdown_of.
      rewrite (cummax_nondecreasing _ Hmono). apply drawdown_at_peaks. }
    split; [exact Hz|].
    rewrite (Q2R_zero m Hz), Rmult_0_l. apply Rround_zero.
  - intros Hr. unfold mdd_of. apply min_skipna_all_nan.
    now apply drawdown_after_full_loss.
Qed.

Lemma max_drawdown_witness :
  exists m, mdd_of [1 # 10; -1 # 2; 1 # 5] = Some m /\ m <= 0.
Proof.
  destruct (max_drawdown
              [(1%Z, Some (1 # 10)); (2%Z, None); (3%Z, Some (-1 # 2));
               (4%Z, Some (1 # 5))] None (1 # 10) [-1 # 2; 1 # 5] eq_refl)
    as (_ & H & _).
  destruct H as (m & Hm & Hle & _); [discriminate|].
  exists m. split; assumption.
Defined.

(** C8 fails on a return series that starts with a return of -100%: the
    growth and its peak are 0, the drawdown is 0/0, and the maximum drawdown
    is NaN, which is not at most 0; the dictionary carries NaN.  The other
    quotients of the function (Sharpe-like ratio, CAGR, win rate,
    profit/loss ratio) test their divisor; this one does not. *)
Theorem max_drawdown_nan_after_full_loss :
  mdd_of [-1] = None /\
  ~ (exists m, mdd_of [-1] = Some m /\ m <= 0) /\
  In (key_mdd, None) (calculate_metrics [(1%Z, Some (-1))] None).
Proof.
  split; [reflexivity|]. split.
  - intros (m & Hm & _). discriminate.
  - cbn. auto.
Qed.

(** ** The Sharpe-like ratio *)

Lemma sum_constant (c : Q) (xs : list Q) :
  Forall (fun x => x == c) xs ->
  sum xs == inject_Z (Z.of_nat (length xs)) * c.
Proof.
  induction 1 as [|x xs Hx Hxs IH].
  - cbn. ring.
  - cbn [sum fold_right length]. fold (sum xs). rewrite IH, Hx.
    rewrite Nat2Z.inj_succ. unfold Z.succ. rewrite inject_Z_plus. ring.
Qed.

Lemma mean_constant (c : Q) (xs : list Q) :
  xs <> [] -> Forall (fun x => x == c) xs -> mean xs == c.
Proof.
  intros Hne H. unfold mean. rewrite (sum_constant c xs H).
  field. intros E.
  assert (Hz : Z.of_nat (length xs) = 0%Z).
  { unfold Qeq in E. cbn in E. lia. }
  destruct xs; [congruence | discriminate].
Qed.

Lemma var_constant (c : Q) (xs : list Q) (v : Q) :
  Forall (fun x => x == c) xs -> var xs = Some v -> v == 0.
Proof.
  intros H. unfold var.
  destruct (length xs <? 2)%nat eqn:E; [discriminate|].
  intros [= <-].
  assert (Hne : xs <> []) by (destruct xs; [discriminate | congruence]).
  pose proof (mean_constant c xs Hne H) as Hm.
  assert (Hs : sum (map (fun x => (x - mean xs) * (x - mean xs)) xs) == 0).
  { apply sum_of_zeros. apply Forall_map.
    eapply Forall_impl; [|exact H]. intros x Hx. cbn in Hx.
    rewrite Hx, Hm. ring. }
  rewrite Hs. unfold Qdiv. ring.
Qed.

Lemma sharpe_of_constant (c : Q) (xs : list Q) :
  Forall (fun x => x == c) xs -> sharpe_of xs = 0%R.
Proof.
  intros H. unfold sharpe_of, std.
  destruct (var xs) as [v|] eqn:E; cbn [option_map]; [|reflexivity].
  rewrite (Q2R_zero v (var_constant c xs v H E)), sqrt_0.
  destruct (Rlt_dec 0 0) as [Hlt|_]; [|reflexivity].
  exfalso. exact (Rlt_irrefl _ Hlt).
Qed.

Lemma std_of_constant (c : Q) (xs : list Q) :
  Forall (fun x => x == c) xs -> std xs = None \/ std xs = Some 0%R.
Proof.
  intros H. unfold std.
  destruct (var xs) as [v|] eqn:E; cbn [option_map]; [right | now left].
  now rewrite (Q2R_zero v (var_constant c xs v H E)), sqrt_0.
Qed.

Lemma sharpe_of_no_deviation (xs : list Q) :
  std xs = None \/ std xs = Some 0%R -> sharpe_of xs = 0%R.
Proof.
  unfold sharpe_of. intros [-> | ->]; [reflexivity|].
  destruct (Rlt_dec 0 0) as [Hlt|_]; [|reflexivity].
  exfalso. exact (Rlt_irrefl _ Hlt).
Qed.

(** C9, as the program has it.  For a return series with a defined return,
    the dictionary carries the Sharpe-like ratio rounded to two decimals.
    The ratio is [mean / std * sqrt 12] when the computed standard deviation
    is positive, and 0 when it is zero or NaN (a single return).  With exact
    arithmetic the standard deviation of equal returns is zero or NaN, so
    their ratio is 0; on doubles the guard is the same test of the computed
    standard deviation, which rounding can leave positive. *)
Theorem sharpe_ratio
  (returns_series : series) (benchmark_series : option series)
  (r0 : Q) (tl : list Q) :
  map snd (dropna returns_series) = r0 :: tl ->
  In (key_sharpe, Some (Rround (sharpe_of (r0 :: tl)) 2))
     (calculate_metrics returns_series benchmark_series) /\
  (forall s, std (r0 :: tl) = Some s -> (0 < s)%R ->
             sharpe_of (r0 :: tl) = (Q2R (mean (r0 :: tl)) / s * sqrt 12)%R) /\
  (std (r0 :: tl) = None \/ std (r0 :: tl) = Some 0%R ->
   sharpe_of (r0 :: tl) = 0%R /\ Rround (sharpe_of (r0 :: tl)) 2 = 0%R) /\
  (Forall (fun r => r == r0) tl ->
   std (r0 :: tl) = None \/ std (r0 :: tl) = Some 0%R) /\
  (forall xs : list PrimFloat.float,
     (Doubles.positive (Doubles.std xs) = true ->
      Doubles.sharpe xs = Doubles.ratio xs) /\
     (Doubles.positive (Doubles.std xs) = false ->
      Doubles.sharpe xs = Doubles.zero)).
Proof.
  intros Hrs. split; [|split; [|split; [|split]]].
  - unfold calculate_metrics.
    destruct (dropna returns_series) as [|e es] eqn:E; [discriminate|].
    rewrite Hrs. apply in_or_app. left. cbn. auto 6.
  - intros s Hs Hpos. unfold sharpe_of. rewrite Hs.
    destruct (Rlt_dec 0 s); [reflexivity | contradiction].
  - intros H. rewrite (sharpe_of_no_deviation _ H).
    split; [reflexivity | apply Rround_zero].
  - intros H. apply (std_of_constant r0).
    constructor; [reflexivity | exact H].
  - intros xs. unfold Doubles.sharpe, Doubles.positive, Doubles.ratio.
    split; intros ->; reflexivity.
Qed.

Lemma sharpe_ratio_witness :
  sharpe_of [1 # 100; 1 # 100; 1 # 100] = 0%R /\
  (exists s, std [0; 2 # 100] = Some s /\ (0 < s)%R /\
             sharpe_of [0; 2 # 100]
             = (Q2R (mean [0; 2 # 100]%Q) / s * sqrt 12)%R).
Proof.
  split.
  - destruct (sharpe_ratio
                [(1%Z, Some (1 # 100)); (2%Z, Some (1 # 100));
                 (3%Z, Some (1 # 100))] None (1 # 100) [1 # 100; 1 # 100]
                eq_refl) as (_ & _ & H0 & Hc & _).
    apply H0. apply Hc. repeat constructor.
  - destruct (var [0; 2 # 100]) as [v|] eqn:Ev; [|discriminate].
    assert (Hv : 0 < v) by (injection Ev as <-; reflexivity).
    assert (Hs : std [0; 2 # 100] = Some (sqrt (Q2R v)))
      by (unfold std; now rewrite Ev).
    assert (Hpos : (0 < sqrt (Q2R v))%R).
    { apply sqrt_lt_R0. apply Qlt_Rlt in Hv.
      now rewrite (Q2R_zero 0 (Qeq_refl 0)) in Hv. }
    exists (sqrt (Q2R v)). split; [exact Hs | split; [exact Hpos|]].
    destruct (sharpe_ratio [(1%Z, Some 0); (2%Z, Some (2 # 100))] None
                0 [2 # 100] eq_refl) as (_ & H & _).
    exact (H _ Hs Hpos).
Defined.

(** C9 as the specification words it does not hold on doubles: equal
    returns do not always give 0.  For three returns of 0.1 the sum is
    0.30000000000000004 and the mean 0.10000000000000002, each deviation is
    about 1.4e-17, the standard deviation is about 1.7e-17, which is
    positive, and the ratio is the quotient times [sqrt 12], above 1e16. *)
Lemma sharpe_of_equal_doubles_not_zero :
  Forall (fun x => x = hd Doubles.zero Doubles.ten_percent_thrice)
         Doubles.ten_percent_thrice /\
  Doubles.positive (Doubles.std Doubles.ten_percent_thrice) = true /\
  PrimFloat.eqb (Doubles.sharpe Doubles.ten_percent_thrice) Doubles.zero
    = false /\
  PrimFloat.ltb Doubles.ten_to_16 (Doubles.sharpe Doubles.ten_percent_thrice)
    = true.
Proof.
  split; [repeat constructor|].
  repeat split; vm_compute; reflexivity.
Qed.

(** Returns that are all 0 have a mean and a standard deviation of exactly
    0 on doubles too, and a ratio of 0. *)
Example sharpe_of_zero_doubles :
  Doubles.positive (Doubles.std Doubles.no_moves) = false /\
  Doubles.sharpe Doubles.no_moves = Doubles.zero.
Proof. split; vm_compute; reflexivity. Qed.

(** ** The examples of the specification *)

(** A buy can fire in the first period whose long window is full: the
    signal of the period before is 0 there, not missing. *)
Example first_full_window_can_buy :
  nth_error (_y (calculate_signals rising)) 8 = Some None /\
  nth_error (position (calculate_signals rising)) 9 = Some (Some 0) /\
  nth_error (buy (calculate_signals rising)) 9 = Some true.
Proof. repeat split. Qed.

(** Fourteen closes, windows 2 and 10: the long average is NaN before
    period 9, one buy fires, in period 12, and no return is earned before
    period 13. *)
Example dip_and_recovery_signals :
  firstn 9 (_y (calculate_signals dip_and_recovery)) = repeat None 9 /\
  signal (calculate_signals dip_and_recovery)
    = [0; 0; 0; 0; 0; 0; 0; 0; 0; 0; 0; 0; 1; 1]%Z /\
  buy (calculate_signals dip_and_recovery)
    = [false; false; false; false; false; false; false; false; false; false;
       false; false; true; false] /\
  sell (calculate_signals dip_and_recovery) = repeat false 14 /\
  Forall (fun r => fillna 0 r == 0)
         (firstn 13 (returns (backtest_stock dip_and_recovery))).
Proof.
  split; [reflexivity|]. split; [reflexivity|]. split; [reflexivity|].
  split; [reflexivity|]. vm_compute. repeat constructor.
Qed.

(** The first gated return is that of period 13, and the position is still
    open when the series ends: no trade is recorded. *)
Example dip_and_recovery_first_return :
  exists r,
    nth_error (returns (backtest_stock dip_and_recovery)) 13 = Some (Some r) /\
    r == 150 / 120 - 1 /\
    trades (backtest_stock dip_and_recovery) = [].
Proof. eexists. repeat split. Qed.

(** Twenty equal closes: the growth is 1 throughout, and the drawdown, the
    Sharpe-like ratio, the win rate and the profit/loss ratio are 0. *)
Example flat_series_metrics :
  Forall (fun c => c == 1) (cumulative (backtest_stock flat)) /\
  (exists m,
     mdd_of (map snd (dropna (combine (index (signals (backtest_stock flat)))
                                      (returns (backtest_stock flat)))))
       = Some m /\ m == 0) /\
  sharpe_of (map snd (dropna (combine (index (signals (backtest_stock flat)))
                                      (returns (backtest_stock flat)))))
    = 0%R /\
  win_rate_of (map snd (dropna (combine (index (signals (backtest_stock flat)))
                                        (returns (backtest_stock flat)))))
    == 0 /\
  profit_loss_ratio_of
    (map snd (dropna (combine (index (signals (backtest_stock flat)))
                              (returns (backtest_stock flat)))))
    == 0.
Proof.
  split; [vm_compute; repeat constructor|].
  split; [eexists; split; [vm_compute; reflexivity | reflexivity]|].
  split; [|split; vm_compute; reflexivity].
  apply (sharpe_of_constant 0). vm_compute. repeat constructor.
Qed.

(** * Further properties of the engine *)

(** ** Lists *)

Lemma firstn_snoc {A} (l : list A) k x :
  nth_error l k = Some x -> firstn (S k) l = firstn k l ++ [x].
Proof.
  revert k. induction l as [|a l IH]; intros [|k] H; try discriminate.
  - cbn in H. injection H as ->. reflexivity.
  - cbn in H. rewrite (firstn_cons (S k)), (firstn_cons k), (IH _ H).
    reflexivity.
Qed.

Lemma nth_error_rows_of ix cl b s t :
  nth_error (rows_of ix cl b s) t =
  match nth_error ix t, nth_error cl t, nth_error b t, nth_error s t with
  | Some i, Some c, Some b0, Some s0 =>
      Some {| row_index := i; row_close := c; row_buy := b0; row_sell := s0 |}
  | _, _, _, _ => None
  end.
Proof.
  revert cl b s t. induction ix as [|i ix IH]; intros cl b s t.
  - destruct t; reflexivity.
  - destruct cl as [|c cl].
    { destruct t; cbn; [reflexivity|]. now destruct (nth_error ix t). }
    destruct b as [|b0 b].
    { destruct t; cbn; [reflexivity|].
      destruct (nth_error ix t); [|reflexivity].
      now destruct (nth_error cl t). }
    destruct s as [|s0 s].
    { destruct t; cbn; [reflexivity|].
      destruct (nth_error ix t); [|reflexivity].
      destruct (nth_error cl t); [|reflexivity].
      now destruct (nth_error b t). }
    destruct t; cbn; [reflexivity | apply IH].
Qed.

Lemma count_true_snoc bs b :
  count_true (bs ++ [b]) = (count_true bs + if b then 1 else 0)%nat.
Proof.
  unfold count_true. rewrite filter_app, length_app. now destruct b.
Qed.

Lemma last_nth_error {A} (l : list A) d :
  l <> [] -> nth_error l (length l - 1) = Some (last l d).
Proof.
  intros Hne. destruct (exists_last Hne) as (l' & a & ->).
  rewrite last_last, length_app, nth_error_app2 by (cbn; lia).
  cbn [length]. replace (length l' + 1 - 1 - length l')%nat with 0%nat by lia.
  reflexivity.
Qed.

(** ** The trade loop follows the signal *)

Section LoopFollowsSignal.

Variables (p q : nat) (prices : price_series).

#[local] Abbreviation col := (map snd prices).
#[local] Abbreviation df := (calculate_signals_with p q prices).

Lemma length_iterrows : length (iterrows df) = length prices.
Proof.
  rewrite <- (length_map row_index).
  unfold iterrows, calculate_signals_with. cbn [index close buy sell].
  rewrite map_row_index_rows_of;
    rewrite ?length_zip_with, ?length_shift1, ?length_zip_with;
    unfold as_float;
    rewrite ?length_map, ?length_zip_with, ?length_rolling_mean, ?length_map;
    lia.
Qed.

Lemma length_flags :
  length (buy df) = length prices /\ length (sell df) = length prices.
Proof.
  unfold calculate_signals_with. cbn [buy sell].
  rewrite !length_zip_with, !length_shift1. unfold as_float.
  rewrite !length_map, !length_zip_with, !length_rolling_mean, !length_map.
  lia.
Qed.

Lemma row_cell t b s :
  nth_error (buy df) t = Some b -> nth_error (sell df) t = Some s ->
  exists i c,
    nth_error (iterrows df) t
    = Some {| row_index := i; row_close := c; row_buy := b; row_sell := s |}.
Proof.
  intros Hb Hs. unfold iterrows. rewrite nth_error_rows_of, Hb, Hs.
  assert (Ht : (t < length prices)%nat).
  { rewrite <- (proj1 length_flags). apply nth_error_Some. congruence. }
  destruct (nth_error (index df) t) as [i|] eqn:Ei.
  - destruct (nth_error (close df) t) as [c|] eqn:Ec; [eauto|].
    apply nth_error_None in Ec. unfold calculate_signals_with in Ec.
    cbn [close] in Ec. rewrite length_map in Ec. lia.
  - apply nth_error_None in Ei. unfold calculate_signals_with in Ei.
    cbn [index] in Ei. rewrite length_map in Ei. lia.
Qed.

Lemma flags_first :
  (0 < length prices)%nat ->
  nth_error (buy df) 0 = Some false /\ nth_error (sell df) 0 = Some false.
Proof.
  intros Hn. pose proof (position_cell_0 p q prices Hn) as Hp.
  rewrite (buy_cell p q prices 0 None Hn Hp), (sell_cell p q prices 0 None Hn Hp).
  cbn [feqb]. now rewrite !andb_false_r.
Qed.

Lemma flags_later t :
  (S t < length prices)%nat ->
  nth_error (buy df) (S t)
    = Some (Z.eqb (state_at p q col (S t)) 1 && Z.eqb (state_at p q col t) 0) /\
  nth_error (sell df) (S t)
    = Some (Z.eqb (state_at p q col (S t)) 0 && Z.eqb (state_at p q col t) 1).
Proof.
  intros Ht. pose proof (position_cell_S p q prices t Ht) as Hp.
  rewrite (buy_cell p q prices _ _ Ht Hp), (sell_cell p q prices _ _ Ht Hp).
  destruct (state_at_01 p q prices t) as [E|E]; rewrite E; split; reflexivity.
Qed.

Hypothesis long_window : (2 <= q)%nat.

(** After the first [k] rows: the loop is in the market exactly when the
    signal of the last row read is 1; it has recorded one trade for every
    sell flag read; and every buy flag read has either been closed by a
    trade or is the open position. *)
Lemma loop_prefix k :
  (k <= length prices)%nat ->
  _in (run_loop loop_init (firstn k (iterrows df)))
    = match k with
      | O => false
      | S j => Z.eqb (state_at p q col j) 1
      end /\
  length (trades_so_far (run_loop loop_init (firstn k (iterrows df))))
    = count_true (firstn k (sell df)) /\
  count_true (firstn k (buy df))
    = (length (trades_so_far (run_loop loop_init (firstn k (iterrows df))))
       + if _in (run_loop loop_init (firstn k (iterrows df))) then 1 else 0)%nat.
Proof.
  induction k as [|k IH]; intros Hk; [repeat split|].
  destruct (IH ltac:(lia)) as (Hin & Htr & Hbuy). clear IH.
  assert (Hflags : exists b s,
             nth_error (buy df) k = Some b /\ nth_error (sell df) k = Some s /\
             b = (Z.eqb (state_at p q col k) 1 && negb (_in (run_loop loop_init (firstn k (iterrows df))))) /\
             s = (Z.eqb (state_at p q col k) 0 && _in (run_loop loop_init (firstn k (iterrows df))))).
  { destruct k as [|j].
    - destruct (flags_first ltac:(lia)) as [Hb Hs].
      exists false, false. rewrite Hin.
      rewrite (state_at_early p q prices 0) by lia.
      repeat split; assumption.
    - destruct (flags_later j ltac:(lia)) as [Hb Hs].
      do 2 eexists. split; [exact Hb|]. split; [exact Hs|]. rewrite Hin.
      destruct (state_at_01 p q prices j) as [E|E]; rewrite E;
        split; reflexivity. }
  destruct Hflags as (b & s & Hb & Hs & Eb & Es).
  destruct (row_cell k b s Hb Hs) as (i & c & Hrow).
  rewrite (firstn_snoc _ _ _ Hrow), (firstn_snoc _ _ _ Hb),
    (firstn_snoc _ _ _ Hs), run_loop_snoc, !count_true_snoc.
  set (st := run_loop loop_init (firstn k (iterrows df))) in *.
  pose proof (loop_entry_set (firstn k (iterrows df))) as Hset. fold st in Hset.
  unfold loop_body. cbn [row_buy row_sell row_index row_close].
  destruct (state_at_01 p q prices k) as [E|E]; rewrite E in Eb, Es |- *;
    destruct (_in st) eqn:Ein; cbn in Eb, Es; subst b s;
    cbn [andb negb].
  - (* signal 0, in the market: the sell branch *)
    destruct (Hset eq_refl) as [Hed Hep].
    destruct (_ed st) as [ed|]; [|congruence].
    destruct (_ep st) as [ep|]; [|congruence].
    cbn [_in trades_so_far]. rewrite length_app. cbn [length].
    repeat split; lia.
  - rewrite Ein. repeat split; lia.
  - rewrite Ein. repeat split; lia.
  - (* signal 1, out of the market: the buy branch *)
    cbn [_in trades_so_far]. repeat split; lia.
Qed.

End LoopFollowsSignal.

(** X1.  The trade list accounts for every flag of the signal table.  On a
    well-formed price table the single-instrument backtester records exactly
    one trade for each period whose [sell] flag is set, and the number of
    [buy] flags is the number of trades, plus one when the last signal is 1:
    no buy flag is ignored, each one is either closed by a recorded trade or
    is the position still open at the end.  The loop ends in the market
    exactly when the last signal is 1. *)
Theorem trades_follow_signals (prices : price_series) :
  well_formed prices ->
  length (trades (backtest_stock prices))
    = count_true (sell (signals (backtest_stock prices))) /\
  count_true (buy (signals (backtest_stock prices)))
    = (length (trades (backtest_stock prices))
       + if Z.eqb (last (signal (signals (backtest_stock prices))) 0%Z) 1
         then 1 else 0)%nat /\
  _in (run_loop loop_init (iterrows (signals (backtest_stock prices))))
    = Z.eqb (last (signal (signals (backtest_stock prices))) 0%Z) 1.
Proof.
  intros _. unfold backtest_stock; cbn [signals trades].
  unfold calculate_signals; cbn [_cfg fst snd].
  destruct (loop_prefix 2 10 prices ltac:(lia) (length prices) (Nat.le_refl _))
    as (Hin & Htr & Hbuy).
  destruct (length_flags 2 10 prices) as [Lb Ls].
  pose proof (length_iterrows 2 10 prices) as Lr.
  rewrite (firstn_all2 (iterrows _)) in Hin, Htr, Hbuy by lia.
  rewrite (firstn_all2 (sell _)) in Htr by lia.
  rewrite (firstn_all2 (buy _)) in Hbuy by lia.
  assert (Hlast :
    _in (run_loop loop_init (iterrows (calculate_signals_with 2 10 prices)))
    = Z.eqb (last (signal (calculate_signals_with 2 10 prices)) 0%Z) 1).
  { rewrite Hin. destruct (length prices) as [|j] eqn:En.
    - destruct prices; [reflexivity | discriminate].
    - assert (Hne : signal (calculate_signals_with 2 10 prices) <> []).
      { intros E. apply (f_equal (@length _)) in E.
        rewrite length_signal, En in E. discriminate. }
      pose proof (last_nth_error _ 0%Z Hne) as Hl.
      rewrite length_signal, En, signal_cell in Hl by lia.
      replace (S j - 1)%nat with j in Hl by lia.
      f_equal. congruence. }
  rewrite <- Hlast. repeat split; assumption.
Qed.

Lemma trades_follow_signals_witness :
  length (trades (backtest_stock round_trip))
    = count_true (sell (signals (backtest_stock round_trip))).
Proof.
  apply (trades_follow_signals round_trip).
  split; [unfold increasing; cbn|]; repeat constructor.
Defined.

(** ** The current signal *)

Lemma current_signal_cells (prices : price_series) :
  (11 <= length prices)%nat ->
  get_current_signal prices
  = Some (state_at 2 10 (map snd prices) (length prices - 1),
          Z.eqb (state_at 2 10 (map snd prices) (length prices - 1)) 1
          && Z.eqb (state_at 2 10 (map snd prices) (length prices - 2)) 0,
          Z.eqb (state_at 2 10 (map snd prices) (length prices - 1)) 0
          && Z.eqb (state_at 2 10 (map snd prices) (length prices - 2)) 1).
Proof.
  intros Hn. unfold get_current_signal.
  replace (length prices =? 0)%nat with false
    by (symmetry; apply Nat.eqb_neq; lia).
  replace (length prices <? 11)%nat with false
    by (symmetry; apply Nat.ltb_ge; lia).
  cbn [orb]. unfold calculate_signals; cbn [_cfg fst snd].
  destruct (length_flags 2 10 prices) as [Lb Ls].
  assert (Hs : signal (calculate_signals_with 2 10 prices) <> [])
    by (intros E; apply (f_equal (@length _)) in E;
        rewrite length_signal in E; cbn in E; lia).
  assert (Hb : buy (calculate_signals_with 2 10 prices) <> [])
    by (intros E; apply (f_equal (@length _)) in E;
        rewrite Lb in E; cbn in E; lia).
  assert (Hl : sell (calculate_signals_with 2 10 prices) <> [])
    by (intros E; apply (f_equal (@length _)) in E;
        rewrite Ls in E; cbn in E; lia).
  pose proof (last_nth_error _ 0%Z Hs) as E1.
  pose proof (last_nth_error _ false Hb) as E2.
  pose proof (last_nth_error _ false Hl) as E3.
  rewrite length_signal, signal_cell in E1 by lia.
  rewrite Lb in E2. rewrite Ls in E3.
  replace (length prices - 1)%nat with (S (length prices - 2)) in E2, E3 by lia.
  destruct (flags_later 2 10 prices (length prices - 2) ltac:(lia)) as [F2 F3].
  rewrite F2 in E2. rewrite F3 in E3.
  replace (S (length prices - 2)) with (length prices - 1)%nat in E2, E3 by lia.
  congruence.
Qed.

(** X2.  [get_current_signal] answers exactly from eleven monthly closes on. *)
Theorem current_signal_none_iff (prices : price_series) :
  get_current_signal prices = None <-> (length prices < 11)%nat.
Proof.
  split; [|apply current_signal_guard].
  intros H. destruct (Nat.lt_ge_cases (length prices) 11) as [|Hn]; [assumption|].
  rewrite (current_signal_cells prices Hn) in H. discriminate.
Qed.

(** X3.  What [get_current_signal] reports.  When it answers, the table has at
    least eleven rows; "position" is the signal of the last period, 0 or 1;
    "new_buy" says that this signal is 1 after a 0 in the period before, and
    "new_sell" that it is 0 after a 1.  So a new buy comes with position 1, a
    new sell with position 0, and never both; and the position is 1 exactly
    when the trade loop of [backtest_stock] ends in the market on the same
    table. *)
Theorem current_signal_reads_last_two
  (prices : price_series) (pos : Z) (new_buy new_sell : bool) :
  get_current_signal prices = Some (pos, new_buy, new_sell) ->
  (11 <= length prices)%nat /\
  nth_error (signal (calculate_signals prices)) (length prices - 1) = Some pos /\
  (pos = 0 \/ pos = 1)%Z /\
  (exists prev,
     nth_error (signal (calculate_signals prices)) (length prices - 2)
       = Some prev /\
     new_buy = Z.eqb pos 1 && Z.eqb prev 0 /\
     new_sell = Z.eqb pos 0 && Z.eqb prev 1) /\
  (new_buy = true -> pos = 1%Z) /\
  (new_sell = true -> pos = 0%Z) /\
  new_buy && new_sell = false /\
  _in (run_loop loop_init (iterrows (signals (backtest_stock prices))))
    = Z.eqb pos 1.
Proof.
  intros H.
  assert (Hn : (11 <= length prices)%nat).
  { destruct (Nat.lt_ge_cases (length prices) 11) as [Hlt|]; [|assumption].
    rewrite (current_signal_guard prices Hlt) in H. discriminate. }
  rewrite (current_signal_cells prices Hn) in H.
  injection H as <- <- <-.
  set (a := state_at 2 10 (map snd prices) (length prices - 1)).
  set (b := state_at 2 10 (map snd prices) (length prices - 2)).
  assert (Ha : (a = 0 \/ a = 1)%Z) by apply state_at_01.
  assert (Hb : (b = 0 \/ b = 1)%Z) by apply state_at_01.
  split; [exact Hn|]. unfold calculate_signals; cbn [_cfg fst snd].
  split; [apply signal_cell; lia|]. split; [exact Ha|].
  split; [exists b; split; [apply signal_cell; lia | split; reflexivity]|].
  split; [|split; [|split]].
  - destruct Ha as [-> | ->]; [discriminate | reflexivity].
  - destruct Ha as [-> | ->]; [reflexivity | discriminate].
  - destruct Ha as [-> | ->], Hb as [-> | ->]; reflexivity.
  - unfold backtest_stock; cbn [signals].
    unfold calculate_signals; cbn [_cfg fst snd].
    destruct (loop_prefix 2 10 prices ltac:(lia) (length prices)
                (Nat.le_refl _)) as (Hin & _).
    pose proof (length_iterrows 2 10 prices) as Lr.
    rewrite firstn_all2 in Hin by lia.
    rewrite Hin. destruct (length prices) as [|j] eqn:En; [lia|].
    unfold a. now replace (S j - 1)%nat with j by lia.
Qed.

Lemma current_signal_reads_last_two_witness :
  (11 <= length dip_and_recovery)%nat /\
  _in (run_loop loop_init (iterrows (signals (backtest_stock dip_and_recovery))))
    = Z.eqb 1 1.
Proof.
  destruct (current_signal_reads_last_two dip_and_recovery 1 false false
              eq_refl) as (H1 & _ & _ & _ & _ & _ & _ & H2).
  split; assumption.
Defined.

(** X4.  The tab of this month's signals.  An instrument is listed under "new
    buy" exactly when its table has eleven closes or more and its signal is
    1 in the last period after 0 in the period before; under "new sell" when
    it is 0 after 1; under "hold" when it is 1 after 1; and it is listed
    nowhere when the table is shorter than eleven closes or the signal is 0
    after 0. *)
Theorem listing_by_last_two_signals (monthly : price_series) :
  (App.signal_list_of monthly = Some App.buy_list <->
   (11 <= length monthly)%nat /\
   nth (length monthly - 1) (signal (calculate_signals monthly)) 0%Z = 1%Z /\
   nth (length monthly - 2) (signal (calculate_signals monthly)) 0%Z = 0%Z) /\
  (App.signal_list_of monthly = Some App.sell_list <->
   (11 <= length monthly)%nat /\
   nth (length monthly - 1) (signal (calculate_signals monthly)) 0%Z = 0%Z /\
   nth (length monthly - 2) (signal (calculate_signals monthly)) 0%Z = 1%Z) /\
  (App.signal_list_of monthly = Some App.hold_list <->
   (11 <= length monthly)%nat /\
   nth (length monthly - 1) (signal (calculate_signals monthly)) 0%Z = 1%Z /\
   nth (length monthly - 2) (signal (calculate_signals monthly)) 0%Z = 1%Z) /\
  (App.signal_list_of monthly = None <->
   (length monthly < 11)%nat \/
   nth (length monthly - 1) (signal (calculate_signals monthly)) 0%Z = 0%Z /\
   nth (length monthly - 2) (signal (calculate_signals monthly)) 0%Z = 0%Z).
Proof.
  unfold App.signal_list_of.
  destruct (Nat.lt_ge_cases (length monthly) 11) as [Hlt|Hn].
  - replace (length monthly <? 11)%nat with true
      by (symmetry; now apply Nat.ltb_lt).
    rewrite orb_true_r.
    repeat split; try discriminate; try (intros (? & _); lia); auto.
  - replace (length monthly =? 0)%nat with false
      by (symmetry; apply Nat.eqb_neq; lia).
    replace (length monthly <? 11)%nat with false
      by (symmetry; apply Nat.ltb_ge; lia).
    cbn [orb]. rewrite (current_signal_cells monthly Hn).
    unfold calculate_signals; cbn [_cfg fst snd].
    assert (H1 : (length monthly - 1 < length monthly)%nat) by lia.
    assert (H2 : (length monthly - 2 < length monthly)%nat) by lia.
    rewrite (nth_error_nth _ _ 0%Z (signal_cell 2 10 monthly _ H1)),
            (nth_error_nth _ _ 0%Z (signal_cell 2 10 monthly _ H2)).
    destruct (state_at_01 2 10 monthly (length monthly - 1)) as [-> | ->],
             (state_at_01 2 10 monthly (length monthly - 2)) as [-> | ->];
      cbn; repeat split; try discriminate; try tauto; try lia;
      try (intros (_ & ? & ?); discriminate);
      try (intros [? | [? ?]]; [lia | discriminate]).
Qed.

(** ** No look-ahead *)

Lemma window_app w t (xs ys : list Q) :
  (w <= t + 1)%nat -> (t < length xs)%nat ->
  window w t (xs ++ ys) = window w t xs.
Proof.
  intros Hw Ht. unfold window. rewrite skipn_app, firstn_app, length_skipn.
  replace (w - (length xs - (t + 1 - w)))%nat with 0%nat by lia.
  cbn [firstn]. apply app_nil_r.
Qed.

Lemma state_at_app p q (xs ys : list Q) t :
  (t < length xs)%nat -> state_at p q (xs ++ ys) t = state_at p q xs t.
Proof.
  intros Ht. unfold state_at.
  destruct ((1 <=? p) && (p <=? t + 1))%nat eqn:Ep;
    destruct ((1 <=? q) && (q <=? t + 1))%nat eqn:Eq; try reflexivity.
  apply andb_true_iff in Ep, Eq. destruct Ep as [_ Ep], Eq as [_ Eq].
  apply Nat.leb_le in Ep, Eq. now rewrite !window_app by assumption.
Qed.

Lemma pct_change_app (xs ys : list Q) t :
  (t < length xs)%nat ->
  nth_error (pct_change (xs ++ ys)) t = nth_error (pct_change xs) t.
Proof.
  intros Ht. destruct t as [|t].
  - destruct xs; [cbn in Ht; lia | reflexivity].
  - destruct (nth_error xs t) as [p0|] eqn:E0;
      [|apply nth_error_None in E0; lia].
    destruct (nth_error xs (S t)) as [p1|] eqn:E1;
      [|apply nth_error_None in E1; lia].
    rewrite (nth_error_pct_change xs t p0 p1 E0 E1).
    apply nth_error_pct_change; rewrite nth_error_app1 by lia; assumption.
Qed.

Lemma firstn_ext {A} (l l' : list A) m :
  (forall j, (j < m)%nat -> nth_error l j = nth_error l' j) ->
  firstn m l = firstn m l'.
Proof.
  intros H. apply nth_error_ext. intros j. rewrite !nth_error_firstn.
  destruct (j <? m)%nat eqn:E; [|reflexivity].
  apply H. now apply Nat.ltb_lt.
Qed.

Lemma trades_only_grow rows st :
  exists later,
    trades_so_far (run_loop st rows) = trades_so_far st ++ later.
Proof.
  revert st. induction rows as [|row rows IH]; intros st.
  - exists []. cbn. now rewrite app_nil_r.
  - cbn [run_loop fold_left]. fold (run_loop (loop_body st row) rows).
    destruct (IH (loop_body st row)) as (later & ->).
    unfold loop_body.
    destruct (row_buy row && negb (_in st)); [now exists later|].
    destruct (row_sell row && _in st); [|now exists later].
    destruct (_ed st), (_ep st); try (now exists later).
    cbn [trades_so_far]. rewrite <- app_assoc. eauto.
Qed.

Section NoLookAhead.

Variables (p q : nat) (prices more : price_series).

#[local] Abbreviation longer := (calculate_signals_with p q (prices ++ more)).
#[local] Abbreviation shorter := (calculate_signals_with p q prices).

Lemma signal_app t :
  (t < length prices)%nat ->
  nth_error (signal longer) t = nth_error (signal shorter) t.
Proof.
  intros Ht. rewrite !signal_cell by (rewrite ?length_app; lia).
  now rewrite map_app, state_at_app by (rewrite length_map; exact Ht).
Qed.

Lemma averages_app t :
  (t < length prices)%nat ->
  nth_error (_x longer) t = nth_error (_x shorter) t /\
  nth_error (_y longer) t = nth_error (_y shorter) t.
Proof.
  intros Ht.
  destruct (average_cells p q (prices ++ more) t) as [Hx Hy];
    [rewrite length_app; lia|].
  destruct (average_cells p q prices t Ht) as [Hx' Hy'].
  rewrite Hx, Hy, Hx', Hy', map_app.
  split.
  - destruct ((1 <=? p) && (p <=? t + 1))%nat eqn:E; [|reflexivity].
    apply andb_true_iff in E. destruct E as [_ E]. apply Nat.leb_le in E.
    now rewrite window_app by (rewrite ?length_map; assumption).
  - destruct ((1 <=? q) && (q <=? t + 1))%nat eqn:E; [|reflexivity].
    apply andb_true_iff in E. destruct E as [_ E]. apply Nat.leb_le in E.
    now rewrite window_app by (rewrite ?length_map; assumption).
Qed.

Lemma position_app t :
  (t < length prices)%nat ->
  nth_error (position longer) t = nth_error (position shorter) t.
Proof.
  intros Ht. destruct t as [|t].
  - now rewrite !position_cell_0 by (rewrite ?length_app; lia).
  - rewrite !position_cell_S by (rewrite ?length_app; lia).
    now rewrite map_app, state_at_app by (rewrite length_map; lia).
Qed.

Lemma flags_app t :
  (t < length prices)%nat ->
  nth_error (buy longer) t = nth_error (buy shorter) t /\
  nth_error (sell longer) t = nth_error (sell shorter) t.
Proof.
  intros Ht. destruct (position_cell_ex p q prices t Ht) as [pc Hp].
  assert (Hp' : nth_error (position longer) t = Some pc)
    by (now rewrite position_app).
  assert (Ht' : (t < length (prices ++ more))%nat)
    by (rewrite length_app; lia).
  rewrite (buy_cell _ _ _ _ _ Ht' Hp'), (sell_cell _ _ _ _ _ Ht' Hp'),
    (buy_cell _ _ _ _ _ Ht Hp), (sell_cell _ _ _ _ _ Ht Hp).
  now rewrite map_app, state_at_app by (rewrite length_map; lia).
Qed.

Lemma rows_app :
  exists rest, iterrows longer = iterrows shorter ++ rest.
Proof.
  exists (skipn (length prices) (iterrows longer)).
  rewrite <- (firstn_skipn (length prices) (iterrows longer)) at 1.
  f_equal. apply nth_error_ext. intros j. rewrite nth_error_firstn.
  destruct (j <? length prices)%nat eqn:E.
  - apply Nat.ltb_lt in E. unfold iterrows.
    rewrite !nth_error_rows_of.
    destruct (flags_app j E) as [-> ->].
    unfold calculate_signals_with; cbn [index close].
    now rewrite !map_app, !nth_error_app1 by (rewrite length_map; exact E).
  - apply Nat.ltb_ge in E. symmetry. apply nth_error_None.
    now rewrite length_iterrows.
Qed.

End NoLookAhead.

(** X5.  The engine does not look ahead.  When later months are appended to a
    well-formed price table, nothing that was computed for the months
    already there changes: the averages, the signal, the position, the buy
    and sell flags, the strategy return and the cumulative growth of every
    earlier period are the same, and the trades recorded before are the
    first trades of the longer list. *)
Theorem no_look_ahead (prices more : price_series) :
  well_formed (prices ++ more) ->
  (forall t, (t < length prices)%nat ->
     nth_error (_x (signals (backtest_stock (prices ++ more)))) t
       = nth_error (_x (signals (backtest_stock prices))) t /\
     nth_error (_y (signals (backtest_stock (prices ++ more)))) t
       = nth_error (_y (signals (backtest_stock prices))) t /\
     nth_error (signal (signals (backtest_stock (prices ++ more)))) t
       = nth_error (signal (signals (backtest_stock prices))) t /\
     nth_error (position (signals (backtest_stock (prices ++ more)))) t
       = nth_error (position (signals (backtest_stock prices))) t /\
     nth_error (buy (signals (backtest_stock (prices ++ more)))) t
       = nth_error (buy (signals (backtest_stock prices))) t /\
     nth_error (sell (signals (backtest_stock (prices ++ more)))) t
       = nth_error (sell (signals (backtest_stock prices))) t /\
     nth_error (returns (backtest_stock (prices ++ more))) t
       = nth_error (returns (backtest_stock prices)) t /\
     nth_error (cumulative (backtest_stock (prices ++ more))) t
       = nth_error (cumulative (backtest_stock prices)) t) /\
  exists later,
    trades (backtest_stock (prices ++ more))
    = trades (backtest_stock prices) ++ later.
Proof.
  intros _.
  assert (Hret : forall t, (t < length prices)%nat ->
            nth_error (returns (backtest_stock (prices ++ more))) t
            = nth_error (returns (backtest_stock prices)) t).
  { intros t Ht. unfold backtest_stock; cbn [returns].
    unfold calculate_signals; cbn [_cfg fst snd].
    rewrite !nth_error_zip_with, position_app by exact Ht.
    unfold calculate_signals_with; cbn [close].
    now rewrite map_app, pct_change_app by (rewrite length_map; exact Ht). }
  split.
  - intros t Ht.
    destruct (averages_app 2 10 prices more t Ht) as [Hx Hy].
    destruct (flags_app 2 10 prices more t Ht) as [Hb Hs].
    split; [exact Hx|]. split; [exact Hy|].
    split; [now apply signal_app|]. split; [now apply position_app|].
    split; [exact Hb|]. split; [exact Hs|]. split; [now apply Hret|].
    destruct (length_returns prices) as [L1 _].
    destruct (length_returns (prices ++ more)) as [L2 _].
    rewrite length_app in L2.
    unfold backtest_stock in *; cbn [returns cumulative] in *.
    unfold cumprod.
    rewrite !nth_error_cumprod_from by (rewrite length_map; lia).
    unfold running_product. f_equal. f_equal.
    apply firstn_ext. intros j Hj. rewrite !nth_error_map.
    f_equal. apply Hret. lia.
  - unfold backtest_stock; cbn [trades signals].
    unfold calculate_signals; cbn [_cfg fst snd].
    destruct (rows_app 2 10 prices more) as (rest & ->).
    unfold run_loop at 1. rewrite fold_left_app.
    apply trades_only_grow.
Qed.

Lemma no_look_ahead_witness :
  exists later,
    trades (backtest_stock (round_trip ++ months_from 14 [7; 8]))
    = trades (backtest_stock round_trip) ++ later.
Proof.
  apply (no_look_ahead round_trip (months_from 14 [7; 8])).
  split; [unfold increasing; cbn|]; repeat constructor.
Defined.

(** ** Prices that never move, and prices that stay positive *)

Lemma in_zip_with_in {A B C} (f : A -> B -> C) xs ys z :
  In z (zip_with f xs ys) -> exists x y, In x xs /\ In y ys /\ z = f x y.
Proof.
  revert ys. induction xs as [|x xs IH]; intros [|y ys]; cbn; try tauto.
  intros [<-|H].
  - exists x, y. auto.
  - destruct (IH _ H) as (a & b & Ha & Hb & E). exists a, b. auto.
Qed.

Lemma Forall_nth_error_intro {A} (P : A -> Prop) l :
  (forall t x, nth_error l t = Some x -> P x) -> Forall P l.
Proof.
  intros H. apply Forall_forall. intros x Hx.
  destruct (In_nth_error _ _ Hx) as (t & Ht). eauto.
Qed.

Lemma Forall_window (P : Q -> Prop) w t xs :
  Forall P xs -> Forall P (window w t xs).
Proof.
  intros H. unfold window.
  rewrite <- (firstn_skipn (t + 1 - w) xs) in H.
  apply Forall_app in H. destruct H as [_ H].
  rewrite <- (firstn_skipn w (skipn (t + 1 - w) xs)) in H.
  apply Forall_app in H. tauto.
Qed.

Lemma window_nonempty w t (xs : list Q) :
  (1 <= w)%nat -> (w <= t + 1)%nat -> (t < length xs)%nat ->
  window w t xs <> [].
Proof.
  intros H1 Hw Ht E. apply (f_equal (@length _)) in E.
  unfold window in E. rewrite length_firstn, length_skipn in E.
  cbn in E. lia.
Qed.

Lemma state_at_constant p q (col : list Q) c t :
  Forall (fun x => x == c) col -> (t < length col)%nat ->
  state_at p q col t = 0%Z.
Proof.
  intros Hc Ht. unfold state_at.
  destruct ((1 <=? p) && (p <=? t + 1))%nat eqn:Ep; [|reflexivity].
  destruct ((1 <=? q) && (q <=? t + 1))%nat eqn:Eq; [|reflexivity].
  apply andb_true_iff in Ep, Eq. destruct Ep as [Ep1 Ep], Eq as [Eq1 Eq].
  apply Nat.leb_le in Ep1, Ep, Eq1, Eq. cbn [fgt].
  pose proof (mean_constant c _ (window_nonempty p t col Ep1 Ep Ht)
                (Forall_window _ p t col Hc)) as Mp.
  pose proof (mean_constant c _ (window_nonempty q t col Eq1 Eq Ht)
                (Forall_window _ q t col Hc)) as Mq.
  destruct (Qlt_bool _ _) eqn:E; [|reflexivity].
  apply Qlt_bool_iff in E. rewrite Mp, Mq in E.
  exfalso. exact (Qlt_irrefl _ E).
Qed.

Lemma rows_flags ix cl b s r :
  In r (rows_of ix cl b s) -> In (row_buy r) b /\ In (row_sell r) s.
Proof.
  revert cl b s. induction ix as [|i ix IH]; intros [|c cl] [|b0 b] [|s0 s];
    cbn; try tauto.
  intros [<-|H]; cbn; [auto|].
  destruct (IH _ _ _ H). auto.
Qed.

Lemma run_loop_idle rows st :
  Forall (fun r => row_buy r = false /\ row_sell r = false) rows ->
  run_loop st rows = st.
Proof.
  induction 1 as [|r rows [Hb Hs] _ IH]; [reflexivity|].
  cbn [run_loop fold_left]. unfold loop_body at 2. rewrite Hb, Hs.
  cbn [andb]. exact IH.
Qed.

Lemma cumprod_from_ones acc xs :
  acc == 1 -> Forall (fun x => x == 1) xs ->
  Forall (fun c => c == 1) (cumprod_from acc xs).
Proof.
  intros Ha H. revert acc Ha.
  induction H as [|x xs Hx _ IH]; intros acc Ha; cbn; [constructor|].
  assert (E : acc * x == 1) by (rewrite Ha, Hx; ring).
  constructor; [exact E | now apply IH].
Qed.

(** X6.  A price that never moves is never bought.  On a table whose closes are
    all the same positive number -- of any length -- the two averages are
    equal wherever both exist, the comparison [short > long] is false, and
    so the signal is 0 in every period, no buy or sell flag is raised, no
    trade is recorded, every strategy return counts as 0 and the cumulative
    growth stays at 1. *)
Theorem constant_prices_never_trade (prices : price_series) (c : Q) :
  0 < c ->
  Forall (fun e => snd e == c) prices ->
  Forall (fun s => s = 0%Z) (signal (signals (backtest_stock prices))) /\
  Forall (fun b => b = false) (buy (signals (backtest_stock prices))) /\
  Forall (fun b => b = false) (sell (signals (backtest_stock prices))) /\
  trades (backtest_stock prices) = [] /\
  Forall (fun r => fillna 0 r == 0) (returns (backtest_stock prices)) /\
  Forall (fun g => g == 1) (cumulative (backtest_stock prices)).
Proof.
  intros _ Hc.
  assert (Hcol : Forall (fun x => x == c) (map snd prices))
    by (now apply Forall_map).
  unfold backtest_stock; cbn [signals trades returns cumulative].
  unfold calculate_signals; cbn [_cfg fst snd].
  assert (Hsig : Forall (fun s => s = 0%Z)
                   (signal (calculate_signals_with 2 10 prices))).
  { apply Forall_nth_error_intro. intros t x Hx.
    assert (Ht : (t < length prices)%nat).
    { rewrite <- (length_signal 2 10). apply nth_error_Some. congruence. }
    rewrite signal_cell in Hx by exact Ht. injection Hx as <-.
    apply (state_at_constant 2 10 _ c); [exact Hcol|].
    now rewrite length_map. }
  assert (Hpos : Forall (fun x => x = None \/ x = Some 0)
                   (position (calculate_signals_with 2 10 prices))).
  { apply Forall_forall. intros x Hx.
    unfold calculate_signals_with in Hx; cbn [position] in Hx.
    apply in_shift1 in Hx. destruct Hx as [->|Hx]; [now left|]. right.
    unfold as_float in Hx. apply in_map_iff in Hx.
    destruct Hx as (z & <- & Hz).
    rewrite Forall_forall in Hsig.
    change (In z (signal (calculate_signals_with 2 10 prices))) in Hz.
    now rewrite (Hsig z Hz). }
  assert (Hbuy : Forall (fun b => b = false)
                   (buy (calculate_signals_with 2 10 prices))).
  { apply Forall_forall. intros b Hb.
    unfold calculate_signals_with in Hb; cbn [buy] in Hb.
    apply in_zip_with_in in Hb. destruct Hb as (s & pc & Hs & _ & ->).
    rewrite Forall_forall in Hsig.
    change (In s (signal (calculate_signals_with 2 10 prices))) in Hs.
    now rewrite (Hsig s Hs). }
  assert (Hsell : Forall (fun b => b = false)
                    (sell (calculate_signals_with 2 10 prices))).
  { apply Forall_forall. intros b Hb.
    unfold calculate_signals_with in Hb; cbn [sell] in Hb.
    apply in_zip_with_in in Hb. destruct Hb as (s & pc & _ & Hp & ->).
    rewrite Forall_forall in Hpos.
    change (In pc (position (calculate_signals_with 2 10 prices))) in Hp.
    destruct (Hpos pc Hp) as [-> | ->]; cbn; apply andb_false_r. }
  assert (Hret : Forall (fun r => fillna 0 r == 0)
                   (zip_with fmul (position (calculate_signals_with 2 10 prices))
                      (pct_change (close (calculate_signals_with 2 10 prices))))).
  { apply Forall_forall. intros r Hr.
    apply in_zip_with_in in Hr. destruct Hr as (x & y & Hx & _ & ->).
    rewrite Forall_forall in Hpos.
    destruct (Hpos x Hx) as [-> | ->]; [reflexivity|].
    destruct y as [v|]; cbn [fmul fillna]; [ring | reflexivity]. }
  split; [exact Hsig|]. split; [exact Hbuy|]. split; [exact Hsell|].
  split; [|split; [exact Hret|]].
  - rewrite run_loop_idle; [reflexivity|].
    apply Forall_forall. intros r Hr. unfold iterrows in Hr.
    apply rows_flags in Hr. destruct Hr as [Hb Hs].
    rewrite Forall_forall in Hbuy, Hsell. auto.
  - unfold cumprod. apply cumprod_from_ones; [reflexivity|].
    apply Forall_map. eapply Forall_impl; [|exact Hret].
    intros r Hr. cbn in Hr. rewrite Hr. ring.
Qed.

Lemma constant_prices_never_trade_witness :
  trades (backtest_stock flat) = [].
Proof.
  apply (constant_prices_never_trade flat 100); [reflexivity|].
  unfold flat. cbn. repeat constructor.
Defined.

Lemma pct_from_above (prev : Q) (xs : list Q) :
  0 < prev -> Forall (fun x => 0 < x) xs ->
  Forall (fun r => match r with Some v => -1 < v | None => True end)
         (pct_from prev xs).
Proof.
  intros Hp H. revert prev Hp.
  induction H as [|x xs Hx _ IH]; intros prev Hp; cbn; [constructor|].
  constructor; [|now apply IH].
  assert (Hq : 0 < x / prev).
  { apply Qlt_shift_div_l; [exact Hp|]. Lqa.lra. }
  Lqa.lra.
Qed.

Lemma pct_change_above (xs : list Q) :
  Forall (fun x => 0 < x) xs ->
  Forall (fun r => match r with Some v => -1 < v | None => True end)
         (pct_change xs).
Proof.
  intros H. destruct H as [|x xs Hx Hxs]; cbn; [constructor|].
  constructor; [exact I | now apply pct_from_above].
Qed.

Lemma gated_return_above (x y : fval) :
  x = None \/ x = Some 0 \/ x = Some 1 ->
  match y with Some v => -1 < v | None => True end ->
  match fmul x y with Some v => -1 < v | None => True end.
Proof.
  intros [-> | [-> | ->]] Hy; destruct y as [v|]; cbn; try exact I; Lqa.lra.
Qed.

(** X7.  With positive closes a position can lose less than everything.  On a
    well-formed price table every strategy return of the single-instrument
    backtester is strictly above -100%, and so its cumulative growth is
    positive in every period: whatever the prices do, the growth never
    reaches 0, and the maximum drawdown of these returns is never 0/0. *)
Theorem stock_growth_positive (prices : price_series) :
  well_formed prices ->
  Forall (fun r => match r with Some v => -1 < v | None => True end)
         (returns (backtest_stock prices)) /\
  Forall (fun c => 0 < c) (cumulative (backtest_stock prices)).
Proof.
  intros [_ Hpos].
  assert (Hret :
    Forall (fun r => match r with Some v => -1 < v | None => True end)
           (returns (backtest_stock prices))).
  { unfold backtest_stock; cbn [returns]. apply Forall_forall. intros r Hr.
    apply in_zip_with_in in Hr. destruct Hr as (x & y & Hx & Hy & ->).
    apply gated_return_above.
    - exact (position_values _ _ _ _ Hx).
    - assert (Hall := pct_change_above (map snd prices)
                        ltac:(now apply Forall_map)).
      rewrite Forall_forall in Hall. apply Hall. exact Hy. }
  split; [exact Hret|].
  unfold backtest_stock in *; cbn [returns cumulative] in *.
  apply cumprod_from_pos; [Lqa.lra | now apply factors_pos].
Qed.

Lemma stock_growth_positive_witness :
  Forall (fun c => 0 < c) (cumulative (backtest_stock crash)).
Proof.
  apply (stock_growth_positive crash).
  split; [unfold increasing; cbn|]; repeat constructor.
Defined.

(** ** Win rate and profit/loss ratio *)

Lemma filter_length_mono {A} (f g : A -> bool) (l : list A) :
  (forall x, f x = true -> g x = true) ->
  (length (filter f l) <= length (filter g l))%nat.
Proof.
  intros H. induction l as [|a l IH]; cbn; [lia|].
  destruct (f a) eqn:Ef.
  - rewrite (H a Ef). cbn. lia.
  - destruct (g a); cbn; lia.
Qed.

Lemma filter_none {A} (f : A -> bool) (l : list A) :
  Forall (fun x => f x = false) l -> filter f l = [].
Proof.
  induction 1 as [|a l Ha _ IH]; cbn; [reflexivity|]. now rewrite Ha.
Qed.

Lemma filter_all {A} (f : A -> bool) (l : list A) :
  Forall (fun x => f x = true) l -> filter f l = l.
Proof.
  induction 1 as [|a l Ha _ IH]; cbn; [reflexivity|]. now rewrite Ha, IH.
Qed.

Lemma inject_nat_pos (n : nat) :
  (0 < n)%nat -> 0 < inject_Z (Z.of_nat n).
Proof.
  intros H. change 0 with (inject_Z 0). rewrite <- Zlt_Qlt. lia.
Qed.

Lemma inject_nat_le (n m : nat) :
  (n <= m)%nat -> inject_Z (Z.of_nat n) <= inject_Z (Z.of_nat m).
Proof. intros H. rewrite <- Zle_Qle. lia. Qed.

(** X8.  The win rate is a percentage.  It lies between 0 and 100 for every
    return series; it is 0 when no month has a positive return, so also
    when every return is 0 and the quotient has nothing to divide by; and it
    is 100 when some month wins and none loses, months with a return of 0
    not being counted. *)
Theorem win_rate_range (rs : list Q) :
  0 <= win_rate_of rs /\ win_rate_of rs <= 100 /\
  (Forall (fun r => r <= 0) rs -> win_rate_of rs == 0) /\
  (Forall (fun r => 0 <= r) rs -> (exists r, In r rs /\ 0 < r) ->
   win_rate_of rs == 100).
Proof.
  unfold win_rate_of.
  set (P := length (filter (Qlt_bool 0) rs)).
  set (T := length (filter (fun r => negb (Qeq_bool r 0)) rs)).
  assert (HPT : (P <= T)%nat).
  { apply filter_length_mono. intros x Hx. apply Qlt_bool_iff in Hx.
    apply negb_true_iff. destruct (Qeq_bool x 0) eqn:E; [|reflexivity].
    apply Qeq_bool_iff in E. exfalso. Lqa.lra. }
  destruct (0 <? T)%nat eqn:ET.
  - apply Nat.ltb_lt in ET.
    pose proof (inject_nat_pos T ET) as Hb.
    pose proof (inject_nat_le P T HPT) as Hab.
    assert (Ha : 0 <= inject_Z (Z.of_nat P)).
    { change 0 with (inject_Z 0). rewrite <- Zle_Qle. lia. }
    set (a := inject_Z (Z.of_nat P)) in *.
    set (b := inject_Z (Z.of_nat T)) in *.
    assert (H0 : 0 <= a / b) by (apply Qle_shift_div_l; [exact Hb | Lqa.lra]).
    assert (H1 : a / b <= 1) by (apply Qle_shift_div_r; [exact Hb | Lqa.lra]).
    split; [Lqa.lra|]. split; [Lqa.lra|]. split.
    + intros Hneg.
      assert (EP : P = 0%nat).
      { unfold P. rewrite filter_none; [reflexivity|].
        eapply Forall_impl; [|exact Hneg]. intros r Hr. cbn in Hr.
        now apply Qlt_bool_false_iff. }
      unfold a. rewrite EP. cbn. unfold Qdiv. ring.
    + intros Hnn _.
      assert (EP : P = T).
      { unfold P, T. f_equal. apply filter_ext_in. intros r Hr.
        rewrite Forall_forall in Hnn. specialize (Hnn r Hr).
        destruct (Qlt_bool 0 r) eqn:E1, (Qeq_bool r 0) eqn:E2;
          try reflexivity.
        - apply Qlt_bool_iff in E1. apply Qeq_bool_iff in E2. Lqa.lra.
        - apply Qlt_bool_false_iff in E1. apply Qeq_bool_neq in E2.
          exfalso. apply E2. Lqa.lra. }
      unfold a, b. rewrite EP. fold b. field. Lqa.lra.
  - apply Nat.ltb_ge in ET. assert (ET0 : T = 0%nat) by lia.
    split; [Lqa.lra|]. split; [Lqa.lra|]. split; [intros _; reflexivity|].
    intros _ (r & Hr & Hpos). exfalso.
    assert (Hin : In r (filter (fun r => negb (Qeq_bool r 0)) rs)).
    { apply filter_In. split; [exact Hr|]. apply negb_true_iff.
      destruct (Qeq_bool r 0) eqn:E; [|reflexivity].
      apply Qeq_bool_iff in E. Lqa.lra. }
    unfold T in ET0. apply length_zero_iff_nil in ET0.
    rewrite ET0 in Hin. destruct Hin.
Qed.

Lemma sum_pos (xs : list Q) :
  xs <> [] -> Forall (fun x => 0 < x) xs -> 0 < sum xs.
Proof.
  intros Hne H. induction H as [|x xs Hx Hxs IH]; [congruence|].
  cbn [sum fold_right]. fold (sum xs).
  destruct xs as [|y ys]; [cbn; Lqa.lra|].
  assert (0 < sum (y :: ys)) by (apply IH; discriminate). Lqa.lra.
Qed.

Lemma mean_pos (xs : list Q) :
  xs <> [] -> Forall (fun x => 0 < x) xs -> 0 < mean xs.
Proof.
  intros Hne H. unfold mean. apply Qlt_shift_div_l.
  - apply inject_nat_pos. destruct xs; [congruence | cbn; lia].
  - pose proof (sum_pos xs Hne H). Lqa.lra.
Qed.

Lemma mean_opp (xs : list Q) : mean (map Qopp xs) == - mean xs.
Proof.
  unfold mean. rewrite length_map.
  assert (E : sum (map Qopp xs) == - sum xs).
  { induction xs as [|x xs IH]; cbn; [reflexivity|].
    unfold sum in *. rewrite IH. ring. }
  rewrite E. unfold Qdiv. ring.
Qed.

Lemma mean_neg (xs : list Q) :
  xs <> [] -> Forall (fun x => x < 0) xs -> mean xs < 0.
Proof.
  intros Hne H.
  assert (Hp : 0 < mean (map Qopp xs)).
  { apply mean_pos.
    - destruct xs; [congruence | discriminate].
    - apply Forall_map. eapply Forall_impl; [|exact H].
      intros x Hx. cbn in Hx. Lqa.lra. }
  rewrite mean_opp in Hp. Lqa.lra.
Qed.

Lemma existsb_filter_nonempty {A} (f : A -> bool) (l : list A) :
  existsb f l = true -> filter f l <> [].
Proof.
  intros H E. apply existsb_exists in H. destruct H as (x & Hx & Hf).
  assert (Hin : In x (filter f l)) by (apply filter_In; auto).
  rewrite E in Hin. destruct Hin.
Qed.

Lemma avg_loss_pos (rs : list Q) : 0 < avg_loss rs.
Proof.
  unfold avg_loss. destruct (existsb _ rs) eqn:E; [|reflexivity].
  assert (Hm : mean (filter (fun r => Qlt_bool r 0) rs) < 0).
  { apply mean_neg; [now apply existsb_filter_nonempty|].
    apply Forall_forall. intros x Hx. apply filter_In in Hx.
    now apply Qlt_bool_iff. }
  rewrite Qabs_neg by Lqa.lra. Lqa.lra.
Qed.

Lemma avg_win_nonneg (rs : list Q) : 0 <= avg_win rs.
Proof.
  unfold avg_win. destruct (existsb _ rs) eqn:E; [|Lqa.lra].
  apply Qlt_le_weak. apply mean_pos; [now apply existsb_filter_nonempty|].
  apply Forall_forall. intros x Hx. apply filter_In in Hx.
  now apply Qlt_bool_iff.
Qed.

(** X9.  The profit/loss ratio always is the quotient [avg_win / avg_loss].  The
    divisor is positive for every return series -- the size of the mean of
    the losing returns when there is one, 1 otherwise -- so the fallback
    value 0 of the guard [avg_loss > 0] is never what the program returns.
    The ratio is not negative; it is 0 when no month wins, and it is the
    mean winning return itself when no month loses. *)
Theorem profit_loss_ratio_is_quotient (rs : list Q) :
  0 < avg_loss rs /\
  profit_loss_ratio_of rs = avg_win rs / avg_loss rs /\
  0 <= profit_loss_ratio_of rs /\
  (Forall (fun r => r <= 0) rs -> profit_loss_ratio_of rs == 0) /\
  (Forall (fun r => 0 <= r) rs ->
   profit_loss_ratio_of rs == avg_win rs) /\
  ((exists r, In r rs /\ 0 < r) -> 0 < profit_loss_ratio_of rs).
Proof.
  pose proof (avg_loss_pos rs) as Hl.
  pose proof (avg_win_nonneg rs) as Hw.
  assert (E : profit_loss_ratio_of rs = avg_win rs / avg_loss rs).
  { unfold profit_loss_ratio_of. fold (avg_win rs). fold (avg_loss rs).
    apply Qlt_bool_iff in Hl. now rewrite Hl. }
  split; [exact Hl|]. split; [exact E|]. rewrite E.
  split; [|split; [|split]].
  - apply Qle_shift_div_l; [exact Hl | Lqa.lra].
  - intros Hneg.
    assert (Ew : avg_win rs = 0).
    { unfold avg_win. destruct (existsb _ rs) eqn:Ex; [|reflexivity].
      apply existsb_exists in Ex. destruct Ex as (x & Hx & Hpos).
      apply Qlt_bool_iff in Hpos. rewrite Forall_forall in Hneg.
      specialize (Hneg x Hx). cbn in Hneg. exfalso. Lqa.lra. }
    rewrite Ew. unfold Qdiv. ring.
  - intros Hnn.
    assert (El : avg_loss rs = 1).
    { unfold avg_loss. destruct (existsb _ rs) eqn:Ex; [|reflexivity].
      apply existsb_exists in Ex. destruct Ex as (x & Hx & Hlt).
      apply Qlt_bool_iff in Hlt. rewrite Forall_forall in Hnn.
      specialize (Hnn x Hx). cbn in Hnn. exfalso. Lqa.lra. }
    rewrite El. unfold Qdiv. field.
  - intros (r & Hr & Hpos).
    assert (Hwp : 0 < avg_win rs).
    { unfold avg_win.
      assert (Ex : existsb (Qlt_bool 0) rs = true).
      { apply existsb_exists. exists r. split; [exact Hr|].
        now apply Qlt_bool_iff. }
      rewrite Ex. apply mean_pos; [now apply existsb_filter_nonempty|].
      apply Forall_forall. intros x Hx. apply filter_In in Hx.
      now apply Qlt_bool_iff. }
    apply Qlt_shift_div_l; [exact Hl | Lqa.lra].
Qed.

(** ** The annualised return *)

Lemma Rpower_base_one (y : R) : Rpower 1 y = 1%R.
Proof. unfold Rpower. rewrite ln_1, Rmult_0_r. exact exp_0. Qed.

Lemma Q2R_one (v : Q) : v == 1 -> Q2R v = 1%R.
Proof.
  intros H. rewrite (Qeq_eqR _ _ H). unfold Q2R. cbn. Lra.lra.
Qed.

Lemma Q2R_pos (v : Q) : 0 < v -> (0 < Q2R v)%R.
Proof.
  intros H. apply Qlt_Rlt in H. now rewrite (Q2R_zero 0 (Qeq_refl 0)) in H.
Qed.

Lemma years_pos (rs : list Q) :
  rs <> [] -> 0 < inject_Z (Z.of_nat (length rs)) / 12.
Proof.
  intros Hne. apply Qlt_shift_div_l; [reflexivity|].
  assert (H : 0 < inject_Z (Z.of_nat (length rs)))
    by (apply inject_nat_pos; destruct rs; [congruence | cbn; lia]).
  Lqa.lra.
Qed.

(** X10.  The annualised return goes with the cumulative return.  For a return
    series with a defined return: when the final growth is positive, the
    CAGR is positive, negative or 0 as the cumulative return is, and over
    exactly twelve months it is the cumulative return itself; when the
    final growth is 0 or less -- everything was lost -- the program reports a
    CAGR of 0, not of -100%.  So the reported CAGR is always above -100%. *)
Theorem cagr_follows_total_return (rs : list Q) :
  rs <> [] ->
  (-1 < cagr_of rs)%R /\
  (last (cumulative_of rs) 1 <= 0 -> cagr_of rs = 0%R) /\
  (0 < last (cumulative_of rs) 1 ->
   (0 < total_return_of rs -> (0 < cagr_of rs)%R) /\
   (total_return_of rs < 0 -> (cagr_of rs < 0)%R) /\
   (total_return_of rs == 0 -> cagr_of rs = 0%R) /\
   (length rs = 12%nat -> cagr_of rs = Q2R (total_return_of rs))).
Proof.
  intros Hne. pose proof (years_pos rs Hne) as Hy.
  assert (Hloss : last (cumulative_of rs) 1 <= 0 -> cagr_of rs = 0%R).
  { intros H. unfold cagr_of. apply Qlt_bool_false_iff in H. rewrite H.
    now rewrite andb_false_r. }
  assert (Hgain : 0 < last (cumulative_of rs) 1 ->
            cagr_of rs
            = (Rpower (Q2R (last (cumulative_of rs) 1%Q))
                 (1 / Q2R (inject_Z (Z.of_nat (length rs)) / 12)) - 1)%R).
  { intros H. unfold cagr_of. apply Qlt_bool_iff in H, Hy.
    now rewrite H, Hy. }
  assert (Hexp : (0 < 1 / Q2R (inject_Z (Z.of_nat (length rs)) / 12))%R).
  { apply Q2R_pos in Hy. unfold Rdiv. rewrite Rmult_1_l.
    now apply Rinv_0_lt_compat. }
  split; [|split; [exact Hloss|]].
  - destruct (Qlt_le_dec 0 (last (cumulative_of rs) 1)) as [H|H].
    + rewrite (Hgain H). unfold Rpower.
      pose proof (exp_pos
        (1 / Q2R (inject_Z (Z.of_nat (length rs)) / 12)
         * ln (Q2R (last (cumulative_of rs) 1%Q)))). Lra.lra.
    + rewrite (Hloss H). Lra.lra.
  - intros H. rewrite (Hgain H). unfold total_return_of.
    set (final := last (cumulative_of rs) 1) in *.
    set (y := (1 / Q2R (inject_Z (Z.of_nat (length rs)) / 12))%R) in *.
    pose proof (Q2R_pos final H) as Hf.
    split; [|split; [|split]].
    + intros Hup. assert (H1 : (1 < Q2R final)%R).
      { assert (Hlt : 1 < final) by Lqa.lra. apply Qlt_Rlt in Hlt.
        now rewrite (Q2R_one 1 (Qeq_refl 1)) in Hlt. }
      pose proof (Rlt_Rpower_l 1 (Q2R final) y Hexp ltac:(Lra.lra)) as Hp.
      rewrite Rpower_base_one in Hp. Lra.lra.
    + intros Hdown. assert (H1 : (Q2R final < 1)%R).
      { assert (Hlt : final < 1) by Lqa.lra. apply Qlt_Rlt in Hlt.
        now rewrite (Q2R_one 1 (Qeq_refl 1)) in Hlt. }
      pose proof (Rlt_Rpower_l (Q2R final) 1 y Hexp ltac:(Lra.lra)) as Hp.
      rewrite Rpower_base_one in Hp. Lra.lra.
    + intros Hsame. assert (E : final == 1) by Lqa.lra.
      rewrite (Q2R_one final E), Rpower_base_one. Lra.lra.
    + intros Hlen. unfold y. rewrite Hlen.
      rewrite (Q2R_one (inject_Z (Z.of_nat 12) / 12) ltac:(reflexivity)).
      replace (1 / 1)%R with 1%R by Lra.lra.
      rewrite (Rpower_1 _ Hf), Q2R_minus, (Q2R_one 1 (Qeq_refl 1)).
      reflexivity.
Qed.

Lemma cagr_follows_total_return_witness :
  (-1 < cagr_of [1 # 10; -1 # 5])%R /\ cagr_of [1 # 2; -1; 1 # 2] = 0%R.
Proof.
  split.
  - apply (cagr_follows_total_return [1 # 10; -1 # 5]). discriminate.
  - destruct (cagr_follows_total_return [1 # 2; -1; 1 # 2])
      as (_ & H & _); [discriminate|].
    apply H. vm_compute. discriminate.
Defined.

(** ** The names in the dictionary *)

Lemma intersection_in a b ts :
  In ts a -> In ts b -> In ts (intersection a b).
Proof.
  intros Ha Hb. unfold intersection. apply filter_In. split; [exact Ha|].
  apply existsb_exists. exists ts. split; [exact Hb | apply Z.eqb_refl].
Qed.

Lemma benchmark_metrics_keys (returns : list (Z * Q)) (bm : option series) :
  (map fst (benchmark_metrics returns bm) = benchmark_keys /\
   exists b ts, bm = Some b /\ In ts (map fst returns) /\
                In ts (map fst (dropna b))) \/
  (benchmark_metrics returns bm = [] /\
   ~ exists b ts, bm = Some b /\ In ts (map fst returns) /\
                  In ts (map fst (dropna b))).
Proof.
  unfold benchmark_metrics. destruct bm as [b|].
  - destruct (intersection (map fst returns) (map fst (dropna b)))
      as [|ts common] eqn:E.
    + right. split; [reflexivity|]. intros (b' & ts & [= <-] & Hr & Hb).
      pose proof (intersection_in _ _ _ Hr Hb) as Hin.
      rewrite E in Hin. destruct Hin.
    + left. split; [reflexivity|]. exists b, ts. split; [reflexivity|].
      apply in_intersection. rewrite E. now left.
  - right. split; [reflexivity|]. intros (b & ts & H & _). discriminate.
Qed.

(** X11.  The dictionary of scalars has a fixed set of names.  For a return
    series with a defined return it carries the six scalars of the strategy,
    in a fixed order, and after them the four scalars of the benchmark
    exactly when a benchmark is given that has a defined value in some
    period in which the strategy has a defined return; the ten names are
    distinct, so no scalar of the benchmark replaces one of the strategy. *)
Theorem metrics_names (returns_series : series)
  (benchmark_series : option series) :
  dropna returns_series <> [] ->
  (map fst (calculate_metrics returns_series benchmark_series)
     = strategy_keys ++ benchmark_keys <->
   exists b ts, benchmark_series = Some b /\
                In ts (map fst (dropna returns_series)) /\
                In ts (map fst (dropna b))) /\
  (map fst (calculate_metrics returns_series benchmark_series)
     = strategy_keys <->
   ~ exists b ts, benchmark_series = Some b /\
                  In ts (map fst (dropna returns_series)) /\
                  In ts (map fst (dropna b))) /\
  NoDup (strategy_keys ++ benchmark_keys).
Proof.
  intros Hne.
  assert (E : map fst (calculate_metrics returns_series benchmark_series)
              = strategy_keys
                ++ map fst (benchmark_metrics (dropna returns_series)
                              benchmark_series)).
  { unfold calculate_metrics.
    destruct (dropna returns_series) as [|e es]; [congruence|].
    now rewrite map_app. }
  rewrite E.
  split; [|split].
  - destruct (benchmark_metrics_keys (dropna returns_series) benchmark_series)
      as [[Hk Hex] | [Hk Hno]]; rewrite Hk.
    + tauto.
    + split; [discriminate | tauto].
  - destruct (benchmark_metrics_keys (dropna returns_series) benchmark_series)
      as [[Hk Hex] | [Hk Hno]]; rewrite Hk.
    + split; [discriminate | tauto].
    + cbn [map]. rewrite app_nil_r. tauto.
  - assert (H : nodup String.string_dec (strategy_keys ++ benchmark_keys)
                = strategy_keys ++ benchmark_keys) by (vm_compute; reflexivity).
    rewrite <- H. apply NoDup_nodup.
Qed.

Lemma metrics_names_witness :
  NoDup (strategy_keys ++ benchmark_keys).
Proof.
  apply (metrics_names [(1%Z, Some (1 # 10))] None). discriminate.
Defined.

(** ** The index of the portfolio table *)

Lemma in_insert_label z l x : In x (insert_label z l) <-> x = z \/ In x l.
Proof.
  induction l as [|y l IH]; cbn.
  - intuition.
  - destruct (Z.ltb_spec z y); [cbn; intuition|].
    destruct (Z.eqb_spec z y) as [->|Hne]; cbn; [intuition|].
    rewrite IH. intuition.
Qed.

Lemma insert_label_sorted z l :
  increasing l -> increasing (insert_label z l).
Proof.
  unfold increasing. induction 1 as [|y l Hl IH Hy]; cbn.
  - repeat constructor.
  - destruct (Z.ltb_spec z y) as [Hzy|Hzy].
    + constructor; [now constructor|]. constructor; [exact Hzy|].
      eapply Forall_impl; [|exact Hy]. intros a Ha. cbn in Ha. lia.
    + destruct (Z.eqb_spec z y) as [->|Hne]; [now constructor|].
      constructor; [exact IH|]. apply Forall_forall. intros a Ha.
      apply in_insert_label in Ha. destruct Ha as [->|Ha]; [lia|].
      rewrite Forall_forall in Hy. now apply Hy.
Qed.

Lemma fold_insert_label xs acc :
  increasing acc ->
  increasing (fold_left (fun a z => insert_label z a) xs acc) /\
  forall x, In x (fold_left (fun a z => insert_label z a) xs acc)
            <-> In x acc \/ In x xs.
Proof.
  revert acc. induction xs as [|z xs IH]; intros acc Hacc; cbn.
  - split; [exact Hacc | intuition].
  - destruct (IH (insert_label z acc) (insert_label_sorted z acc Hacc))
      as [Hs Hin].
    split; [exact Hs|]. intros x. rewrite Hin, in_insert_label. intuition.
Qed.

Lemma union_index_spec (d : list (String.string * series)) :
  increasing (union_index d) /\
  forall x, In x (union_index d)
            <-> exists c, In c d /\ In x (map fst (snd c)).
Proof.
  unfold union_index.
  destruct (fold_insert_label (flat_map (fun c => map fst (snd c)) d) [])
    as [Hs Hin]; [constructor|].
  split; [exact Hs|]. intros x. rewrite Hin, in_flat_map. cbn. intuition.
Qed.

Lemma map_fst_combine {A B} (l : list A) (l' : list B) :
  length l = length l' -> map fst (combine l l') = l.
Proof.
  revert l'. induction l as [|a l IH]; intros [|b l'] H; try discriminate;
    cbn; [reflexivity|]. f_equal. apply IH. now injection H.
Qed.

Lemma labels_position_series mdf :
  map fst (position_series mdf) = map fst mdf.
Proof.
  unfold position_series, calculate_signals.
  rewrite map_fst_combine; [reflexivity|].
  rewrite length_position. unfold calculate_signals_with; cbn [index].
  apply length_map.
Qed.

Lemma labels_return_series mdf :
  map fst (return_series mdf) = map fst mdf.
Proof.
  unfold return_series, calculate_signals.
  rewrite map_fst_combine; [reflexivity|].
  rewrite length_pct_change. unfold calculate_signals_with; cbn [index close].
  now rewrite !length_map.
Qed.

Lemma labels_of_columns (f : price_series -> series)
  (kept : list (String.string * price_series)) :
  (forall mdf, map fst (f mdf) = map fst mdf) ->
  flat_map (fun c : String.string * series => map fst (snd c))
           (map (fun e : String.string * price_series => (fst e, f (snd e)))
                kept)
  = flat_map (fun e : String.string * price_series => map fst (snd e)) kept.
Proof.
  intros H. induction kept as [|e kept IH]; cbn; [reflexivity|].
  now rewrite IH, H.
Qed.

Lemma union_index_same (kept : list (String.string * price_series)) :
  union_index (map (fun e => (fst e, return_series (snd e))) kept)
  = union_index (map (fun e => (fst e, position_series (snd e))) kept).
Proof.
  unfold union_index.
  apply (f_equal (fun l => fold_left (fun acc z => insert_label z acc) l [])).
  transitivity
    (flat_map (fun e : String.string * price_series => map fst (snd e)) kept).
  - apply (labels_of_columns return_series kept labels_return_series).
  - symmetry.
    apply (labels_of_columns position_series kept labels_position_series).
Qed.

Lemma intersection_self l : intersection l l = l.
Proof.
  unfold intersection. apply filter_all. apply Forall_forall. intros x Hx.
  apply existsb_exists. exists x. split; [exact Hx | apply Z.eqb_refl].
Qed.

Lemma portfolio_index_is_union_index (data : list (String.string * price_series)) :
  qualifying data <> [] ->
  portfolio_index (backtest_portfolio data)
  = union_index (map (fun e : String.string * price_series =>
                        (fst e, position_series (snd e))) (qualifying data)).
Proof.
  intros Hne. rewrite portfolio_index_is_intersection.
  now rewrite union_index_same, intersection_self.
Qed.

Lemma length_sum_axis1 f : length (sum_axis1 f) = length (f_index f).
Proof. unfold sum_axis1. now rewrite length_map, length_seq. Qed.

Lemma portfolio_lengths (data : list (String.string * price_series)) :
  length (portfolio_returns (backtest_portfolio data))
    = length (portfolio_index (backtest_portfolio data)) /\
  length (portfolio_cumulative (backtest_portfolio data))
    = length (portfolio_index (backtest_portfolio data)) /\
  length (active_counts (backtest_portfolio data))
    = length (portfolio_index (backtest_portfolio data)).
Proof.
  destruct (qualifying data) as [|e kept] eqn:E.
  - unfold backtest_portfolio. fold (qualifying data). rewrite E.
    repeat split.
  - rewrite (backtest_portfolio_kept data) by (rewrite E; discriminate).
    cbn [portfolio_returns portfolio_cumulative active_counts portfolio_index].
    unfold cumprod.
    rewrite length_cumprod_from, !length_map, !length_sum_axis1.
    repeat split.
Qed.

(** X12.  The periods of the portfolio.  For instruments with well-formed price
    tables the portfolio table has one row for every month in which some
    instrument that passes the length guard has a close, and for no other
    month, in increasing order; and the three series it returns -- returns,
    cumulative growth and active count -- have one entry for each of these
    rows. *)
Theorem portfolio_periods (data : list (String.string * price_series)) :
  Forall (fun e => well_formed (snd e)) data ->
  increasing (portfolio_index (backtest_portfolio data)) /\
  (forall ts,
     In ts (portfolio_index (backtest_portfolio data))
     <-> exists e, In e (qualifying data) /\ In ts (map fst (snd e))) /\
  length (portfolio_returns (backtest_portfolio data))
    = length (portfolio_index (backtest_portfolio data)) /\
  length (portfolio_cumulative (backtest_portfolio data))
    = length (portfolio_index (backtest_portfolio data)) /\
  length (active_counts (backtest_portfolio data))
    = length (portfolio_index (backtest_portfolio data)).
Proof.
  intros _. split; [|split; [|apply portfolio_lengths]].
  - destruct (qualifying data) as [|e kept] eqn:E.
    + unfold backtest_portfolio. fold (qualifying data). rewrite E.
      constructor.
    + rewrite portfolio_index_is_union_index by (rewrite E; discriminate).
      apply union_index_spec.
  - intros ts. destruct (qualifying data) as [|e0 kept] eqn:E.
    + unfold backtest_portfolio. fold (qualifying data). rewrite E. cbn.
      split; [tauto | intros (e & [] & _)].
    + rewrite portfolio_index_is_union_index by (rewrite E; discriminate).
      rewrite E. rewrite (proj2 (union_index_spec _)). split.
      * intros (c & Hc & Hts). apply in_map_iff in Hc.
        destruct Hc as (e & <- & He). cbn [snd] in Hts.
        rewrite labels_position_series in Hts. eauto.
      * intros (e & He & Hts).
        exists (fst e, position_series (snd e)). split.
        -- apply in_map_iff. eauto.
        -- cbn [snd]. now rewrite labels_position_series.
Qed.

Lemma portfolio_periods_witness :
  increasing (portfolio_index (backtest_portfolio two_instruments)).
Proof.
  apply (portfolio_periods two_instruments). repeat constructor.
Defined.

(** ** The active count and the portfolio return *)

Lemma active_is_indicator mdf ts :
  active mdf ts = if holding mdf ts then 1 else 0.
Proof.
  unfold active, holding.
  destruct (position_at_label mdf ts) as [-> | [-> | ->]]; reflexivity.
Qed.

Lemma sum_indicators {A} (f : A -> bool) (l : list A) :
  sum (map (fun x => if f x then 1 else 0) l)
  == inject_Z (Z.of_nat (length (filter f l))).
Proof.
  induction l as [|a l IH]; cbn [map sum fold_right filter];
    [reflexivity|].
  fold (sum (map (fun x => if f x then 1 else 0) l)). rewrite IH.
  destruct (f a); cbn [length]; [|ring].
  rewrite Nat2Z.inj_succ. unfold Z.succ. rewrite inject_Z_plus. ring.
Qed.

(** X13.  The active count counts.  For instruments with well-formed price
    tables, the active count of a period of the portfolio table is the
    number of instruments, among those that pass the length guard, whose
    position in that period is 1: a whole number between 0 and the number of
    these instruments.  An instrument whose position is 0 or missing in the
    period -- in its own first month, or outside its own months -- is not
    counted. *)
Theorem active_count_counts
  (data : list (String.string * price_series)) (k : nat) (ts : Z) :
  Forall (fun e => well_formed (snd e)) data ->
  nth_error (portfolio_index (backtest_portfolio data)) k = Some ts ->
  exists a,
    nth_error (active_counts (backtest_portfolio data)) k = Some a /\
    a == inject_Z (Z.of_nat (length (filter (fun e => holding (snd e) ts)
                                            (qualifying data)))) /\
    0 <= a /\
    a <= inject_Z (Z.of_nat (length (qualifying data))).
Proof.
  intros _ Hts. rewrite portfolio_index_is_intersection in Hts.
  destruct (portfolio_cells data k ts Hts) as [_ Ha].
  eexists. split; [exact Ha|].
  assert (E : sum (map (fun e : String.string * price_series =>
                          active (snd e) ts) (qualifying data))
              == inject_Z (Z.of_nat (length (filter (fun e => holding (snd e) ts)
                                                    (qualifying data))))).
  { rewrite <- (sum_indicators (fun e : String.string * price_series =>
                                  holding (snd e) ts)).
    assert (Em : map (fun e : String.string * price_series => active (snd e) ts)
                     (qualifying data)
                 = map (fun e : String.string * price_series =>
                          if holding (snd e) ts then 1 else 0)
                       (qualifying data)).
    { apply map_ext. intros e. apply active_is_indicator. }
    now rewrite Em. }
  split; [exact E|]. rewrite E. split.
  - change 0 with (inject_Z 0). rewrite <- Zle_Qle. lia.
  - rewrite <- Zle_Qle. apply inj_le. apply filter_length_le.
Qed.

Lemma active_count_counts_witness :
  exists a,
    nth_error (active_counts (backtest_portfolio two_instruments)) 10 = Some a /\
    0 <= a.
Proof.
  destruct (active_count_counts two_instruments 10 11)
    as (a & Ha & _ & H0 & _); [repeat constructor | reflexivity |].
  exists a. split; assumption.
Defined.

Lemma return_cell_above mdf ts v :
  Forall (fun e => 0 < snd e) mdf ->
  at_label (return_series mdf) ts = Some v -> -1 < v.
Proof.
  intros Hpos H. apply at_label_in in H. unfold return_series in H.
  apply in_map_iff in H. destruct H as ((i & c) & Hc & Hin). cbn in Hc.
  subst c. apply in_combine_r in Hin.
  unfold calculate_signals, calculate_signals_with in Hin; cbn [close] in Hin.
  pose proof (pct_change_above (map snd mdf) ltac:(now apply Forall_map))
    as Hall.
  rewrite Forall_forall in Hall. exact (Hall _ Hin).
Qed.

Lemma contribution_above mdf ts :
  well_formed mdf -> -1 < contribution mdf ts.
Proof.
  intros [_ Hpos]. unfold contribution.
  pose proof (gated_return_above
                (at_label (position_series mdf) ts)
                (at_label (return_series mdf) ts)
                (position_at_label mdf ts)) as H.
  destruct (at_label (return_series mdf) ts) as [v|] eqn:E.
  - specialize (H (return_cell_above mdf ts v Hpos E)).
    destruct (fmul _ _); cbn [fillna]; [exact H | reflexivity].
  - specialize (H I). destruct (fmul _ _); cbn [fillna]; [exact H | reflexivity].
Qed.

Lemma sum_above (xs : list Q) :
  Forall (fun x => -1 < x) xs ->
  xs = [] \/ - inject_Z (Z.of_nat (length xs)) < sum xs.
Proof.
  induction 1 as [|x xs Hx _ IH]; [now left|]. right.
  cbn [sum fold_right length]. fold (sum xs).
  rewrite Nat2Z.inj_succ. unfold Z.succ. rewrite inject_Z_plus.
  change (inject_Z 1) with 1. cbn beta in Hx.
  destruct IH as [-> | IH]; [|Lqa.lra].
  cbn [length sum fold_right Z.of_nat]. change (inject_Z 0) with 0. Lqa.lra.
Qed.

(** X14.  Thirty instruments cannot lose everything.  For at most thirty
    instruments that pass the length guard -- the application never has
    more -- with well-formed price tables, every return of the portfolio is
    strictly above -100% and its cumulative growth is positive in every
    period: each instrument loses less than its thirtieth. *)
Theorem portfolio_growth_positive
  (data : list (String.string * price_series)) :
  Forall (fun e => well_formed (snd e)) data ->
  (length (qualifying data) <= 30)%nat ->
  Forall (fun r => -1 < r) (portfolio_returns (backtest_portfolio data)) /\
  Forall (fun c => 0 < c) (portfolio_cumulative (backtest_portfolio data)).
Proof.
  intros Hwf Hn.
  assert (Hret : Forall (fun r => -1 < r)
                   (portfolio_returns (backtest_portfolio data))).
  { apply Forall_nth_error_intro. intros k r Hr.
    assert (Hk : (k < length (portfolio_index (backtest_portfolio data)))%nat).
    { rewrite <- (proj1 (portfolio_lengths data)).
      apply nth_error_Some. congruence. }
    destruct (nth_error (portfolio_index (backtest_portfolio data)) k)
      as [ts|] eqn:Ets; [|apply nth_error_None in Ets; lia].
    rewrite portfolio_index_is_intersection in Ets.
    destruct (portfolio_cells data k ts Ets) as [Hc _].
    rewrite Hc in Hr. injection Hr as <-.
    assert (Hall : Forall (fun x => -1 < x)
                     (map (fun e : String.string * price_series =>
                             contribution (snd e) ts) (qualifying data))).
    { apply Forall_map. apply Forall_forall. intros e He.
      apply contribution_above. unfold qualifying in He.
      apply filter_In in He. destruct He as [He _].
      rewrite Forall_forall in Hwf. now apply Hwf. }
    unfold N. apply Qlt_shift_div_l; [reflexivity|].
    destruct (sum_above _ Hall) as [E | Hlt].
    - rewrite E. reflexivity.
    - rewrite length_map in Hlt.
      assert (Hle : inject_Z (Z.of_nat (length (qualifying data)))
                    <= inject_Z 30) by (rewrite <- Zle_Qle; lia).
      change (inject_Z 30) with 30 in Hle. Lqa.lra. }
  split; [exact Hret|].
  unfold backtest_portfolio in *.
  destruct (map _ (filter _ data)) as [|hd tl];
    cbn [portfolio_returns portfolio_cumulative] in *; [constructor|].
  apply cumprod_from_pos; [Lqa.lra|]. apply Forall_map.
  eapply Forall_impl; [|exact Hret]. intros v Hv; cbn in *; Lqa.lra.
Qed.

Lemma portfolio_growth_positive_witness :
  Forall (fun c => 0 < c)
         (portfolio_cumulative (backtest_portfolio (instruments 30 crash))).
Proof.
  apply (portfolio_growth_positive (instruments 30 crash)).
  - unfold instruments. apply Forall_map. apply Forall_forall. intros k _.
    split; [unfold increasing; cbn|]; repeat constructor.
  - vm_compute. repeat constructor.
Defined.

(** ** The drawdown of the backtesters' own returns *)

Lemma mdd_defined r0 tl :
  ~ r0 == -1 -> exists m, mdd_of (r0 :: tl) = Some m /\ m <= 0.
Proof.
  intros Hr. destruct (first_drawdown r0 tl Hr) as (d & rest & Hd & Hd0).
  unfold mdd_of. rewrite Hd.
  destruct (min_skipna_head d rest) as (m & Hm & Hle).
  exists m. split; [exact Hm | Lqa.lra].
Qed.

Lemma metrics_entry_mdd (s : series) (bm : option series) (rs : list Q) :
  map snd (dropna s) = rs -> rs <> [] ->
  In (key_mdd, option_map (fun m => Rround (Q2R m * 100) 2) (mdd_of rs))
     (calculate_metrics s bm).
Proof.
  intros Hrs Hne. unfold calculate_metrics.
  destruct (dropna s) as [|e es] eqn:E; [cbn in Hrs; congruence|].
  rewrite Hrs. apply in_or_app. left. cbn. auto.
Qed.

Lemma list_two {A} (l : list A) a b :
  nth_error l 0 = Some a -> nth_error l 1 = Some b ->
  exists tl, l = a :: b :: tl.
Proof.
  destruct l as [|x [|y tl]]; cbn; try discriminate.
  intros [= ->] [= ->]. eauto.
Qed.

Lemma stock_returns_start (prices : price_series) :
  (2 <= length prices)%nat ->
  exists r1 rest,
    returns (backtest_stock prices) = None :: Some r1 :: rest /\ r1 == 0.
Proof.
  intros Hn.
  assert (H0 : nth_error (returns (backtest_stock prices)) 0 = Some None).
  { apply first_period_growth. destruct prices; [cbn in Hn; lia | discriminate]. }
  destruct (nth_error (map snd prices) 0) as [p0|] eqn:E0;
    [|apply nth_error_None in E0; rewrite length_map in E0; lia].
  destruct (nth_error (map snd prices) 1) as [p1|] eqn:E1;
    [|apply nth_error_None in E1; rewrite length_map in E1; lia].
  assert (H1 : nth_error (returns (backtest_stock prices)) 1
               = Some (Some (inject_Z 0 * (p1 / p0 - 1)))).
  { unfold backtest_stock; cbn [returns]. rewrite nth_error_zip_with.
    unfold calculate_signals; cbn [_cfg fst snd].
    rewrite (position_cell_S 2 10 prices 0) by lia.
    rewrite (state_at_early 2 10 prices 0) by lia.
    unfold calculate_signals_with; cbn [close].
    now rewrite (nth_error_pct_change _ _ _ _ E0 E1). }
  destruct (list_two _ _ _ H0 H1) as (rest & E).
  do 2 eexists. split; [exact E|]. cbn. ring.
Qed.

(** X15.  The maximum drawdown of a single-instrument backtest is defined.  The
    strategy return of the second month of a well-formed price table is 0,
    since no position can be open yet; so the return series that
    [backtest_stock] hands to the metrics calculator never starts with a
    return of -100%, and the dictionary carries a maximum drawdown that is a
    number, at most 0. *)
Theorem stock_drawdown_defined
  (prices : price_series) (benchmark_series : option series) :
  well_formed prices -> (2 <= length prices)%nat ->
  exists m,
    mdd_of (map snd (dropna (combine (index (signals (backtest_stock prices)))
                                     (returns (backtest_stock prices)))))
      = Some m /\
    m <= 0 /\
    In (key_mdd, Some (Rround (Q2R m * 100) 2))
       (calculate_metrics (combine (index (signals (backtest_stock prices)))
                                   (returns (backtest_stock prices)))
                          benchmark_series).
Proof.
  intros _ Hn. destruct (stock_returns_start prices Hn) as (r1 & rest & E & Hr).
  rewrite E.
  assert (Hix : exists i0 i1 itl,
            index (signals (backtest_stock prices)) = i0 :: i1 :: itl).
  { unfold backtest_stock, calculate_signals, calculate_signals_with.
    cbn [signals index].
    destruct prices as [|[i0 p0] [|[i1 p1] tl]]; cbn in Hn; try lia.
    cbn. eauto. }
  destruct Hix as (i0 & i1 & itl & ->).
  cbn [combine dropna map snd].
  destruct (mdd_defined r1 (map snd (dropna (combine itl rest))))
    as (m & Hm & Hle); [Lqa.lra|].
  exists m. split; [exact Hm|]. split; [exact Hle|].
  pose proof (metrics_entry_mdd
                (combine (i0 :: i1 :: itl) (None :: Some r1 :: rest))
                benchmark_series
                (r1 :: map snd (dropna (combine itl rest)))
                eq_refl ltac:(discriminate)) as Hin.
  rewrite Hm in Hin. exact Hin.
Qed.

Lemma stock_drawdown_defined_witness :
  exists m,
    mdd_of (map snd (dropna (combine (index (signals (backtest_stock crash)))
                                     (returns (backtest_stock crash)))))
      = Some m /\
    m <= 0.
Proof.
  destruct (stock_drawdown_defined crash None) as (m & Hm & Hle & _).
  - split; [unfold increasing; cbn|]; repeat constructor.
  - cbn. lia.
  - exists m. split; assumption.
Defined.

Lemma at_label_absent (s : series) ts :
  ~ In ts (map fst s) -> at_label s ts = None.
Proof.
  intros H. unfold at_label.
  destruct (find (fun e => Z.eqb (fst e) ts) s) as [e|] eqn:E; [|reflexivity].
  apply find_some in E. destruct E as [Hin Heq]. apply Z.eqb_eq in Heq.
  exfalso. apply H. rewrite <- Heq. now apply in_map.
Qed.

Lemma position_before_first (mdf : price_series) ts :
  increasing (map fst mdf) ->
  (forall x, In x (map fst mdf) -> (ts <= x)%Z) ->
  at_label (position_series mdf) ts = None.
Proof.
  intros Hinc Hmin.
  destruct mdf as [|[i0 p0] tl]; [reflexivity|].
  assert (Hp : exists rest,
            position (calculate_signals ((i0, p0) :: tl)) = None :: rest).
  { pose proof (position_cell_0 2 10 ((i0, p0) :: tl) ltac:(cbn; lia)) as H.
    unfold calculate_signals; cbn [_cfg fst snd].
    destruct (position (calculate_signals_with 2 10 ((i0, p0) :: tl)));
      [discriminate|]. cbn in H. injection H as ->. eauto. }
  destruct Hp as (rest & Hp).
  unfold position_series. rewrite Hp.
  unfold calculate_signals, calculate_signals_with; cbn [index map fst combine].
  unfold at_label. cbn [find fst snd].
  destruct (Z.eqb_spec i0 ts) as [_|Hne]; [reflexivity|].
  fold (at_label (combine (map fst tl) rest) ts).
  apply at_label_absent. intros Hin.
  assert (Hin' : In ts (map fst tl)).
  { apply in_map_iff in Hin. destruct Hin as ((i & c) & <- & Hc).
    apply in_combine_l in Hc. exact Hc. }
  cbn in Hinc. unfold increasing in Hinc.
  inversion Hinc as [|? ? _ Hlt]; subst.
  rewrite Forall_forall in Hlt. specialize (Hlt ts Hin').
  specialize (Hmin i0 ltac:(now left)). lia.
Qed.

Lemma dropna_combine_some (ix : list Z) (rs : list Q) :
  dropna (combine ix (map Some rs)) = combine ix rs.
Proof.
  revert rs. induction ix as [|i ix IH]; intros [|r rs]; cbn;
    try reflexivity. now rewrite IH.
Qed.

Lemma map_snd_combine {A B} (l : list A) (l' : list B) :
  length l = length l' -> map snd (combine l l') = l'.
Proof.
  revert l'. induction l as [|a l IH]; intros [|b l'] H; try discriminate;
    cbn; [reflexivity|]. f_equal. apply IH. now injection H.
Qed.

(** X16.  The portfolio starts with a return of 0, and its maximum drawdown is
    defined.  In the first month of the portfolio table no instrument holds
    a position -- it is the first month of every instrument that has a close
    in it -- so, for instruments with well-formed price tables of which one
    passes the length guard, the first portfolio return is 0; the series
    handed to the metrics calculator does not start with a return of -100%,
    and the dictionary carries a maximum drawdown that is a number, at
    most 0. *)
Theorem portfolio_drawdown_defined
  (data : list (String.string * price_series))
  (benchmark_series : option series) :
  Forall (fun e => well_formed (snd e)) data ->
  qualifying data <> [] ->
  (exists r0 tl,
     portfolio_returns (backtest_portfolio data) = r0 :: tl /\ r0 == 0) /\
  exists m,
    mdd_of (portfolio_returns (backtest_portfolio data)) = Some m /\
    m <= 0 /\
    In (key_mdd, Some (Rround (Q2R m * 100) 2))
       (calculate_metrics
          (combine (portfolio_index (backtest_portfolio data))
                   (map Some (portfolio_returns (backtest_portfolio data))))
          benchmark_series).
Proof.
  intros Hwf Hne.
  pose proof (portfolio_index_is_union_index data Hne) as Hix.
  destruct (union_index_spec
              (map (fun e : String.string * price_series =>
                      (fst e, position_series (snd e))) (qualifying data)))
    as [Hsorted Hmem].
  rewrite <- Hix in Hsorted, Hmem.
  assert (Hlabels : forall e x, In e (qualifying data) ->
            In x (map fst (snd e)) ->
            In x (portfolio_index (backtest_portfolio data))).
  { intros e x He Hx. apply Hmem.
    exists (fst e, position_series (snd e)). split.
    - apply in_map_iff. eauto.
    - cbn [snd]. now rewrite labels_position_series. }
  (* the table has a first row *)
  assert (Hfirst : exists ts0 rest,
            portfolio_index (backtest_portfolio data) = ts0 :: rest).
  { destruct (qualifying data) as [|e kept] eqn:E; [congruence|].
    assert (He : In e (qualifying data)) by (rewrite E; now left).
    assert (Hq : qualifies (snd e) = true).
    { unfold qualifying in He. apply filter_In in He. tauto. }
    destruct (snd e) as [|[i0 p0] tl] eqn:Es; [discriminate|].
    rewrite <- E in Hlabels.
    specialize (Hlabels e i0 He ltac:(rewrite Es; now left)).
    destruct (portfolio_index (backtest_portfolio data)); [destruct Hlabels|].
    eauto. }
  destruct Hfirst as (ts0 & rest & Eix).
  assert (Hmin : forall x, In x (portfolio_index (backtest_portfolio data)) ->
                           (ts0 <= x)%Z).
  { rewrite Eix in *. unfold increasing in Hsorted.
    inversion Hsorted as [|? ? _ Hlt]; subst.
    rewrite Forall_forall in Hlt.
    intros x [<- | Hx]; [lia|]. specialize (Hlt x Hx). lia. }
  assert (Hcell : nth_error (portfolio_index (backtest_portfolio data)) 0
                  = Some ts0) by now rewrite Eix.
  rewrite portfolio_index_is_intersection in Hcell.
  destruct (portfolio_cells data 0 ts0 Hcell) as [Hr _].
  assert (Hzero : sum (map (fun e : String.string * price_series =>
                              contribution (snd e) ts0) (qualifying data))
                  == 0).
  { apply sum_of_zeros. apply Forall_map. apply Forall_forall. intros e He.
    unfold contribution. rewrite position_before_first; [reflexivity| |].
    - unfold qualifying in He. apply filter_In in He. destruct He as [He _].
      rewrite Forall_forall in Hwf. now destruct (Hwf e He).
    - intros x Hx. apply Hmin. now apply (Hlabels e). }
  destruct (portfolio_returns (backtest_portfolio data)) as [|r0 tl] eqn:Er;
    [discriminate|].
  cbn in Hr. injection Hr as Hr0.
  assert (H0 : r0 == 0) by (rewrite Hr0, Hzero; reflexivity).
  split; [exists r0, tl; split; [reflexivity | exact H0]|].
  destruct (mdd_defined r0 tl) as (m & Hm & Hle); [Lqa.lra|].
  exists m. split; [exact Hm|]. split; [exact Hle|].
  pose proof (portfolio_lengths data) as (Hlen & _). rewrite Er in Hlen.
  pose proof (metrics_entry_mdd
                (combine (portfolio_index (backtest_portfolio data))
                         (map Some (r0 :: tl)))
                benchmark_series (r0 :: tl)) as Hin.
  rewrite dropna_combine_some, map_snd_combine in Hin by (symmetry; exact Hlen).
  specialize (Hin eq_refl ltac:(discriminate)).
  rewrite Hm in Hin. exact Hin.
Qed.

Lemma portfolio_drawdown_defined_witness :
  exists m,
    mdd_of (portfolio_returns (backtest_portfolio two_instruments)) = Some m /\
    m <= 0.
Proof.
  destruct (portfolio_drawdown_defined two_instruments None)
    as (_ & m & Hm & Hle & _).
  - repeat constructor.
  - discriminate.
  - exists m. split; assumption.
Defined.

(** ** A portfolio of one instrument *)

Lemma sorted_before {A} (R : A -> A -> Prop) l1 x l2 :
  StronglySorted R (l1 ++ x :: l2) -> Forall (fun a => R a x) l1.
Proof.
  induction l1 as [|a l1 IH]; cbn; intros H; [constructor|].
  inversion H as [|? ? Hs Ha]; subst.
  constructor; [|now apply IH].
  rewrite Forall_forall in Ha. apply Ha. apply in_or_app. right. now left.
Qed.

Lemma insert_label_last z l :
  Forall (fun a => (a < z)%Z) l -> insert_label z l = l ++ [z].
Proof.
  induction 1 as [|y l Hy _ IH]; cbn; [reflexivity|].
  destruct (Z.ltb_spec z y); [lia|].
  destruct (Z.eqb_spec z y); [lia|]. now rewrite IH.
Qed.

Lemma fold_insert_increasing xs acc :
  increasing (acc ++ xs) ->
  fold_left (fun a z => insert_label z a) xs acc = acc ++ xs.
Proof.
  revert acc. induction xs as [|z xs IH]; intros acc H; cbn.
  - now rewrite app_nil_r.
  - rewrite (insert_label_last z acc) by (exact (sorted_before _ _ _ _ H)).
    rewrite IH; rewrite <- app_assoc; [reflexivity | exact H].
Qed.

Lemma at_label_nth (ix : list Z) (col : list fval) k ts v :
  increasing ix -> nth_error ix k = Some ts -> nth_error col k = Some v ->
  at_label (combine ix col) ts = v.
Proof.
  unfold at_label. revert col k.
  induction ix as [|i ix IH]; intros col k Hs Hi Hv;
    [destruct k; discriminate|].
  destruct col as [|c col]; [destruct k; discriminate|].
  unfold increasing in Hs. inversion Hs as [|? ? Hs' Hlt]; subst.
  destruct k as [|k]; cbn in Hi, Hv |- *.
  - injection Hi as ->. injection Hv as ->. now rewrite Z.eqb_refl.
  - assert (Hne : (i =? ts)%Z = false).
    { apply Z.eqb_neq. rewrite Forall_forall in Hlt.
      specialize (Hlt ts (nth_error_In _ _ Hi)). lia. }
    rewrite Hne. now apply (IH col k).
Qed.

Lemma Forall2_nth_error_intro {A B} (R : A -> B -> Prop) l l' :
  length l = length l' ->
  (forall k a b, nth_error l k = Some a -> nth_error l' k = Some b -> R a b) ->
  Forall2 R l l'.
Proof.
  revert l'. induction l as [|a l IH]; intros [|b l'] Hlen H;
    try discriminate; constructor.
  - exact (H 0%nat a b eq_refl eq_refl).
  - apply IH; [now injection Hlen|]. intros k. exact (H (S k)).
Qed.

(** X17.  A portfolio of one instrument is a thirtieth of its backtest.  For one
    well-formed price table of eleven months or more, the portfolio table
    has the months of that table; its return of each month is the strategy
    return of [backtest_stock] for that month, a missing one counting as 0,
    divided by 30; and its active count is the position column, a missing
    position counting as 0. *)
Theorem portfolio_of_one (name : String.string) (prices : price_series) :
  well_formed prices -> (11 <= length prices)%nat ->
  portfolio_index (backtest_portfolio [(name, prices)]) = map fst prices /\
  Forall2 Qeq (portfolio_returns (backtest_portfolio [(name, prices)]))
          (map (fun r => fillna 0 r / 30) (returns (backtest_stock prices))) /\
  Forall2 Qeq (active_counts (backtest_portfolio [(name, prices)]))
          (map (fillna 0) (position (signals (backtest_stock prices)))).
Proof.
  intros [Hinc _] Hn.
  assert (Hq : qualifying [(name, prices)] = [(name, prices)]).
  { unfold qualifying, qualifies. cbn [filter snd].
    replace (length prices =? 0)%nat with false
      by (symmetry; apply Nat.eqb_neq; lia).
    replace (length prices <? 11)%nat with false
      by (symmetry; apply Nat.ltb_ge; lia).
    reflexivity. }
  assert (Hix : portfolio_index (backtest_portfolio [(name, prices)])
                = map fst prices).
  { rewrite portfolio_index_is_union_index by (rewrite Hq; discriminate).
    rewrite Hq. unfold union_index. cbn [map flat_map fst snd].
    rewrite app_nil_r, labels_position_series.
    now apply (fold_insert_increasing (map fst prices) []). }
  destruct (portfolio_lengths [(name, prices)]) as (Lr & _ & La).
  destruct (length_returns prices) as [Ls _].
  rewrite Hix, length_map in Lr, La.
  assert (Hcells : forall k, (k < length prices)%nat ->
            exists ts pc mr,
              nth_error (map fst prices) k = Some ts /\
              nth_error (position (calculate_signals prices)) k = Some pc /\
              nth_error (pct_change (close (calculate_signals prices))) k
                = Some mr /\
              at_label (position_series prices) ts = pc /\
              at_label (return_series prices) ts = mr).
  { intros k Hk.
    destruct (nth_error (map fst prices) k) as [ts|] eqn:Ets;
      [|apply nth_error_None in Ets; rewrite length_map in Ets; lia].
    destruct (position_cell_ex 2 10 prices k Hk) as [pc Hpc].
    destruct (nth_error (pct_change (close (calculate_signals prices))) k)
      as [mr|] eqn:Emr.
    2:{ apply nth_error_None in Emr. rewrite length_pct_change in Emr.
        unfold calculate_signals, calculate_signals_with in Emr.
        cbn [close] in Emr. rewrite length_map in Emr. lia. }
    exists ts, pc, mr. repeat split; try assumption.
    - unfold position_series. now apply (at_label_nth _ _ k).
    - unfold return_series. now apply (at_label_nth _ _ k). }
  split; [exact Hix|]. split.
  - apply Forall2_nth_error_intro; [rewrite length_map; lia|].
    intros k a b Ha Hb.
    assert (Hk : (k < length prices)%nat).
    { rewrite <- Lr. apply nth_error_Some. congruence. }
    destruct (Hcells k Hk) as (ts & pc & mr & Hts & Hpc & Hmr & Ep & Er).
    rewrite <- Hix, portfolio_index_is_intersection in Hts.
    destruct (portfolio_cells _ k ts Hts) as [Hc _].
    rewrite Hq in Hc. cbn [map snd sum fold_right] in Hc.
    unfold contribution in Hc. rewrite Ep, Er in Hc.
    rewrite nth_error_map in Hb. unfold backtest_stock in Hb.
    cbn [returns] in Hb. rewrite nth_error_zip_with, Hpc, Hmr in Hb.
    cbn [option_map] in Hb.
    assert (Ea : a = (fillna 0 (fmul pc mr) + 0) / N) by congruence.
    assert (Eb : b = fillna 0 (fmul pc mr) / 30) by congruence.
    rewrite Ea, Eb. unfold N. unfold Qdiv. ring.
  - apply Forall2_nth_error_intro.
    { rewrite length_map. unfold backtest_stock; cbn [signals].
      unfold calculate_signals. rewrite length_position. lia. }
    intros k a b Ha Hb.
    assert (Hk : (k < length prices)%nat).
    { rewrite <- La. apply nth_error_Some. congruence. }
    destruct (Hcells k Hk) as (ts & pc & mr & Hts & Hpc & Hmr & Ep & Er).
    rewrite <- Hix, portfolio_index_is_intersection in Hts.
    destruct (portfolio_cells _ k ts Hts) as [_ Hc].
    rewrite Hq in Hc. cbn [map snd sum fold_right] in Hc.
    unfold active in Hc. rewrite Ep in Hc.
    rewrite nth_error_map in Hb. unfold backtest_stock in Hb.
    cbn [signals] in Hb. rewrite Hpc in Hb.
    cbn [option_map] in Hb.
    assert (Ea : a = fillna 0 pc + 0) by congruence.
    assert (Eb : b = fillna 0 pc) by congruence.
    rewrite Ea, Eb. ring.
Qed.

Lemma portfolio_of_one_witness :
  portfolio_index (backtest_portfolio [(String.EmptyString, crash)])
  = map fst crash.
Proof.
  apply (portfolio_of_one String.EmptyString crash).
  - split; [unfold increasing; cbn|]; repeat constructor.
  - cbn. lia.
Defined.

(** ** Tables that are too short *)

(** X18.  A table that is too short changes nothing.  An instrument with fewer
    than eleven monthly closes has no part in the portfolio: with it or
    without it the portfolio backtester returns the same table, whatever the
    other instruments are and wherever it stands among them. *)
Theorem short_tables_are_ignored
  (before after : list (String.string * price_series))
  (name : String.string) (short : price_series) :
  (length short < 11)%nat ->
  backtest_portfolio (before ++ (name, short) :: after)
  = backtest_portfolio (before ++ after).
Proof.
  intros H. unfold backtest_portfolio. rewrite !filter_app. cbn [filter snd].
  assert (E : qualifies short = false).
  { unfold qualifies. apply Nat.ltb_lt in H. rewrite H.
    now rewrite orb_true_r. }
  now rewrite E.
Qed.

Lemma short_tables_are_ignored_witness :
  backtest_portfolio ([] ++ (String.EmptyString, three_months) :: two_instruments)
  = backtest_portfolio ([] ++ two_instruments).
Proof.
  apply (short_tables_are_ignored [] two_instruments String.EmptyString
           three_months).
  cbn. lia.
Defined.

Lemma portfolio_index_nonempty (data : list (String.string * price_series)) :
  qualifying data <> [] -> portfolio_index (backtest_portfolio data) <> [].
Proof.
  intros Hne Hnil.
  destruct (qualifying data) as [|e kept] eqn:E; [congruence|].
  assert (He : In e (qualifying data)) by (rewrite E; now left).
  assert (Hq : qualifies (snd e) = true).
  { unfold qualifying in He. apply filter_In in He. tauto. }
  destruct (snd e) as [|[i0 p0] tl] eqn:Es; [discriminate|].
  assert (Hin : In i0 (portfolio_index (backtest_portfolio data))).
  { rewrite portfolio_index_is_union_index by (rewrite E; discriminate).
    apply (proj2 (union_index_spec _)).
    exists (fst e, position_series (snd e)). split.
    - apply in_map_iff. exists e. split; [reflexivity | exact He].
    - cbn [snd]. rewrite labels_position_series, Es. now left. }
  rewrite Hnil in Hin. destruct Hin.
Qed.

(** X19.  The portfolio is empty exactly when no table is long enough.  The
    portfolio backtester returns its three empty series when every
    instrument has fewer than eleven monthly closes -- so also for no
    instruments at all -- and only then: one table of eleven closes or more
    gives a portfolio with at least one period.  The application shows
    the portfolio when the return series is not empty. *)
Theorem portfolio_empty_iff (data : list (String.string * price_series)) :
  (Forall (fun e : String.string * price_series => (length (snd e) < 11)%nat)
          data ->
   backtest_portfolio data
   = {| portfolio_index := []; portfolio_returns := [];
        portfolio_cumulative := []; active_counts := [] |}) /\
  (portfolio_returns (backtest_portfolio data) = [] ->
   Forall (fun e : String.string * price_series => (length (snd e) < 11)%nat)
          data) /\
  (portfolio_returns (backtest_portfolio data) <> [] <->
   exists e, In e data /\ (11 <= length (snd e))%nat).
Proof.
  assert (Hback : portfolio_returns (backtest_portfolio data) = [] ->
            Forall (fun e : String.string * price_series =>
                      (length (snd e) < 11)%nat) data).
  { intros Hnil. apply Forall_forall. intros e He.
    destruct (Nat.lt_ge_cases (length (snd e)) 11) as [|Hge]; [assumption|].
    exfalso.
    assert (Hq : In e (qualifying data)).
    { unfold qualifying. apply filter_In. split; [exact He|].
      unfold qualifies.
      replace (length (snd e) =? 0)%nat with false
        by (symmetry; apply Nat.eqb_neq; lia).
      replace (length (snd e) <? 11)%nat with false
        by (symmetry; apply Nat.ltb_ge; lia).
      reflexivity. }
    assert (Hne : qualifying data <> [])
      by (intros E; rewrite E in Hq; destruct Hq).
    apply (portfolio_index_nonempty data Hne).
    apply length_zero_iff_nil.
    rewrite <- (proj1 (portfolio_lengths data)), Hnil. reflexivity. }
  split; [apply portfolio_guard|]. split; [exact Hback|]. split.
  - intros Hne.
    destruct (Exists_dec (fun e : String.string * price_series =>
                            (11 <= length (snd e))%nat) data) as [Hex|Hno].
    { intros e. destruct (le_dec 11 (length (snd e))); auto. }
    + apply Exists_exists in Hex. exact Hex.
    + exfalso. apply Hne.
      rewrite (portfolio_guard data); [reflexivity|].
      apply Forall_forall. intros e He.
      destruct (Nat.lt_ge_cases (length (snd e)) 11) as [|Hge]; [assumption|].
      exfalso. apply Hno. apply Exists_exists. eauto.
  - intros (e & He & Hlen) Hnil.
    pose proof (Hback Hnil) as Hall. rewrite Forall_forall in Hall.
    specialize (Hall e He). cbn in Hall. lia.
Qed.

(** * The data fetcher *)

(** ** The latest trading day *)

(** X20.  The latest trading day is not a day of the weekend.  Whatever day
    today is, [get_latest_trading_date] writes a day from Monday to Friday:
    today itself on such a day, the Friday before on a Saturday or Sunday,
    so never more than two days back.  (Holidays are not looked at.) *)
Theorem latest_trading_date_is_weekday (today : Z) :
  (0 <= DataFetcher.weekday (DataFetcher.get_latest_trading_date today) <= 4)%Z /\
  (DataFetcher.get_latest_trading_date today <= today
   <= DataFetcher.get_latest_trading_date today + 2)%Z /\
  ((DataFetcher.weekday today <= 4)%Z ->
   DataFetcher.get_latest_trading_date today = today) /\
  ((5 <= DataFetcher.weekday today)%Z ->
   DataFetcher.weekday (DataFetcher.get_latest_trading_date today) = 4%Z) /\
  DataFetcher.get_latest_trading_date (DataFetcher.get_latest_trading_date today)
  = DataFetcher.get_latest_trading_date today.
Proof.
  unfold DataFetcher.get_latest_trading_date, DataFetcher.weekday.
  destruct (Z.eqb_spec ((today + 6) mod 7) 5) as [E5|N5].
  - assert (E : ((today - 1 + 6) mod 7 = 4)%Z)
      by (revert E5; Z.to_euclidean_division_equations; lia).
    rewrite E. cbn. repeat split; lia.
  - destruct (Z.eqb_spec ((today + 6) mod 7) 6) as [E6|N6].
    + assert (E : ((today - 2 + 6) mod 7 = 4)%Z)
        by (revert E6; Z.to_euclidean_division_equations; lia).
      rewrite E. cbn. repeat split; lia.
    + pose proof (Z.mod_pos_bound (today + 6) 7 ltac:(lia)) as Hb.
      destruct (Z.eqb_spec ((today + 6) mod 7) 5); [contradiction|].
      destruct (Z.eqb_spec ((today + 6) mod 7) 6); [contradiction|].
      repeat split; lia.
Qed.

(** ** Monthly closes *)

Section MonthlyClose.
Import DataFetcher.

Lemma days_in_month_bounds y m : (28 <= days_in_month y m <= 31)%Z.
Proof.
  unfold days_in_month.
  destruct (m =? 2)%Z; [destruct (is_leap y); lia|].
  destruct (_ || _)%bool; lia.
Qed.

Lemma same_month_end d e :
  same_month d e = true -> month_end d = month_end e.
Proof.
  unfold same_month, month_end. intros H. apply andb_true_iff in H.
  destruct H as [Hy Hm]. apply Z.eqb_eq in Hy, Hm. now rewrite Hy, Hm.
Qed.

Lemma resample_head d v tl :
  exists w out, resample_last ((d, v) :: tl) = (month_end d, w) :: out.
Proof.
  revert d v. induction tl as [|[d' v'] tl IH]; intros d v.
  - cbn. eauto.
  - destruct (IH d' v') as (w & out & E).
    cbn [resample_last] in E |- *. rewrite E.
    destruct (same_month d (month_end d')) eqn:Es; [|eauto].
    exists (match w with Some _ => w | None => v end), out.
    f_equal. f_equal.
    assert (Es' : same_month d d' = true) by exact Es.
    symmetry. now apply same_month_end.
Qed.

Lemma resample_values rows e c :
  In (e, Some c) (resample_last rows) ->
  exists d, In (d, Some c) rows /\ e = month_end d.
Proof.
  revert e c. induction rows as [|[d v] tl IH]; intros e c H; [destruct H|].
  cbn [resample_last] in H.
  destruct (resample_last tl) as [|[e' w] out] eqn:E.
  - destruct H as [H|[]]. injection H as <- ->. exists d. split; [now left|].
    reflexivity.
  - destruct (same_month d e') eqn:Es.
    + destruct H as [H|H].
      * injection H as <- Hw. destruct w as [c'|].
        -- injection Hw as ->.
           destruct (IH e' c (or_introl eq_refl)) as (d0 & Hin & He).
           exists d0. split; [now right | exact He].
        -- subst v. exists d. split; [now left|].
           destruct tl as [|[d' v'] tl']; [discriminate|].
           destruct (resample_head d' v' tl') as (w' & out' & E').
           rewrite E' in E. injection E as <- _ _.
           symmetry. now apply same_month_end.
      * destruct (IH e c (or_intror H)) as (d0 & Hin & He).
        exists d0. split; [now right | exact He].
    + destruct H as [H|H].
      * injection H as <- ->. exists d. split; [now left | reflexivity].
      * destruct (IH e c H) as (d0 & Hin & He).
        exists d0. split; [now right | exact He].
Qed.

Lemma length_resample_last rows :
  (length (resample_last rows) <= length rows)%nat.
Proof.
  induction rows as [|[d v] tl IH]; cbn [resample_last length]; [lia|].
  destruct (resample_last tl) as [|[e w] out]; [cbn; lia|].
  destruct (same_month d e); cbn [length] in *; lia.
Qed.

Lemma month_end_order d d' :
  valid d -> valid d' -> (stamp d <= stamp d')%Z ->
  same_month d (month_end d') = false ->
  (stamp (month_end d) < stamp (month_end d'))%Z.
Proof.
  intros [Hm Hd] [Hm' Hd'] Hle Hs.
  pose proof (days_in_month_bounds (year d) (month d)).
  pose proof (days_in_month_bounds (year d') (month d')).
  unfold same_month, month_end in Hs. cbn [year month] in Hs.
  unfold stamp, month_end in *. cbn [year month day] in *.
  apply andb_false_iff in Hs.
  destruct Hs as [Hs|Hs]; apply Z.eqb_neq in Hs; lia.
Qed.

Lemma resample_sorted rows :
  chronological rows ->
  StronglySorted (fun a b => (stamp (fst a) < stamp (fst b))%Z)
                 (resample_last rows).
Proof.
  intros [Hv Hs].
  induction rows as [|[d v] tl IH]; [constructor|].
  inversion Hv as [|? ? Hd Hvt]; subst.
  inversion Hs as [|? ? Hst Hle]; subst.
  specialize (IH Hvt Hst). cbn [resample_last].
  destruct tl as [|[d' v'] tl']; [cbn; repeat constructor|].
  destruct (resample_head d' v' tl') as (w & out & E).
  rewrite E in IH |- *.
  inversion IH as [|? ? Hout Hlt]; subst.
  destruct (same_month d (month_end d')) eqn:Es.
  - constructor; assumption.
  - constructor; [exact IH|].
    assert (Hnew : (stamp (month_end d) < stamp (month_end d'))%Z).
    { inversion Hvt; subst. inversion Hle; subst.
      now apply month_end_order. }
    constructor; [exact Hnew|].
    eapply Forall_impl; [|exact Hlt]. intros a Ha. cbn [fst] in *. lia.
Qed.

Lemma in_dropna (s : series) ts c :
  In (ts, c) (dropna s) <-> In (ts, Some c) s.
Proof.
  induction s as [|[t [v|]] s IH]; cbn; [tauto| |].
  - rewrite IH. split; intros [H|H]; auto; left; inversion H; reflexivity.
  - rewrite IH. split; [auto|]. intros [H|H]; [discriminate | exact H].
Qed.

Lemma dropna_sorted (s : series) :
  StronglySorted (fun a b : Z * fval => (fst a < fst b)%Z) s ->
  StronglySorted Z.lt (map fst (dropna s)).
Proof.
  induction 1 as [|[t v] s Hs IH Hlt]; [constructor|].
  destruct v as [c|]; cbn; [|exact IH].
  constructor; [exact IH|]. apply Forall_forall. intros x Hx.
  apply in_map_iff in Hx. destruct Hx as ((t' & c') & <- & Hin).
  apply in_dropna in Hin. rewrite Forall_forall in Hlt.
  exact (Hlt _ Hin).
Qed.

Lemma length_dropna (s : series) : (length (dropna s) <= length s)%nat.
Proof.
  induction s as [|[t [v|]] s IH]; cbn; lia.
Qed.

Lemma monthly_close_values rows ts c :
  In (ts, c) (monthly_close rows) ->
  exists d, In (d, Some c) rows /\ ts = stamp (month_end d).
Proof.
  unfold monthly_close. intros H. apply in_dropna in H.
  apply in_map_iff in H. destruct H as ((e & w) & Hew & Hin).
  cbn [fst snd] in Hew. injection Hew as <- ->.
  destruct (resample_values rows e c Hin) as (d & Hd & ->). eauto.
Qed.

Lemma monthly_close_well_formed rows :
  chronological rows ->
  Forall (fun r => match snd r with Some c => 0 < c | None => True end) rows ->
  well_formed (monthly_close rows).
Proof.
  intros Hc Hpos. split.
  - unfold increasing, monthly_close. apply dropna_sorted.
    pose proof (resample_sorted rows Hc) as Hs.
    induction Hs as [|a l Hl IH Ha]; cbn; constructor; [exact IH|].
    apply Forall_map. exact Ha.
  - apply Forall_forall. intros [ts c] Hin. cbn [snd].
    destruct (monthly_close_values rows ts c Hin) as (d & Hd & _).
    rewrite Forall_forall in Hpos. exact (Hpos _ Hd).
Qed.

End MonthlyClose.

Section MonthlyCloseTheorems.
Import DataFetcher.

Lemma resample_head_label tl e w out :
  resample_last tl = (e, w) :: out ->
  exists d' v' tl', tl = (d', v') :: tl' /\ e = month_end d'.
Proof.
  destruct tl as [|[d' v'] tl']; [discriminate|]. intros H.
  destruct (resample_head d' v' tl') as (w' & out' & E).
  rewrite E in H. injection H as <- _ _. eauto.
Qed.

Lemma resample_covers rows d c :
  In (d, Some c) rows ->
  exists c', In (month_end d, Some c') (resample_last rows).
Proof.
  induction rows as [|[d0 v0] tl IH]; intros H; [destruct H|].
  destruct H as [H|H].
  - injection H as -> ->. cbn [resample_last].
    destruct (resample_last tl) as [|[e w] out] eqn:E.
    + exists c. now left.
    + destruct (same_month d e) eqn:Es.
      * destruct (resample_head_label _ _ _ _ E) as (d' & v' & tl' & _ & ->).
        rewrite (same_month_end d (month_end d') Es).
        assert (Em : month_end (month_end d') = month_end d') by reflexivity.
        rewrite Em.
        destruct w as [cw|]; [exists cw | exists c]; now left.
      * exists c. now left.
  - destruct (IH H) as (c' & Hin). cbn [resample_last].
    destruct (resample_last tl) as [|[e w] out] eqn:E; [destruct Hin|].
    destruct (same_month d0 e) eqn:Es.
    + destruct Hin as [Hin|Hin].
      * injection Hin as -> ->. exists c'. now left.
      * exists c'. now right.
    + exists c'. now right.
Qed.

Lemma month_order a b :
  valid a -> valid b -> (stamp a <= stamp b)%Z ->
  (year a < year b)%Z \/ (year a = year b /\ (month a <= month b)%Z).
Proof.
  intros [Hm Hd] [Hm' Hd'] Hle.
  pose proof (days_in_month_bounds (year a) (month a)).
  pose proof (days_in_month_bounds (year b) (month b)).
  unfold stamp in Hle. lia.
Qed.

Lemma sorted_labels_unique (l : list (date * fval)) e w w' :
  StronglySorted (fun a b => (stamp (fst a) < stamp (fst b))%Z) l ->
  In (e, w) l -> In (e, w') l -> w = w'.
Proof.
  induction 1 as [|a l Hl IH Ha]; intros H1 H2; [destruct H1|].
  rewrite Forall_forall in Ha.
  destruct H1 as [H1|H1], H2 as [H2|H2].
  - congruence.
  - subst a. specialize (Ha _ H2). cbn in Ha. lia.
  - subst a. specialize (Ha _ H1). cbn in Ha. lia.
  - now apply IH.
Qed.

Lemma chronological_tail r rows :
  chronological (r :: rows) -> chronological rows.
Proof.
  intros [Hv Hs]. inversion Hv; subst. inversion Hs; subst. now split.
Qed.

(** The close that [resample_last] gives a month is the last one of that
    month that is not NaN. *)
Lemma resample_last_of_month rows e c :
  chronological rows ->
  In (e, Some c) (resample_last rows) ->
  exists before d after,
    rows = before ++ (d, Some c) :: after /\ e = month_end d /\
    Forall (fun r => same_month (fst r) d = true -> snd r = None) after.
Proof.
  revert e c. induction rows as [|[d0 v0] tl IH]; intros e c Hc H;
    [destruct H|].
  pose proof (chronological_tail _ _ Hc) as Hct.
  assert (Hprepend : In (e, Some c) (resample_last tl) ->
            exists before d after,
              (d0, v0) :: tl = before ++ (d, Some c) :: after /\
              e = month_end d /\
              Forall (fun r => same_month (fst r) d = true -> snd r = None)
                     after).
  { intros Hin. destruct (IH e c Hct Hin) as (b & d & a & -> & He & Ha).
    exists ((d0, v0) :: b), d, a. auto. }
  cbn [resample_last] in H.
  destruct tl as [|[d' v'] tl'].
  { cbn in H. destruct H as [H|[]]. injection H as <- ->.
    exists [], d0, []. repeat split. constructor. }
  destruct (resample_head d' v' tl') as (w & out & E).
  rewrite E in H.
  destruct Hc as [Hv Hs].
  inversion Hv as [|? ? Hv0 Hvt]; subst.
  inversion Hs as [|? ? Hst Hle]; subst.
  rewrite Forall_forall in Hle, Hvt.
  destruct (same_month d0 (month_end d')) eqn:Es.
  - destruct H as [H|H].
    + injection H as <- Hw. destruct w as [cw|].
      * injection Hw as ->. apply Hprepend. rewrite E. now left.
      * subst v0. exists [], d0, ((d', v') :: tl').
        split; [reflexivity|].
        split; [symmetry; now apply (same_month_end d0 (month_end d'))|].
        apply Forall_forall. intros [dr vr] Hr Hsame. cbn [fst snd] in *.
        destruct vr as [cr|]; [|reflexivity]. exfalso.
        destruct (resample_covers _ dr cr Hr) as (c' & Hin).
        assert (Elab : month_end dr = month_end d').
        { rewrite (same_month_end dr d0 Hsame).
          now apply (same_month_end d0 (month_end d')). }
        rewrite Elab in Hin.
        pose proof (resample_sorted _ Hct) as Hsorted.
        assert (Hhead : In (month_end d', None)
                           (resample_last ((d', v') :: tl')))
          by (rewrite E; now left).
        pose proof (sorted_labels_unique _ _ _ _ Hsorted Hin Hhead).
        discriminate.
    + apply Hprepend. rewrite E. now right.
  - destruct H as [H|H].
    + injection H as <- ->. exists [], d0, ((d', v') :: tl').
      split; [reflexivity|]. split; [reflexivity|].
      apply Forall_forall. intros [dr vr] Hr Hsame. cbn [fst snd] in *.
      exfalso.
      assert (Hd' : valid d') by (apply (Hvt (d', v')); now left).
      assert (Hdr : valid dr) by (apply (Hvt (dr, vr)); exact Hr).
      assert (H0' : (stamp d0 <= stamp d')%Z)
        by (apply (Hle (d', v')); now left).
      assert (H'r : (stamp d' <= stamp dr)%Z).
      { destruct Hr as [Hr|Hr]; [injection Hr as <- _; lia|].
        inversion Hst as [|? ? _ Hle']; subst.
        rewrite Forall_forall in Hle'. exact (Hle' _ Hr). }
      pose proof (month_order d0 d' Hv0 Hd' H0').
      pose proof (month_order d' dr Hd' Hdr H'r).
      unfold same_month in Es, Hsame. cbn [month_end year month] in Es.
      apply andb_true_iff in Hsame. destruct Hsame as [Hy Hm].
      apply Z.eqb_eq in Hy, Hm.
      apply andb_false_iff in Es.
      destruct Es as [Es|Es]; apply Z.eqb_neq in Es; lia.
    + apply Hprepend. rewrite E. exact H.
Qed.

(** X21.  The monthly closes are a price table of the data model.  From a daily
    table in the order of the calendar whose closes are positive where they
    are not NaN, the resampling to month ends that the fetcher applies gives
    a well-formed price table -- strictly increasing month-end timestamps,
    positive closes -- which is what the theorems on the backtesters ask
    for.  It has a row exactly for the months in which some day has a close
    that is not NaN, so never more rows than the daily table; and the close
    of a month is the last close of that month that is not NaN. *)
Theorem monthly_close_is_a_price_table (rows : daily) :
  chronological rows ->
  Forall (fun r => match snd r with Some c => 0 < c | None => True end) rows ->
  well_formed (monthly_close rows) /\
  (length (monthly_close rows) <= length rows)%nat /\
  (forall d c, In (d, Some c) rows ->
     In (stamp (month_end d)) (map fst (monthly_close rows))) /\
  (forall ts c, In (ts, c) (monthly_close rows) ->
     exists before d after,
       rows = before ++ (d, Some c) :: after /\
       ts = stamp (month_end d) /\
       Forall (fun r => same_month (fst r) d = true -> snd r = None) after).
Proof.
  intros Hc Hpos.
  split; [now apply monthly_close_well_formed|]. split; [|split].
  - unfold monthly_close.
    etransitivity; [apply length_dropna|]. rewrite length_map.
    apply length_resample_last.
  - intros d c Hin. destruct (resample_covers rows d c Hin) as (c' & Hc').
    apply in_map_iff. exists (stamp (month_end d), c'). split; [reflexivity|].
    unfold monthly_close. apply in_dropna. apply in_map_iff.
    exists (month_end d, Some c'). split; [reflexivity | exact Hc'].
  - intros ts c Hin. unfold monthly_close in Hin. apply in_dropna in Hin.
    apply in_map_iff in Hin. destruct Hin as ((e & w) & Hew & Hin).
    cbn [fst snd] in Hew. injection Hew as <- ->.
    destruct (resample_last_of_month rows e c Hc Hin)
      as (b & d & a & Hrows & -> & Ha).
    exists b, d, a. auto.
Qed.

Lemma monthly_close_is_a_price_table_witness :
  well_formed (monthly_close month_turn) /\
  monthly_close month_turn = [(20240131%Z, 100); (20240229%Z, 110)].
Proof.
  split; [|reflexivity].
  apply (monthly_close_is_a_price_table month_turn).
  - split.
    + repeat constructor; cbn; lia.
    + repeat constructor; cbn; lia.
  - repeat constructor.
Defined.

Lemma accepted_some (answer : option daily) df :
  accepted answer = Some df ->
  answer = Some df /\ (10 < length df)%nat.
Proof.
  unfold accepted. destruct answer as [df0|]; [|discriminate].
  destruct (negb (length df0 =? 0)%nat && (10 <? length df0)%nat) eqn:E;
    [|discriminate].
  intros [= ->]. apply andb_true_iff in E. destruct E as [_ E].
  apply Nat.ltb_lt in E. auto.
Qed.

Lemma accepted_short (df : daily) :
  (length df <= 10)%nat -> accepted (Some df) = None.
Proof.
  intros H. unfold accepted.
  replace (10 <? length df)%nat with false
    by (symmetry; apply Nat.ltb_ge; exact H).
  now rewrite andb_false_r.
Qed.

Lemma pick_source (yfinance fdr pykrx : option daily) :
  get_stock_monthly_close yfinance fdr pykrx
  = match accepted yfinance, accepted fdr, accepted pykrx with
    | Some df, _, _ => monthly_close df
    | None, Some df, _ => monthly_close df
    | None, None, Some df => monthly_close df
    | None, None, None => []
    end.
Proof.
  assert (Hne : forall a df, accepted a = Some df ->
            (length df =? 0)%nat = false).
  { intros a df E. destruct (accepted_some _ _ E) as [_ H].
    apply Nat.eqb_neq. lia. }
  unfold get_stock_monthly_close.
  destruct (accepted yfinance) as [df1|] eqn:E1; cbv beta iota zeta.
  - now rewrite !(Hne _ _ E1).
  - cbn [length Nat.eqb].
    destruct (accepted fdr) as [df2|] eqn:E2; cbv beta iota zeta.
    + now rewrite !(Hne _ _ E2).
    + cbn [length Nat.eqb].
      destruct (accepted pykrx) as [df3|] eqn:E3; cbv beta iota zeta;
        [|reflexivity].
      now rewrite !(Hne _ _ E3).
Qed.

(** X22.  The monthly closes of an instrument come from the first source that
    answers with more than ten days.  yfinance is asked first, then
    FinanceDataReader, then pykrx: the table is the resampling of the first
    answer that has more than ten daily rows, whatever the later sources
    would answer; an answer of ten rows or fewer counts as no answer; with
    no such answer the table is empty.  When the answers are daily tables in
    the order of the calendar with positive closes, the table is a
    well-formed price table.  More than ten days do not make eleven months:
    the table can be shorter than the backtesters ask for. *)
Theorem stock_closes_from_first_source (yfinance fdr pykrx : option daily) :
  (forall df : daily, accepted yfinance = Some df ->
     forall fdr' pykrx',
       get_stock_monthly_close yfinance fdr' pykrx' = monthly_close df) /\
  (forall df : daily, (length df <= 10)%nat ->
     get_stock_monthly_close (Some df) fdr pykrx
     = get_stock_monthly_close None fdr pykrx /\
     get_stock_monthly_close yfinance (Some df) pykrx
     = get_stock_monthly_close yfinance None pykrx /\
     get_stock_monthly_close yfinance fdr (Some df)
     = get_stock_monthly_close yfinance fdr None) /\
  (forall df : daily, accepted fdr = Some df ->
     get_stock_monthly_close None fdr pykrx = monthly_close df) /\
  (forall df : daily, accepted pykrx = Some df ->
     get_stock_monthly_close None None pykrx = monthly_close df) /\
  get_stock_monthly_close None None None = [] /\
  ((forall df : daily, In (Some df) [yfinance; fdr; pykrx] ->
      chronological df /\
      Forall (fun r => match snd r with Some c => 0 < c | None => True end) df) ->
   well_formed (get_stock_monthly_close yfinance fdr pykrx)) /\
  (accepted (Some one_month) = Some one_month /\
   length (get_stock_monthly_close (Some one_month) None None) = 1%nat /\
   get_current_signal (get_stock_monthly_close (Some one_month) None None)
   = None).
Proof.
  split; [|split; [|split; [|split; [|split; [|split]]]]].
  - intros df E fdr' pykrx'. now rewrite pick_source, E.
  - intros df Hlen. rewrite !pick_source, !(accepted_short df Hlen).
    repeat split.
  - intros df E. rewrite pick_source, E. reflexivity.
  - intros df E. rewrite pick_source, E. reflexivity.
  - reflexivity.
  - intros Hsrc. rewrite pick_source.
    assert (Hwf : forall a df, In a [yfinance; fdr; pykrx] ->
              accepted a = Some df -> well_formed (monthly_close df)).
    { intros a df Ha E. destruct (accepted_some _ _ E) as [-> _].
      destruct (Hsrc df Ha) as [Hc Hp].
      now apply monthly_close_well_formed. }
    destruct (accepted yfinance) as [df1|] eqn:E1;
      [apply (Hwf yfinance); cbn; auto|].
    destruct (accepted fdr) as [df2|] eqn:E2;
      [apply (Hwf fdr); cbn; auto|].
    destruct (accepted pykrx) as [df3|] eqn:E3;
      [apply (Hwf pykrx); cbn; auto|].
    split; constructor.
  - repeat split.
Qed.

(** X23.  The monthly closes of the index come from yfinance when it answers
    with more than ten days, otherwise from FinanceDataReader when that
    does, and are the empty table otherwise; an answer of ten rows or fewer
    counts as no answer.  For answers in the order of the calendar with
    positive closes the table is a well-formed price table. *)
Theorem index_closes_from_first_source (yfinance fdr : option daily) :
  (forall df : daily, accepted yfinance = Some df ->
     forall fdr', get_kospi_index_monthly yfinance fdr' = monthly_close df) /\
  (forall df : daily, (length df <= 10)%nat ->
     get_kospi_index_monthly (Some df) fdr = get_kospi_index_monthly None fdr /\
     get_kospi_index_monthly yfinance (Some df)
     = get_kospi_index_monthly yfinance None) /\
  (forall df : daily, accepted fdr = Some df ->
     get_kospi_index_monthly None fdr = monthly_close df) /\
  get_kospi_index_monthly None None = [] /\
  ((forall df : daily, In (Some df) [yfinance; fdr] ->
      chronological df /\
      Forall (fun r => match snd r with Some c => 0 < c | None => True end) df) ->
   well_formed (get_kospi_index_monthly yfinance fdr)).
Proof.
  split; [|split; [|split; [|split]]].
  - intros df E fdr'. unfold get_kospi_index_monthly. now rewrite E.
  - intros df Hlen. unfold get_kospi_index_monthly.
    rewrite !(accepted_short df Hlen). split; reflexivity.
  - intros df E. unfold get_kospi_index_monthly. now rewrite E.
  - reflexivity.
  - intros Hsrc. unfold get_kospi_index_monthly.
    assert (Hwf : forall a (df : daily), In a [yfinance; fdr] ->
              accepted a = Some df -> well_formed (monthly_close df)).
    { intros a df Ha E. destruct (accepted_some _ _ E) as [-> _].
      destruct (Hsrc df Ha) as [Hc Hp].
      now apply monthly_close_well_formed. }
    destruct (accepted yfinance) as [df1|] eqn:E1;
      [apply (Hwf yfinance); cbn; auto|].
    destruct (accepted fdr) as [df2|] eqn:E2;
      [apply (Hwf fdr); cbn; auto|].
    split; constructor.
Qed.

End MonthlyCloseTheorems.

(** * The embedded constants *)

(** X24.  The windows are 2 and 10.  The constant that [_cfg] decodes -- base64,
    then JSON, then the items "a" and "b" -- gives the short window 2 and
    the long window 10, the pair this development takes for [_cfg]; the
    short window is the shorter one, and with a long window of 10 a table
    of eleven closes has two periods in which both averages exist. *)
Theorem cfg_is_2_and_10 :
  Decoding._cfg_decoded = Some _cfg /\
  (0 < fst _cfg < snd _cfg)%nat /\
  (snd _cfg < 11)%nat /\
  option_map (map Ascii.nat_of_ascii)
    (Decoding.b64decode Decoding.cfg_constant)
  = Some [123; 34; 97; 34; 58; 50; 44; 34; 98; 34; 58; 49; 48; 125]%nat.
Proof.
  split; [vm_compute; reflexivity|]. split; [cbn; lia|].
  split; [cbn; lia|]. vm_compute. reflexivity.
Qed.

(** X25.  The application stops working after 2026.  The year that the script
    decodes from its constant is 2026, and the check at its start stops the
    application exactly when the current year is 2027 or later. *)
Theorem application_expires_after_2026 (year : Z) :
  Decoding._ey = Some 2026%Z /\
  App.stops year = Some (2026 <? year)%Z /\
  (App.stops year = Some true <-> (2027 <= year)%Z).
Proof.
  assert (E : Decoding._ey = Some 2026%Z) by (vm_compute; reflexivity).
  split; [exact E|]. unfold App.stops. rewrite E. cbn [option_map].
  split; [reflexivity|]. split.
  - intros [= H]. apply Z.ltb_lt in H. lia.
  - intros H. f_equal. apply Z.ltb_lt. lia.
Qed.
